(** * mongoose-crate-gm: the GraphicsMagick file processor

    A shallow embedding of [src/lib/GraphicsMagick.js] and the properties
    of its transform-orchestration engine.

    JavaScript objects whose key order matters ([options.transforms], each
    transform) are association lists in [Object.keys] order; the model, a
    plain dictionary of sub-records, is a [gmap], and so is each
    sub-record, a bag of named fields.  The options object is shared with
    the caller, so it lives in a heap.  The callbacks of the collaborators
    (gm, fs, mmmagic, the storage provider) are oracles of an environment
    record, and what the processor does to them is recorded as a trace of
    events.  [async.waterfall] is a state machine per unit, advanced by
    one callback at a time; [async.parallel] is an interleaving of these
    callbacks chosen by a schedule, so that a property of every schedule
    is a property of every order in which the callbacks can arrive.  An
    exception ([TypeError]) is an outcome of its own. *)

From Stdlib Require Import ZArith List String Ascii Strings.Byte Lia.
From stdpp Require Import base gmap strings list.
Import ListNotations.

Local Open Scope string_scope.
Local Open Scope list_scope.

(** ** JavaScript values *)

(** Scalars that occur as option values of a transform. *)
Inductive Atom :=
| AStr (s : string)
| ANum (n : Z)
| ABool (b : bool)
| AUndefined.

(** A transform option is a scalar or an [Array] of scalars. *)
Inductive Value :=
| Scalar (a : Atom)
| Arr (l : list Atom).

(** [!!a] *)
Definition atom_truthy (a : Atom) : bool :=
  match a with
  | AStr s => negb (String.eqb s "")
  | ANum n => negb (Z.eqb n 0)
  | ABool b => b
  | AUndefined => false
  end.

(** An object literal: its own enumerable string keys in [Object.keys]
    order, each with its value.  Keys of a JavaScript object are unique
    ([obj_wf]). *)
Definition JsObject (V : Type) := list (string * V).

Definition obj_keys {V} (o : JsObject V) : list string := map fst o.

(** [o[k]] *)
Fixpoint obj_get {V} (o : JsObject V) (k : string) : option V :=
  match o with
  | [] => None
  | (k', v) :: o' => if String.eqb k' k then Some v else obj_get o' k
  end.

Definition obj_wf {V} (o : JsObject V) : Prop := NoDup (obj_keys o).

Definition TransformSpec := JsObject Value.
Definition TransformsConfig := JsObject TransformSpec.

(** [transform[arg]]: a missing property reads as [undefined]. *)
Definition prop_value (o : TransformSpec) (k : string) : Value :=
  match obj_get o k with
  | Some v => v
  | None => Scalar AUndefined
  end.

(** ** randomString *)

(** The source of [crypto.randomBytes]: an unbounded stream of bytes and
    the position of the next unread byte. *)
Record Entropy := { stream : nat -> byte; cursor : nat }.

(** [crypto.randomBytes(n)] *)
Definition randomBytes (n : nat) (g : Entropy) : list byte * Entropy :=
  (map (fun i => stream g (cursor g + i)%nat) (seq 0 n),
   {| stream := stream g; cursor := (cursor g + n)%nat |}).

Definition hex_digit (n : N) : ascii :=
  match n with
  | 0%N => "0" | 1%N => "1" | 2%N => "2" | 3%N => "3"
  | 4%N => "4" | 5%N => "5" | 6%N => "6" | 7%N => "7"
  | 8%N => "8" | 9%N => "9" | 10%N => "a" | 11%N => "b"
  | 12%N => "c" | 13%N => "d" | 14%N => "e" | _ => "f"
  end%char.

(** [buffer.toString('hex')]: two lowercase digits per byte, high nibble
    first. *)
Fixpoint toString_hex (bs : list byte) : string :=
  match bs with
  | [] => EmptyString
  | b :: bs' =>
      let n := Byte.to_N b in
      String (hex_digit (N.div n 16))
        (String (hex_digit (N.modulo n 16)) (toString_hex bs'))
  end.

(** [s.slice(0, n)] for a non-negative [n]. *)
Definition slice0 (s : string) (n : nat) : string := String.substring 0 n s.

(** [Math.ceil(length / 2)] *)
Definition ceil_half (len : nat) : nat := Nat.div (len + 1) 2.

Definition randomString (len : nat) (g : Entropy) : string * Entropy :=
  let (bytes, g') := randomBytes (ceil_half len) g in
  (slice0 (toString_hex bytes) len, g').

(** ** _setUpConvertArgs *)

(** [args.push(x)] *)
Definition push {A} (args : list A) (x : A) : list A := args ++ [x].

Definition _setUpConvertArgs (transform : TransformSpec) : list Atom :=
  fold_left
    (fun args arg =>
       if String.eqb arg "format" then args
       else
         let args := push args (AStr (String.append "-" arg)) in
         match prop_value transform arg with
         | Arr l => fold_left push l args
         | Scalar a => push args a
         end)
    (obj_keys transform) [].

(** The argument list as section 4.1 of the specification words it: per
    entry, nothing for [format], else the dashed flag followed by the
    scalar or by the elements of the list. *)
Definition spec_entry_tokens (kv : string * Value) : list Atom :=
  if String.eqb (fst kv) "format" then []
  else AStr (String.append "-" (fst kv))
       :: match snd kv with
          | Scalar a => [a]
          | Arr l => l
          end.

Definition ConvertArgsBuilder_spec (transform : TransformSpec) : list Atom :=
  concat (map spec_entry_tokens transform).

(** ** Collaborators *)

(** An error value handed to a callback (always truthy). *)
Record Error := { message : string }.

(** [attributes.size], the geometry of an image. *)
Record Size := { size_width : Z; size_height : Z }.

(** What [identify] reports about an image.  [attr_size] is
    [attributes.size], which is undefined when gm finds no geometry in
    the description of the image. *)
Record Attributes := {
  attr_format : string;
  attr_depth : Z;
  attr_size : option Size }.

(** The arguments [(error, attributes)] of the callback of [identify]. *)
Inductive IdentifyOutcome :=
| IdError (e : Error)
| IdAttributes (attributes : option Attributes).

(** [fs.Stats], of which only [size] is read. *)
Record Stats := { stats_size : Z }.

(** The descriptor [{path, size, type}] handed to [storageProvider.save]. *)
Record Blob := { blob_path : string; blob_size : Z; blob_type : string }.

(** A sub-record of the model is a bag of named fields; the model holds one
    per transform name. *)
Abbreviation SubRecord := (gmap string Atom).
Abbreviation Model := (gmap string (gmap string Atom)).

Record Attachment := { att_path : string; att_name : string }.

(** The outcome of every asynchronous call, as a function of its
    arguments: gm ([identify], [convert ... write]), [fs.stat],
    [Magic.detectFile] and the storage provider.  [None] and [inr] are a
    callback without error. *)
Record Collaborators := {
  gm_identify : option bool -> string -> IdentifyOutcome;
  gm_convert : option bool -> string -> list Atom -> string -> option Error;
  fs_stat : string -> Error + Stats;
  magic_detectFile : string -> Error + string;
  storage_save : Blob -> Error + string;
  storage_remove : SubRecord -> option Error }.

(** The parts of Node's [os] and [path] modules the processor calls, and
    [mkdirp.sync], which returns or throws ([Some] message). *)
Record Platform := {
  os_tmpdir : string;
  path_extname : string -> string;
  path_join : string -> string -> string;
  mkdirp_sync : string -> option string }.

(** ** Events *)

(** What the processor does to the outside: calls on collaborators,
    assignments to fields of a sub-record, and callbacks.  A sub-record is
    named by its key in the model. *)
Inductive Event :=
| EvIdentify (path : string)
| EvConvert (src : string) (args : list Atom) (out : string)
| EvStat (path : string)
| EvDetectFile (path : string)
| EvSave (blob : Blob)
| EvRemove (name : string) (record : SubRecord)
| EvSet (name : string) (field : string) (v : Atom)
| EvTaskDone (name : string) (error : option Error).

(** ** TransformUnit: the task pushed by _setUpTransform *)

(** The task is an [async.waterfall] of five calls and a final callback:
    each call hands its results to the next, and the first error skips to
    the final callback.  [Pending]: pushed on [tasks], not started.
    [Converting] to [Storing]: the call of that stage is in flight, with
    the values the waterfall has passed on so far.  [Crashed]: the final
    callback threw a [TypeError] (no sub-record to write to, no attributes
    to read from, or no size among them), and the callback of the task
    was never invoked. *)
Inductive UnitState :=
| Pending
| Converting
| Inspecting
| Stating (attributes : option Attributes)
| Sniffing (attributes : option Attributes) (stats : Stats)
| Storing (attributes : option Attributes) (stats : Stats) (mimeType : string)
| Committed
| Failed (e : Error)
| Crashed.

Record TransformUnit := {
  u_name : string;
  u_transform : TransformSpec;
  u_outputFile : string;
  u_state : UnitState }.

(** The effect of one callback arriving at a unit. *)
Record Effect := {
  eff_state : UnitState;
  eff_events : list Event;
  eff_model : Model;
  eff_done : option (option Error) }.

Definition set_state (u : TransformUnit) (s : UnitState) : TransformUnit :=
  {| u_name := u_name u; u_transform := u_transform u;
     u_outputFile := u_outputFile u; u_state := s |}.

Section Unit.
Context (env : Collaborators) (imageMagick : option bool)
        (attachment : Attachment).

(** The right-hand sides of the eight assignments of the final callback,
    in source order.  [None]: evaluating it throws a [TypeError], as
    [attributes.size.width] does when [attributes.size] is undefined. *)
Definition commit_fields (a : Attributes) (stats : Stats)
    (mimeType url : string) : list (string * option Atom) :=
  [ ("format", Some (AStr (attr_format a)));
    ("depth", Some (ANum (attr_depth a)));
    ("width", (fun size => ANum (size_width size)) <$> attr_size a);
    ("height", (fun size => ANum (size_height size)) <$> attr_size a);
    ("size", Some (ANum (stats_size stats)));
    ("url", Some (AStr url));
    ("name", Some (AStr (att_name attachment)));
    ("type", Some (AStr mimeType)) ].

(** The assignments [model.field = value], executed one after the other
    up to the first whose right-hand side throws: the sub-record they
    leave, the assignments made, and whether all of them were. *)
Fixpoint assign_fields (r : SubRecord) (fields : list (string * option Atom))
  : SubRecord * list (string * Atom) * bool :=
  match fields with
  | [] => (r, [], true)
  | (field, Some v) :: rest =>
      let '(r', made, complete) := assign_fields (<[field := v]> r) rest in
      (r', (field, v) :: made, complete)
  | (_, None) :: _ => (r, [], false)
  end.

(** A stage called back with an error: the waterfall skips to the final
    callback, which passes the error to the callback of the task. *)
Definition stage_failed (u : TransformUnit) (m : Model) (e : Error) : Effect :=
  {| eff_state := Failed e; eff_events := [EvTaskDone (u_name u) (Some e)];
     eff_model := m; eff_done := Some (Some e) |}.

(** A stage called back without error: the next stage is called. *)
Definition stage_passed (m : Model) (s : UnitState) (call : Event) : Effect :=
  {| eff_state := s; eff_events := [call]; eff_model := m; eff_done := None |}.

Definition idle (u : TransformUnit) (m : Model) : Effect :=
  {| eff_state := u_state u; eff_events := []; eff_model := m;
     eff_done := None |}.

(** The final callback of the waterfall when no stage failed: the
    assignments, then [callback(error)].  An exception leaves it at once:
    what was assigned stays, and the callback of the task is not
    invoked. *)
Definition final_callback (u : TransformUnit) (m : Model)
    (attributes : option Attributes) (stats : Stats)
    (mimeType url : string) : Effect :=
  match m !! u_name u, attributes with
  | Some r, Some a =>
      let '(r', made, complete) :=
        assign_fields r (commit_fields a stats mimeType url) in
      let sets := map (fun fv => EvSet (u_name u) fv.1 fv.2) made in
      if complete
      then {| eff_state := Committed;
              eff_events := sets ++ [EvTaskDone (u_name u) None];
              eff_model := <[u_name u := r']> m;
              eff_done := Some None |}
      else {| eff_state := Crashed; eff_events := sets;
              eff_model := <[u_name u := r']> m; eff_done := None |}
  | _, _ =>
      {| eff_state := Crashed; eff_events := []; eff_model := m;
         eff_done := None |}
  end.

(** The call of the first stage, made when [async.parallel] starts the
    task. *)
Definition start_event (u : TransformUnit) : Event :=
  EvConvert (att_path attachment) (_setUpConvertArgs (u_transform u))
    (u_outputFile u).

(** The call in flight calls back. *)
Definition unit_step (u : TransformUnit) (m : Model) : Effect :=
  let out := u_outputFile u in
  match u_state u with
  | Converting =>
      match gm_convert env imageMagick (att_path attachment)
              (_setUpConvertArgs (u_transform u)) out with
      | Some e => stage_failed u m e
      | None => stage_passed m Inspecting (EvIdentify out)
      end
  | Inspecting =>
      match gm_identify env imageMagick out with
      | IdError e => stage_failed u m e
      | IdAttributes a => stage_passed m (Stating a) (EvStat out)
      end
  | Stating a =>
      match fs_stat env out with
      | inl e => stage_failed u m e
      | inr stats => stage_passed m (Sniffing a stats) (EvDetectFile out)
      end
  | Sniffing a stats =>
      match magic_detectFile env out with
      | inl e => stage_failed u m e
      | inr mimeType =>
          stage_passed m (Storing a stats mimeType)
            (EvSave {| blob_path := out; blob_size := stats_size stats;
                       blob_type := mimeType |})
      end
  | Storing a stats mimeType =>
      match storage_save env
              {| blob_path := out; blob_size := stats_size stats;
                 blob_type := mimeType |} with
      | inl e => stage_failed u m e
      | inr url => final_callback u m a stats mimeType url
      end
  | Pending | Committed | Failed _ | Crashed => idle u m
  end.

(** A unit on its own: the task is started and its calls call back one
    after the other, [n] times. *)
Record UnitRun := {
  run_unit_state : TransformUnit;
  run_model : Model;
  run_trace : list Event }.

Fixpoint unit_steps (n : nat) (r : UnitRun) : UnitRun :=
  match n with
  | O => r
  | S n' =>
      let eff := unit_step (run_unit_state r) (run_model r) in
      unit_steps n'
        {| run_unit_state := set_state (run_unit_state r) (eff_state eff);
           run_model := eff_model eff;
           run_trace := run_trace r ++ eff_events eff |}
  end.

Definition run_task (n : nat) (u : TransformUnit) (m : Model) : UnitRun :=
  unit_steps n
    {| run_unit_state := set_state u Converting; run_model := m;
       run_trace := [start_event u] |}.

End Unit.

(** ** The constructor *)

Definition SUPPORTED_FORMATS : list string := ["JPEG"; "PNG"; "GIF"; "TIFF"].

(** The options object as the caller builds it; a field that is [None] is
    [undefined]. *)
Record Options := {
  opt_transforms : option TransformsConfig;
  opt_tmpDir : option string;
  opt_formats : option (list string);
  opt_imageMagick : option bool }.

(** [!options.tmpDir]: [undefined] and the empty string are falsy. *)
Definition tmpDir_falsy (o : Options) : bool :=
  match opt_tmpDir o with
  | Some d => String.eqb d ""
  | None => true
  end.

(** [!options.formats]: an array, even an empty one, is truthy. *)
Definition formats_falsy (o : Options) : bool :=
  match opt_formats o with
  | Some _ => false
  | None => true
  end.

Definition set_tmpDir (o : Options) (d : string) : Options :=
  {| opt_transforms := opt_transforms o; opt_tmpDir := Some d;
     opt_formats := opt_formats o; opt_imageMagick := opt_imageMagick o |}.

Definition set_formats (o : Options) (f : list string) : Options :=
  {| opt_transforms := opt_transforms o; opt_tmpDir := opt_tmpDir o;
     opt_formats := Some f; opt_imageMagick := opt_imageMagick o |}.

(** Objects live in a heap and are passed by reference; a reference
    outside the heap stands for an argument that is no object. *)
Abbreviation Heap := (gmap nat Options).

(** [this]: the processor keeps a reference to the options object. *)
Record GraphicsMagick := { _options : nat }.

(** A call that returns, or throws an exception with a message. *)
Inductive Completion (A : Type) :=
| Returned (a : A)
| Threw (msg : string).
Arguments Returned {A} a.
Arguments Threw {A} msg.

(** What a returned constructor leaves behind, beside the heap: the
    instance and the directory handed to [mkdirp.sync]. *)
Record Constructed := {
  c_this : GraphicsMagick;
  c_mkdirp : string }.

(** [new GraphicsMagick(options)]: how the call completes, and the heap it
    leaves.  The assertions throw before anything is written; [mkdirp.sync]
    throws after the defaults are. *)
Definition constructor (pf : Platform) (options : nat) (h : Heap)
  : Completion Constructed * Heap :=
  match h !! options with
  | None => (Threw "Some options are required!", h)
  | Some o =>
      match opt_transforms o with
      | None => (Threw "Some transforms are required!", h)
      | Some _ =>
          let this := {| _options := options |} in
          let o1 := if tmpDir_falsy o then set_tmpDir o (os_tmpdir pf) else o in
          let h1 := <[_options this := o1]> h in
          let o2 :=
            if formats_falsy o1 then set_formats o1 SUPPORTED_FORMATS else o1 in
          let h2 := <[_options this := o2]> h1 in
          let dir := default "" (opt_tmpDir o2) in
          match mkdirp_sync pf dir with
          | Some msg => (Threw msg, h2)
          | None => (Returned {| c_this := this; c_mkdirp := dir |}, h2)
          end
      end
  end.

(** The options of a constructed processor, as its methods read them
    through [this._options]. *)
Record Settings := {
  transforms : TransformsConfig;
  tmpDir : string;
  formats : list string;
  imageMagick : option bool }.

Definition settings_of (o : Options) : option Settings :=
  match opt_transforms o, opt_tmpDir o, opt_formats o with
  | Some t, Some d, Some f =>
      Some {| transforms := t; tmpDir := d; formats := f;
              imageMagick := opt_imageMagick o |}
  | _, _, _ => None
  end.

(** ** process *)

(** Truthiness of an option value; every array is truthy. *)
Definition value_truthy (v : Value) : bool :=
  match v with
  | Scalar a => atom_truthy a
  | Arr _ => true
  end.

(** [transform.format ? transform.format : path.extname(attachment.path)] *)
Definition supplied_extension (pf : Platform) (transform : TransformSpec)
    (attachment : Attachment) : Value :=
  let format := prop_value transform "format" in
  if value_truthy format then format
  else Scalar (AStr (path_extname pf (att_path attachment))).

(** The test on [extension.substring(0, 1)] and the prepended dot; a value
    that is no string has no [substring] method, and the call throws. *)
Definition dotted_extension (extension : Value) : Completion string :=
  match extension with
  | Scalar (AStr s) =>
      Returned (if String.eqb (String.substring 0 1 s) "." then s
                else String.append "." s)
  | _ => Threw "extension.substring is not a function"
  end.

(** [async.parallel], a dependency of the package, as its documentation
    and sections 5 and 7 of the specification give it: every task is
    started at once; the final callback fires once, with the first error
    a task calls back with, or with no error when as many tasks have
    completed as there are; a task that calls back later is not
    reported.  This is what a callback of a task does to the counter and
    to the argument of the final callback. *)
Definition parallel_callback (n : nat) (error : option Error)
    (completed : nat) (report : option (option Error))
  : nat * option (option Error) :=
  match error with
  | Some e =>
      (completed,
       match report with None => Some (Some e) | Some _ => report end)
  | None =>
      let completed := S completed in
      (completed,
       if Nat.eqb completed n
       then match report with None => Some None | Some _ => report end
       else report)
  end.

(** The state of one call of [process]: the tasks, the model, everything
    done so far (oldest first), the counter of [async.parallel], and the
    argument of [callback] once it has been called. *)
Record ProcState := {
  p_units : list TransformUnit;
  p_model : Model;
  p_trace : list Event;
  p_completed : nat;
  p_report : option (option Error);
  p_thrown : option string }.

Section Process.
Context (env : Collaborators) (pf : Platform) (cfg : Settings).

Definition not_an_image : Error := {| message := "File was not an image" |}.

(** [!attributes || formats.indexOf(attributes.format) === -1] *)
Definition unsupported (attributes : option Attributes) : bool :=
  match attributes with
  | None => true
  | Some a => negb (existsb (String.eqb (attr_format a)) (formats cfg))
  end.

(** The body of the [forEach] over the transform names: one task pushed
    per name, each with a fresh output file. *)
Fixpoint push_tasks (attachment : Attachment) (names : list string)
    (g : Entropy) (tasks : list TransformUnit)
  : list TransformUnit * option string :=
  match names with
  | [] => (tasks, None)
  | name :: names' =>
      match obj_get (transforms cfg) name with
      | None => (tasks, Some "Cannot read properties of undefined")
      | Some transform =>
          let extension := supplied_extension pf transform attachment in
          match dotted_extension extension with
          | Threw msg => (tasks, Some msg)
          | Returned extension =>
              let (random20, g') := randomString 20 g in
              let outputFile :=
                path_join pf (tmpDir cfg) (String.append random20 extension) in
              push_tasks attachment names' g'
                (push tasks
                   {| u_name := name; u_transform := transform;
                      u_outputFile := outputFile; u_state := Pending |})
          end
      end
  end.

Definition called_back (model : Model) (trace : list Event)
    (error : option Error) : ProcState :=
  {| p_units := []; p_model := model; p_trace := trace; p_completed := 0;
     p_report := Some error; p_thrown := None |}.

(** [process] up to the return of the callback of [identify]: every
    task has been started by [async.parallel], unless an error was
    called back or an exception left the tasks pushed so far unstarted. *)
Definition process (attachment : Attachment) (model : Model)
    (g : Entropy) : ProcState :=
  let src := att_path attachment in
  match gm_identify env (imageMagick cfg) src with
  | IdError error => called_back model [EvIdentify src] (Some error)
  | IdAttributes attributes =>
      if unsupported attributes
      then called_back model [EvIdentify src] (Some not_an_image)
      else
        match push_tasks attachment (obj_keys (transforms cfg)) g [] with
        | (tasks, Some msg) =>
            {| p_units := tasks; p_model := model;
               p_trace := [EvIdentify src]; p_completed := 0;
               p_report := None; p_thrown := Some msg |}
        | (tasks, None) =>
            {| p_units := map (fun u => set_state u Converting) tasks;
               p_model := model;
               p_trace :=
                 EvIdentify src
                 :: map (start_event attachment) tasks;
               p_completed := 0;
               p_report :=
                 if Nat.eqb (length tasks) 0 then Some None else None;
               p_thrown := None |}
        end
  end.

(** The call in flight of the [i]-th task calls back. *)
Definition proc_step (attachment : Attachment) (i : nat) (st : ProcState)
  : ProcState :=
  match p_units st !! i with
  | None => st
  | Some u =>
      let eff := unit_step env (imageMagick cfg) attachment u (p_model st) in
      let (completed, report) :=
        match eff_done eff with
        | Some error =>
            parallel_callback (length (p_units st)) error
              (p_completed st) (p_report st)
        | None => (p_completed st, p_report st)
        end in
      {| p_units := <[i := set_state u (eff_state eff)]> (p_units st);
         p_model := eff_model eff;
         p_trace := p_trace st ++ eff_events eff;
         p_completed := completed;
         p_report := report;
         p_thrown := p_thrown st |}
  end.

(** A schedule names, callback after callback, the task whose call
    returns next. *)
Definition run_schedule (attachment : Attachment) (schedule : list nat)
    (st : ProcState) : ProcState :=
  fold_left (fun st i => proc_step attachment i st) schedule st.

End Process.

(** ** remove and willOverwrite *)

(** [!!record.url] *)
Definition url_truthy (record : SubRecord) : bool :=
  match record !! "url" with
  | Some a => atom_truthy a
  | None => false
  end.

Inductive RemovalState :=
| Removing
| Removed
| RemoveFailed (e : Error).

(** A task of [remove]: the call [storageProvider.remove(model[name], ...)]. *)
Record RemovalTask := {
  rm_name : string;
  rm_record : SubRecord;
  rm_state : RemovalState }.

Record RemoveState := {
  r_tasks : list RemovalTask;
  r_trace : list Event;
  r_completed : nat;
  r_report : option (option Error);
  r_thrown : option string }.

Section Remove.
Context (env : Collaborators) (cfg : Settings).

(** The body of the [forEach] of [remove]: a name whose sub-record has
    no url is skipped; reading [url] off a missing sub-record throws. *)
Fixpoint push_removals (model : Model) (names : list string)
    (tasks : list RemovalTask) : list RemovalTask * option string :=
  match names with
  | [] => (tasks, None)
  | name :: names' =>
      match model !! name with
      | None => (tasks, Some "Cannot read properties of undefined")
      | Some record =>
          if negb (url_truthy record) then push_removals model names' tasks
          else
            push_removals model names'
              (push tasks {| rm_name := name; rm_record := record;
                             rm_state := Removing |})
      end
  end.

(** [remove] up to its return: [async.parallel] has started every task. *)
Definition remove (model : Model) : RemoveState :=
  match push_removals model (obj_keys (transforms cfg)) [] with
  | (tasks, Some msg) =>
      {| r_tasks := tasks; r_trace := []; r_completed := 0;
         r_report := None; r_thrown := Some msg |}
  | (tasks, None) =>
      {| r_tasks := tasks;
         r_trace := map (fun t => EvRemove (rm_name t) (rm_record t)) tasks;
         r_completed := 0;
         r_report := if Nat.eqb (length tasks) 0 then Some None else None;
         r_thrown := None |}
  end.

(** The removal of the [i]-th task calls back. *)
Definition remove_step (i : nat) (st : RemoveState) : RemoveState :=
  match r_thrown st, r_tasks st !! i with
  | None, Some t =>
      match rm_state t with
      | Removing =>
          let error := storage_remove env (rm_record t) in
          let (completed, report) :=
            parallel_callback (length (r_tasks st)) error
              (r_completed st) (r_report st) in
          {| r_tasks :=
               <[i := {| rm_name := rm_name t; rm_record := rm_record t;
                         rm_state := match error with
                                     | Some e => RemoveFailed e
                                     | None => Removed
                                     end |}]> (r_tasks st);
             r_trace := r_trace st ++ [EvTaskDone (rm_name t) error];
             r_completed := completed;
             r_report := report;
             r_thrown := None |}
      | _ => st
      end
  | _, _ => st
  end.

Definition run_removals (schedule : list nat) (st : RemoveState)
  : RemoveState := fold_left (fun st i => remove_step i st) schedule st.

(** [willOverwrite]: [result] is assigned anew for every name. *)
Definition willOverwrite (model : Model) : Completion bool :=
  fold_left
    (fun result name =>
       match result with
       | Threw msg => Threw msg
       | Returned _ =>
           match model !! name with
           | None => Threw "Cannot read properties of undefined"
           | Some record => Returned (url_truthy record)
           end
       end)
    (obj_keys (transforms cfg)) (Returned false).

End Remove.

(** How often [storageProvider.remove] was called on the sub-record of
    [name], and how often [storageProvider.save] was called. *)
Definition remove_calls (name : string) (trace : list Event) : nat :=
  length (List.filter (fun ev => match ev with
                           | EvRemove n _ => String.eqb n name
                           | _ => false
                           end) trace).

Definition is_save (ev : Event) : bool :=
  match ev with EvSave _ => true | _ => false end.

Definition is_set (ev : Event) : bool :=
  match ev with EvSet _ _ _ => true | _ => false end.

(** The first error a task called back with. *)
Fixpoint first_error (trace : list Event) : option Error :=
  match trace with
  | [] => None
  | EvTaskDone _ (Some e) :: _ => Some e
  | _ :: trace' => first_error trace'
  end.

Definition is_committed (u : TransformUnit) : bool :=
  match u_state u with Committed => true | _ => false end.

Definition is_failed (u : TransformUnit) : bool :=
  match u_state u with Failed _ => true | _ => false end.

(** A unit is settled in the terminal states of its state machine. *)
Definition is_settled (u : TransformUnit) : bool :=
  is_committed u || is_failed u.

(** ** Shapes of strings *)

Definition lower_hex (c : ascii) : bool :=
  existsb (Ascii.eqb c) (list_ascii_of_string "0123456789abcdef").

Fixpoint string_forallb (p : ascii -> bool) (s : string) : bool :=
  match s with
  | EmptyString => true
  | String c s' => p c && string_forallb p s'
  end.

(** [s.substring(0, 1) === '.'] *)
Definition starts_with_dot (s : string) : bool :=
  String.eqb (String.substring 0 1 s) ".".

(** [s] ends with the character [c]. *)
Fixpoint ends_with (c : ascii) (s : string) : bool :=
  match s with
  | EmptyString => false
  | String c' EmptyString => Ascii.eqb c' c
  | String _ s' => ends_with c s'
  end.

(** A unit whose output file was allocated by [process]: the unit is the
    one of its transform name, and its file is [random20 + extension]
    joined to the temporary directory. *)
Definition allocated (pf : Platform) (cfg : Settings) (attachment : Attachment)
    (u : TransformUnit) : Prop :=
  exists random20 extension : string,
    obj_get (transforms cfg) (u_name u) = Some (u_transform u)
    /\ dotted_extension (supplied_extension pf (u_transform u) attachment)
       = Returned extension
    /\ u_outputFile u
       = path_join pf (tmpDir cfg) (String.append random20 extension)
    /\ String.length random20 = 20
    /\ string_forallb lower_hex random20 = true.

(** ** Reading a trace *)

(** The stages of a unit (section 4.3). *)
Inductive Stage :=
| StConvert | StIdentify | StStat | StSniff | StStore | StCommit.

Definition stage_order : list Stage :=
  [StConvert; StIdentify; StStat; StSniff; StStore; StCommit].

(** The stage an event belongs to; the callback of the task belongs to
    none. *)
Definition stage_of (ev : Event) : option Stage :=
  match ev with
  | EvConvert _ _ _ => Some StConvert
  | EvIdentify _ => Some StIdentify
  | EvStat _ => Some StStat
  | EvDetectFile _ => Some StSniff
  | EvSave _ => Some StStore
  | EvSet _ _ _ => Some StCommit
  | EvRemove _ _ | EvTaskDone _ _ => None
  end.

(** The assignments of a commit, which follow each other, count as one
    stage; a call made twice counts twice. *)
Fixpoint collapse (l : list Stage) : list Stage :=
  match l with
  | [] => []
  | StCommit :: ((StCommit :: _) as l') => collapse l'
  | s :: l' => s :: collapse l'
  end.

Definition stages (trace : list Event) : list Stage :=
  collapse (omap stage_of trace).


Definition eight_fields : list string :=
  ["format"; "depth"; "width"; "height"; "size"; "url"; "name"; "type"].

(** The fields assigned on the sub-record [name], in the order of the
    assignments. *)
Definition written_fields (name : string) (trace : list Event) : list string :=
  flat_map (fun ev => match ev with
                      | EvSet n f _ => if String.eqb n name then [f] else []
                      | _ => []
                      end) trace.


(** The sub-record [r'] is [r] with the eight results in place. *)
Definition holds_results (attachment : Attachment) (r r' : SubRecord)
    (a : Attributes) (size : Size) (stats : Stats) (mimeType url : string)
  : Prop :=
  r' !! "format" = Some (AStr (attr_format a))
  /\ r' !! "depth" = Some (ANum (attr_depth a))
  /\ r' !! "width" = Some (ANum (size_width size))
  /\ r' !! "height" = Some (ANum (size_height size))
  /\ r' !! "size" = Some (ANum (stats_size stats))
  /\ r' !! "url" = Some (AStr url)
  /\ r' !! "name" = Some (AStr (att_name attachment))
  /\ r' !! "type" = Some (AStr mimeType)
  /\ forall field, ~ In field eight_fields -> r' !! field = r !! field.

(** The sub-record [r'] is [r] with [format] and [depth] overwritten, and
    nothing else. *)
Definition holds_format_and_depth (r r' : SubRecord) (a : Attributes)
  : Prop :=
  r' !! "format" = Some (AStr (attr_format a))
  /\ r' !! "depth" = Some (ANum (attr_depth a))
  /\ forall field, field <> "format" -> field <> "depth" ->
                   r' !! field = r !! field.

(** The five stages of a unit all succeed, with these results: the
    conversion reports no error, the output is identified with
    attributes, its size and MIME type are found, and the blob made of
    them is stored under [url]. *)
Definition stages_succeeded (env : Collaborators) (imageMagick : option bool)
    (attachment : Attachment) (u : TransformUnit)
    (a : Attributes) (stats : Stats) (mimeType url : string) : Prop :=
  gm_convert env imageMagick (att_path attachment)
    (_setUpConvertArgs (u_transform u)) (u_outputFile u) = None
  /\ gm_identify env imageMagick (u_outputFile u) = IdAttributes (Some a)
  /\ fs_stat env (u_outputFile u) = inr stats
  /\ magic_detectFile env (u_outputFile u) = inr mimeType
  /\ storage_save env {| blob_path := u_outputFile u;
                         blob_size := stats_size stats;
                         blob_type := mimeType |} = inr url.

Definition terminal (s : UnitState) : bool :=
  match s with
  | Committed | Failed _ | Crashed => true
  | _ => false
  end.

Definition mkrun (u : TransformUnit) (s : UnitState) (m : Model)
    (trace : list Event) : UnitRun :=
  {| run_unit_state := set_state u s; run_model := m; run_trace := trace |}.

(** The ways a unit can end, by the first stage that fails. *)
Inductive unit_outcome (env : Collaborators) (imageMagick : option bool)
    (attachment : Attachment) (u : TransformUnit) (m : Model)
  : UnitRun -> Prop :=
| convert_failed e :
    gm_convert env imageMagick (att_path attachment)
      (_setUpConvertArgs (u_transform u)) (u_outputFile u) = Some e ->
    unit_outcome env imageMagick attachment u m
      (mkrun u (Failed e) m
         [start_event attachment u; EvTaskDone (u_name u) (Some e)])
| identify_failed e :
    gm_convert env imageMagick (att_path attachment)
      (_setUpConvertArgs (u_transform u)) (u_outputFile u) = None ->
    gm_identify env imageMagick (u_outputFile u) = IdError e ->
    unit_outcome env imageMagick attachment u m
      (mkrun u (Failed e) m
         [start_event attachment u; EvIdentify (u_outputFile u);
          EvTaskDone (u_name u) (Some e)])
| stat_failed a e :
    gm_convert env imageMagick (att_path attachment)
      (_setUpConvertArgs (u_transform u)) (u_outputFile u) = None ->
    gm_identify env imageMagick (u_outputFile u) = IdAttributes a ->
    fs_stat env (u_outputFile u) = inl e ->
    unit_outcome env imageMagick attachment u m
      (mkrun u (Failed e) m
         [start_event attachment u; EvIdentify (u_outputFile u);
          EvStat (u_outputFile u); EvTaskDone (u_name u) (Some e)])
| sniff_failed a stats e :
    gm_convert env imageMagick (att_path attachment)
      (_setUpConvertArgs (u_transform u)) (u_outputFile u) = None ->
    gm_identify env imageMagick (u_outputFile u) = IdAttributes a ->
    fs_stat env (u_outputFile u) = inr stats ->
    magic_detectFile env (u_outputFile u) = inl e ->
    unit_outcome env imageMagick attachment u m
      (mkrun u (Failed e) m
         [start_event attachment u; EvIdentify (u_outputFile u);
          EvStat (u_outputFile u); EvDetectFile (u_outputFile u);
          EvTaskDone (u_name u) (Some e)])
| store_failed a stats mimeType e :
    gm_convert env imageMagick (att_path attachment)
      (_setUpConvertArgs (u_transform u)) (u_outputFile u) = None ->
    gm_identify env imageMagick (u_outputFile u) = IdAttributes a ->
    fs_stat env (u_outputFile u) = inr stats ->
    magic_detectFile env (u_outputFile u) = inr mimeType ->
    storage_save env {| blob_path := u_outputFile u;
                        blob_size := stats_size stats;
                        blob_type := mimeType |} = inl e ->
    unit_outcome env imageMagick attachment u m
      (mkrun u (Failed e) m
         [start_event attachment u; EvIdentify (u_outputFile u);
          EvStat (u_outputFile u); EvDetectFile (u_outputFile u);
          EvSave {| blob_path := u_outputFile u;
                    blob_size := stats_size stats;
                    blob_type := mimeType |};
          EvTaskDone (u_name u) (Some e)])
| all_passed a stats mimeType url :
    gm_convert env imageMagick (att_path attachment)
      (_setUpConvertArgs (u_transform u)) (u_outputFile u) = None ->
    gm_identify env imageMagick (u_outputFile u) = IdAttributes a ->
    fs_stat env (u_outputFile u) = inr stats ->
    magic_detectFile env (u_outputFile u) = inr mimeType ->
    storage_save env {| blob_path := u_outputFile u;
                        blob_size := stats_size stats;
                        blob_type := mimeType |} = inr url ->
    unit_outcome env imageMagick attachment u m
      (mkrun u (eff_state (final_callback attachment u m a stats mimeType url))
         (eff_model (final_callback attachment u m a stats mimeType url))
         ([start_event attachment u; EvIdentify (u_outputFile u);
           EvStat (u_outputFile u); EvDetectFile (u_outputFile u);
           EvSave {| blob_path := u_outputFile u;
                     blob_size := stats_size stats;
                     blob_type := mimeType |}]
          ++ eff_events (final_callback attachment u m a stats mimeType url))).



(** ** Reading the state of a call of process *)

Definition count_committed (units : list TransformUnit) : nat :=
  length (List.filter is_committed units).

Definition count_failed (units : list TransformUnit) : nat :=
  length (List.filter is_failed units).

(** The [format] of a transform is usable as an extension: a string, or
    absent or falsy, in which case the extension of the attachment is
    taken. *)
Definition well_typed_format (transform : TransformSpec) : bool :=
  match prop_value transform "format" with
  | Scalar (AStr _) => true
  | Scalar a => negb (atom_truthy a)
  | Arr _ => false
  end.

(** What [process] has called back with, given the first error among the
    callbacks of the tasks and the number of tasks that completed. *)
Definition expected_report (first : option Error) (completed n : nat)
  : option (option Error) :=
  match first with
  | Some e => Some (Some e)
  | None => if Nat.eqb completed n then Some None else None
  end.

(** The bookkeeping of [async.parallel] agrees with the units and the
    trace. *)
Record proc_inv (st : ProcState) : Prop := {
  inv_completed : p_completed st = count_committed (p_units st);
  inv_failed : first_error (p_trace st) = None <-> count_failed (p_units st) = 0;
  inv_report :
    p_report st
    = expected_report (first_error (p_trace st)) (p_completed st)
        (length (p_units st)) }.

(** How far a unit has come. *)
Definition stage_rank (s : UnitState) : nat :=
  match s with
  | Pending => 0
  | Converting => 1
  | Inspecting => 2
  | Stating _ => 3
  | Sniffing _ _ => 4
  | Storing _ _ _ => 5
  | Committed | Failed _ | Crashed => 6
  end.

(** [identify] describes every image in full: whenever it reports no
    error it yields attributes, and a size among them. *)
Definition identify_complete (env : Collaborators)
    (imageMagick : option bool) : Prop :=
  forall p attributes,
    gm_identify env imageMagick p = IdAttributes attributes ->
    exists a size, attributes = Some a /\ attr_size a = Some size.

(** A unit that was started, has not crashed, and carries the attributes
    and the size of its output once identified. *)
Definition on_course (s : UnitState) : bool :=
  match s with
  | Pending | Crashed => false
  | Stating a | Sniffing a _ | Storing a _ _ =>
      match a ≫= attr_size with Some _ => true | None => false end
  | Converting | Inspecting | Committed | Failed _ => true
  end.

(** Every unit is on course and has its sub-record. *)
Definition all_on_course (st : ProcState) : Prop :=
  forall u, u ∈ p_units st ->
            on_course (u_state u) = true /\ is_Some (p_model st !! u_name u).

(** The number of callbacks a schedule gives to task [i]. *)
Definition turns (i : nat) (schedule : list nat) : nat :=
  length (List.filter (Nat.eqb i) schedule).

(** The task [remove] pushes for a name, if any. *)
Definition removal_of (model : Model) (name : string) : option RemovalTask :=
  match model !! name with
  | Some record =>
      if url_truthy record
      then Some {| rm_name := name; rm_record := record; rm_state := Removing |}
      else None
  | None => None
  end.


(** ** A worked configuration

    The transforms of the package's README, a source image, and
    collaborators that succeed except where named otherwise. *)
Module Demo.

Definition small : TransformSpec :=
  [("resize", Scalar (AStr "150x150")); ("format", Scalar (AStr ".jpg"))].

Definition medium : TransformSpec :=
  [("crop", Arr [AStr "250x250"; AStr "+10+10"]); ("format", Scalar (AStr "png"))].

Definition original : TransformSpec := [].

Definition config : TransformsConfig :=
  [("original", original); ("small", small); ("medium", medium)].

Definition settings : Settings :=
  {| transforms := config; tmpDir := "/tmp"; formats := SUPPORTED_FORMATS;
     imageMagick := None |}.

Definition platform : Platform :=
  {| os_tmpdir := "/tmp";
     path_extname := fun p =>
       if String.eqb p "/uploads/cat.png" then ".png" else "";
     path_join := fun d f => String.append d (String.append "/" f);
     mkdirp_sync := fun d =>
       if String.eqb d "/dev/null/x"
       then Some "ENOTDIR: not a directory, mkdir '/dev/null/x'"
       else None |}.

Definition cat : Attachment :=
  {| att_path := "/uploads/cat.png"; att_name := "cat.png" |}.

Definition notes : Attachment :=
  {| att_path := "/uploads/notes.txt"; att_name := "notes.txt" |}.

Definition README : Attachment :=
  {| att_path := "/uploads/README"; att_name := "README" |}.

Definition missing : Attachment :=
  {| att_path := "/uploads/gone.png"; att_name := "gone.png" |}.

Definition png : Attributes :=
  {| attr_format := "PNG"; attr_depth := 8;
     attr_size := Some {| size_width := 640; size_height := 480 |} |}.

Definition enoent : Error := {| message := "ENOENT" |}.
Definition disk_full : Error := {| message := "disk full" |}.

(** Every image is a PNG, [notes.txt] is plain text, [gone.png] does not
    exist. *)
Definition identify (imageMagick : option bool) (p : string)
  : IdentifyOutcome :=
  if String.eqb p "/uploads/gone.png" then IdError enoent
  else if String.eqb p "/uploads/notes.txt"
       then IdAttributes
              (Some {| attr_format := "TXT"; attr_depth := 8;
                       attr_size := Some {| size_width := 0;
                                            size_height := 0 |} |})
       else IdAttributes (Some png).

Definition collaborators : Collaborators :=
  {| gm_identify := identify;
     gm_convert := fun _ _ _ _ => None;
     fs_stat := fun _ => inr {| stats_size := 1024 |};
     magic_detectFile := fun _ => inr "image/png";
     storage_save := fun b => inr (String.append "s3:/" (blob_path b));
     storage_remove := fun _ => None |}.

(** The same, but the storage provider refuses every blob. *)
Definition full_storage : Collaborators :=
  {| gm_identify := identify;
     gm_convert := fun _ _ _ _ => None;
     fs_stat := fun _ => inr {| stats_size := 1024 |};
     magic_detectFile := fun _ => inr "image/png";
     storage_save := fun _ => inl disk_full;
     storage_remove := fun _ => None |}.

Definition entropy : Entropy :=
  {| stream := fun i => default x00 (Byte.of_nat (Nat.modulo (37 * i + 11) 256));
     cursor := 0 |}.

Definition stored : SubRecord := {[ "url" := AStr "s3://bucket/old.jpg" ]}.

(** A model with an empty sub-record per transform. *)
Definition model : Model :=
  {[ "original" := ∅; "small" := ∅; "medium" := ∅ ]}.

(** A model in which only [small] has been stored. *)
Definition model_small_stored : Model :=
  {[ "original" := ∅; "small" := stored; "medium" := ∅ ]}.

(** A transform that asks for an empty extension, and options with an
    empty temporary directory. *)
Definition bare : TransformSpec :=
  [("resize", Scalar (AStr "64x64")); ("format", Scalar (AStr ""))].

Definition bare_settings : Settings :=
  {| transforms := [("bare", bare)]; tmpDir := "/tmp";
     formats := SUPPORTED_FORMATS; imageMagick := None |}.

Definition empty_tmpDir : Options :=
  {| opt_transforms := Some config; opt_tmpDir := Some "";
     opt_formats := Some ["PNG"]; opt_imageMagick := None |}.

(** The tasks [process] sets up for [small] on [cat], and for [original]
    on [README]. *)
Definition unit_small : TransformUnit :=
  {| u_name := "small"; u_transform := small;
     u_outputFile := "/tmp/7da2c7ec11365b80a5ca.jpg";
     u_state := Converting |}.

Definition unit_original : TransformUnit :=
  {| u_name := "original"; u_transform := original;
     u_outputFile := "/tmp/0b30557a9fc4e90e3358.";
     u_state := Converting |}.

End Demo.

(** ** Tactics *)



(** ** Further vocabulary *)

(** The value of a hexadecimal digit, and [Buffer.from(s, 'hex')] on the
    strings [toString_hex] produces. *)
Definition hex_value (c : ascii) : N :=
  match c with
  | "0" => 0 | "1" => 1 | "2" => 2 | "3" => 3 | "4" => 4 | "5" => 5
  | "6" => 6 | "7" => 7 | "8" => 8 | "9" => 9 | "a" => 10 | "b" => 11
  | "c" => 12 | "d" => 13 | "e" => 14 | "f" => 15 | _ => 0
  end%char%N.

Fixpoint from_hex (s : string) : list byte :=
  match s with
  | String hi (String lo s') =>
      default x00 (Byte.of_N (16 * hex_value hi + hex_value lo)) :: from_hex s'
  | _ => []
  end.

(** The scalars an option value contributes to the argument list. *)
Definition value_atoms (v : Value) : list Atom :=
  match v with
  | Scalar a => [a]
  | Arr l => l
  end.

(** The transform without its [format] entry. *)
Definition without_format (transform : TransformSpec) : TransformSpec :=
  List.filter (fun kv => negb (String.eqb (fst kv) "format")) transform.

(** ** Further configurations *)
Module Scenario.

(** No transform at all. *)
Definition idle_settings : Settings :=
  {| transforms := []; tmpDir := "/tmp"; formats := SUPPORTED_FORMATS;
     imageMagick := None |}.

(** A transform whose [format] is a list, after one that is in order. *)
Definition listed : TransformSpec :=
  [("resize", Scalar (AStr "64x64")); ("format", Arr [AStr "png"])].

Definition broken_settings : Settings :=
  {| transforms := [("small", Demo.small); ("listed", listed)];
     tmpDir := "/tmp"; formats := SUPPORTED_FORMATS; imageMagick := None |}.

(** Collaborators that never report an error. *)
Definition reliable : Collaborators :=
  {| gm_identify := fun _ _ => IdAttributes (Some Demo.png);
     gm_convert := fun _ _ _ _ => None;
     fs_stat := fun _ => inr {| stats_size := 1024 |};
     magic_detectFile := fun _ => inr "image/png";
     storage_save := fun b => inr (String.append "s3:/" (blob_path b));
     storage_remove := fun _ => None |}.

(** A storage provider that cannot remove anything. *)
Definition read_only : Collaborators :=
  {| gm_identify := fun _ _ => IdAttributes (Some Demo.png);
     gm_convert := fun _ _ _ _ => None;
     fs_stat := fun _ => inr {| stats_size := 1024 |};
     magic_detectFile := fun _ => inr "image/png";
     storage_save := fun b => inr (String.append "s3:/" (blob_path b));
     storage_remove := fun _ => Some {| message := "read only" |} |}.

(** A model that lacks the sub-record of [medium]. *)
Definition model_without_medium : Model :=
  {[ "original" := ∅; "small" := Demo.stored ]}.

(** A model that lacks the sub-record of [original], the first name, and
    in which [medium], the last one, is stored. *)
Definition model_without_original : Model :=
  {[ "small" := ∅; "medium" := Demo.stored ]}.

(** An image in whose description gm finds no geometry, and collaborators
    for which every image is one. *)
Definition flat : Attributes :=
  {| attr_format := "PNG"; attr_depth := 8; attr_size := None |}.

Definition no_geometry : Collaborators :=
  {| gm_identify := fun _ _ => IdAttributes (Some flat);
     gm_convert := fun _ _ _ _ => None;
     fs_stat := fun _ => inr {| stats_size := 1024 |};
     magic_detectFile := fun _ => inr "image/png";
     storage_save := fun b => inr (String.append "s3:/" (blob_path b));
     storage_remove := fun _ => None |}.


(** A sub-record that already holds a field of its own. *)
Definition labelled : SubRecord := {[ "label" := AStr "cover" ]}.

(** The bytes of [Demo.entropy], found seven positions further on in
    another stream. *)
Definition shifted : Entropy :=
  {| stream := fun i => stream Demo.entropy (i - 7); cursor := 7 |}.


(** A transform whose [format] is zero. *)
Definition zeroed_settings : Settings :=
  {| transforms :=
       [("zeroed", [("resize", Scalar (AStr "64x64"));
                    ("format", Scalar (ANum 0))])];
     tmpDir := "/tmp"; formats := SUPPORTED_FORMATS; imageMagick := None |}.

(** Options that follow a resize in a transform. *)
Definition finish : TransformSpec :=
  [("quality", Scalar (ANum 80)); ("gravity", Arr [AStr "Center"])].

(** Options whose temporary directory cannot be created. *)
Definition unwritable : Options :=
  {| opt_transforms := Some Demo.config; opt_tmpDir := Some "/dev/null/x";
     opt_formats := None; opt_imageMagick := None |}.

End Scenario.

(** The values a unit carries are the ones the collaborators answered
    with. *)
Definition consistent (env : Collaborators) (imageMagick : option bool)
    (attachment : Attachment) (u : TransformUnit) : Prop :=
  let out := u_outputFile u in
  let converted :=
    gm_convert env imageMagick (att_path attachment)
      (_setUpConvertArgs (u_transform u)) out = None in
  match u_state u with
  | Pending | Converting | Failed _ | Crashed => True
  | Inspecting => converted
  | Stating a => converted /\ gm_identify env imageMagick out = IdAttributes a
  | Sniffing a stats =>
      converted /\ gm_identify env imageMagick out = IdAttributes a
      /\ fs_stat env out = inr stats
  | Storing a stats mimeType =>
      converted /\ gm_identify env imageMagick out = IdAttributes a
      /\ fs_stat env out = inr stats
      /\ magic_detectFile env out = inr mimeType
  | Committed =>
      exists a stats mimeType url,
        stages_succeeded env imageMagick attachment u a stats mimeType url
  end.

(** The sub-record of a unit in the model [m], against the model [m0]
    that [process] was given: the results of the stages once the unit is
    committed; what it was before, or that with [format] and [depth]
    overwritten, when the final callback threw; and what it was before
    in every other state. *)
Definition record_of_unit (env : Collaborators) (imageMagick : option bool)
    (attachment : Attachment) (m0 m : Model) (u : TransformUnit) : Prop :=
  match u_state u with
  | Committed =>
      exists r r' a size stats mimeType url,
        m0 !! u_name u = Some r
        /\ stages_succeeded env imageMagick attachment u a stats mimeType url
        /\ attr_size a = Some size
        /\ m !! u_name u = Some r'
        /\ holds_results attachment r r' a size stats mimeType url
  | Crashed =>
      ((m0 !! u_name u = None
        \/ gm_identify env imageMagick (u_outputFile u) = IdAttributes None)
       /\ m !! u_name u = m0 !! u_name u)
      \/ exists r r' a stats mimeType url,
           m0 !! u_name u = Some r
           /\ stages_succeeded env imageMagick attachment u a stats mimeType url
           /\ attr_size a = None
           /\ m !! u_name u = Some r'
           /\ holds_format_and_depth r r' a
  | _ => m !! u_name u = m0 !! u_name u
  end.

(** What holds of the model throughout a call of [process]. *)
Record model_inv (env : Collaborators) (imageMagick : option bool)
    (attachment : Attachment) (m0 : Model) (st : ProcState) : Prop := {
  inv_names : NoDup (map u_name (p_units st));
  inv_frame : forall k, ~ In k (map u_name (p_units st)) ->
                        p_model st !! k = m0 !! k;
  inv_units : forall u, u ∈ p_units st ->
                consistent env imageMagick attachment u
                /\ record_of_unit env imageMagick attachment m0 (p_model st) u }.


(** The conversions into the file [out], the blobs of that file handed to
    the storage provider, and the units that write to it. *)
Definition converts_to (out : string) (ev : Event) : bool :=
  match ev with EvConvert _ _ o => String.eqb o out | _ => false end.

Definition saves_of (out : string) (ev : Event) : bool :=
  match ev with EvSave b => String.eqb (blob_path b) out | _ => false end.


(** The collaborators never report an error, and [identify] always yields
    attributes. *)
Definition never_fails (env : Collaborators) (imageMagick : option bool)
  : Prop :=
  (forall src args out, gm_convert env imageMagick src args out = None)
  /\ (forall p, exists a, gm_identify env imageMagick p = IdAttributes (Some a))
  /\ (forall p, exists stats, fs_stat env p = inr stats)
  /\ (forall p, exists mimeType, magic_detectFile env p = inr mimeType)
  /\ (forall b, exists url, storage_save env b = inr url).

Definition is_removed (t : RemovalTask) : bool :=
  match rm_state t with Removed => true | _ => false end.

Definition is_remove_failed (t : RemovalTask) : bool :=
  match rm_state t with RemoveFailed _ => true | _ => false end.

Definition is_removing (t : RemovalTask) : bool :=
  match rm_state t with Removing => true | _ => false end.

(** The bookkeeping of [async.parallel] in [remove] agrees with the tasks
    and the trace. *)
Record remove_inv (st : RemoveState) : Prop := {
  rinv_started : r_thrown st = None;
  rinv_completed :
    r_completed st = length (List.filter is_removed (r_tasks st));
  rinv_failed :
    first_error (r_trace st) = None
    <-> length (List.filter is_remove_failed (r_tasks st)) = 0;
  rinv_report :
    r_report st
    = expected_report (first_error (r_trace st)) (r_completed st)
        (length (r_tasks st)) }.

(** A unit whose output has been handed to [storageProvider.save] and was
    not refused. *)
Definition stored_out (u : TransformUnit) : bool :=
  match u_state u with
  | Storing _ _ _ | Committed | Crashed => true
  | _ => false
  end.

Definition is_started (u : TransformUnit) : bool :=
  match u_state u with Pending => false | _ => true end.

(** ** createFieldSchema *)

(** The constructors a schema declares a field with. *)
Inductive SchemaType :=
| TString
| TNumber
| TOther (constructor : string).

Abbreviation FieldSchema := (gmap string SchemaType).

(** The four assignments [output[name].format = String] ...
    [output[name].height = Number], in source order. *)
Definition image_fields (field : FieldSchema) : FieldSchema :=
  <["height" := TNumber]>
    (<["width" := TNumber]>
       (<["depth" := TNumber]>
          (<["format" := TString]> field))).

(** [createFieldSchema]: [base] is what the call of
    [FileProcessor.prototype.createFieldSchema] returns. *)
Definition createFieldSchema (base : FieldSchema) (cfg : Settings)
  : gmap string FieldSchema :=
  fold_left (fun output name => <[name := image_fields base]> output)
    (obj_keys (transforms cfg)) ∅.

Definition image_field_names : list string :=
  ["format"; "depth"; "width"; "height"].


(** * Properties *)

(** ** The argument list *)

Lemma fold_push {A} (l args : list A) : fold_left push l args = args ++ l.
Proof.
  revert args. induction l as [|x l IH]; intros args; simpl.
  - by rewrite app_nil_r.
  - rewrite IH. unfold push. by rewrite <- app_assoc.
Qed.

Lemma obj_get_entry {V} (pre suf : JsObject V) (k : string) (v : V) :
  obj_wf (pre ++ (k, v) :: suf) -> obj_get (pre ++ (k, v) :: suf) k = Some v.
Proof.
  unfold obj_wf, obj_keys. induction pre as [|[k' v'] pre IH]; simpl.
  - by rewrite String.eqb_refl.
  - intros Hnd. apply NoDup_cons in Hnd as [Hk' Hnd].
    destruct (String.eqb_spec k' k) as [->|_]; [|auto].
    exfalso. apply Hk'. rewrite map_app. simpl. set_solver.
Qed.

(** The loop of [_setUpConvertArgs] from any position of the object on. *)
Lemma convert_args_from (t pre suf : TransformSpec) (args : list Atom) :
  t = pre ++ suf -> obj_wf t ->
  fold_left
    (fun args arg =>
       if String.eqb arg "format" then args
       else
         let args := push args (AStr (String.append "-" arg)) in
         match prop_value t arg with
         | Arr l => fold_left push l args
         | Scalar a => push args a
         end)
    (obj_keys suf) args
  = args ++ ConvertArgsBuilder_spec suf.
Proof.
  revert pre args. induction suf as [|[k v] suf IH]; intros pre args Ht Hwf.
  - simpl. by rewrite app_nil_r.
  - simpl. unfold ConvertArgsBuilder_spec. simpl.
    fold (ConvertArgsBuilder_spec suf).
    rewrite (IH (pre ++ [(k, v)])); [|by rewrite <- app_assoc|done].
    unfold spec_entry_tokens. simpl.
    destruct (String.eqb k "format"); [done|].
    unfold prop_value. rewrite Ht, (obj_get_entry pre suf k v) by (by rewrite <- Ht).
    destruct v as [a|l]; rewrite ?fold_push; unfold push;
      rewrite <- ?app_assoc; reflexivity.
Qed.

(** C4. On every transform (an object, so its keys are distinct) the
    argument list built by [_setUpConvertArgs] is, entry after entry in key
    order, nothing for the key [format] and otherwise the key prefixed
    with one dash followed by the scalar value or by the elements of the
    list in their order. *)
Theorem setUpConvertArgs_spec (transform : TransformSpec) :
  obj_wf transform ->
  _setUpConvertArgs transform = ConvertArgsBuilder_spec transform.
Proof.
  intros Hwf.
  exact (convert_args_from transform [] transform [] eq_refl Hwf).
Qed.

Lemma setUpConvertArgs_spec_witness :
  obj_wf Demo.medium /\
  _setUpConvertArgs Demo.medium = ConvertArgsBuilder_spec Demo.medium.
Proof.
  assert (Hwf : obj_wf Demo.medium).
  { apply (bool_decide_unpack _). vm_compute. reflexivity. }
  split; [exact Hwf | exact (setUpConvertArgs_spec Demo.medium Hwf)].
Defined.

(** ** Temporary file names *)

Lemma hex_digit_lower (n : N) : lower_hex (hex_digit n) = true.
Proof.
  destruct n as [|p]; [reflexivity|].
  do 4 (try destruct p as [p|p|]; try reflexivity).
Qed.

Lemma toString_hex_length (bs : list byte) :
  String.length (toString_hex bs) = 2 * length bs.
Proof. induction bs as [|b bs IH]; simpl; [done | rewrite IH; lia]. Qed.

Lemma toString_hex_lower (bs : list byte) :
  string_forallb lower_hex (toString_hex bs) = true.
Proof.
  induction bs as [|b bs IH]; simpl; [done|].
  by rewrite !hex_digit_lower, IH.
Qed.

Lemma slice0_length (s : string) (n : nat) :
  n <= String.length s -> String.length (slice0 s n) = n.
Proof.
  unfold slice0. revert s. induction n as [|n IH]; intros s Hn.
  - by destruct s.
  - destruct s as [|c s]; simpl in *; [lia|]. rewrite IH; lia.
Qed.

Lemma slice0_forall (p : ascii -> bool) (s : string) (n : nat) :
  string_forallb p s = true -> string_forallb p (slice0 s n) = true.
Proof.
  unfold slice0. revert s. induction n as [|n IH]; intros s Hs.
  - by destruct s.
  - destruct s as [|c s]; simpl in *; [done|].
    apply andb_prop in Hs as [-> Hs]. by rewrite IH.
Qed.

Lemma randomBytes_length (n : nat) (g : Entropy) :
  length (randomBytes n g).1 = n.
Proof. unfold randomBytes. simpl. by rewrite length_map, length_seq. Qed.

Lemma ceil_half_covers (len : nat) : len <= 2 * ceil_half len.
Proof.
  unfold ceil_half.
  pose proof (Nat.div_mod_eq (len + 1) 2) as Hd.
  pose proof (Nat.mod_upper_bound (len + 1) 2). lia.
Qed.

(** [randomString(length)] is [length] lowercase hexadecimal digits. *)
Lemma randomString_shape (len : nat) (g : Entropy) :
  String.length (randomString len g).1 = len
  /\ string_forallb lower_hex (randomString len g).1 = true.
Proof.
  unfold randomString.
  destruct (randomBytes (ceil_half len) g) as [bytes g'] eqn:Hb. simpl.
  assert (Hlen : length bytes = ceil_half len).
  { by rewrite <- (randomBytes_length (ceil_half len) g), Hb. }
  split.
  - apply slice0_length. rewrite toString_hex_length, Hlen.
    apply ceil_half_covers.
  - apply slice0_forall, toString_hex_lower.
Qed.

Lemma dotted_extension_dot (v : Value) (extension : string) :
  dotted_extension v = Returned extension ->
  starts_with_dot extension = true.
Proof.
  destruct v as [[s| | |]|]; simpl; try discriminate.
  intros [= <-]. fold (starts_with_dot s).
  destruct (starts_with_dot s) eqn:Hs; [done|].
  unfold starts_with_dot. by destruct s.
Qed.

Lemma push_tasks_allocated (pf : Platform) (cfg : Settings)
    (attachment : Attachment) (names : list string) (g : Entropy)
    (tasks : list TransformUnit) :
  Forall (allocated pf cfg attachment) tasks ->
  Forall (allocated pf cfg attachment)
    (push_tasks pf cfg attachment names g tasks).1.
Proof.
  revert g tasks. induction names as [|name names IH]; intros g tasks Htasks;
    cbn [push_tasks]; [done|].
  destruct (obj_get (transforms cfg) name) as [transform|] eqn:Hget; [|done].
  destruct (dotted_extension _) as [extension|msg] eqn:Hext; [|done].
  destruct (randomString 20 g) as [random20 g'] eqn:Hrand.
  apply IH. unfold push. apply Forall_app; split; [done|].
  apply Forall_singleton. exists random20, extension. simpl.
  pose proof (randomString_shape 20 g) as [Hlen Hhex].
  rewrite Hrand in Hlen, Hhex. simpl in Hlen, Hhex.
  repeat split; assumption || reflexivity.
Qed.

Lemma allocated_set_state (pf : Platform) (cfg : Settings)
    (attachment : Attachment) (u : TransformUnit) (s : UnitState) :
  allocated pf cfg attachment u -> allocated pf cfg attachment (set_state u s).
Proof. done. Qed.

(** Every task of a call of [process] was allocated by it. *)
Lemma process_units_allocated (env : Collaborators) (pf : Platform)
    (cfg : Settings) (attachment : Attachment) (model : Model) (g : Entropy) :
  Forall (allocated pf cfg attachment)
    (p_units (process env pf cfg attachment model g)).
Proof.
  unfold process.
  destruct (gm_identify _ _ _) as [e|attributes]; [by constructor|].
  destruct (unsupported cfg attributes); [by constructor|].
  pose proof (push_tasks_allocated pf cfg attachment
                (obj_keys (transforms cfg)) g [] (Forall_nil_2 _)) as Hall.
  destruct (push_tasks _ _ _ _ _ _) as [tasks [msg|]]; simpl in *; [done|].
  apply Forall_fmap. eapply Forall_impl; [exact Hall|].
  intros u Hu. by apply allocated_set_state.
Qed.

(** C8, as the code has it.  The output file of every unit of a call of
    [process] is [path.join(tmpDir, random20 + extension)]: [random20] is
    20 lowercase hexadecimal digits; the supplied extension is the
    transform's [format] when that is truthy, which for a unit means a
    non-empty string, and the extension of the attachment's path when
    the [format] is absent or falsy (undefined, the empty string, zero,
    false); [extension] is the supplied one when that begins with a dot
    and the supplied one behind a dot otherwise, so that it always begins
    with a dot. *)
Theorem output_file_form (env : Collaborators) (pf : Platform)
    (cfg : Settings) (attachment : Attachment) (model : Model) (g : Entropy)
    (u : TransformUnit) :
  u ∈ p_units (process env pf cfg attachment model g) ->
  exists random20 supplied extension : string,
    u_outputFile u
    = path_join pf (tmpDir cfg) (String.append random20 extension)
    /\ String.length random20 = 20
    /\ string_forallb lower_hex random20 = true
    /\ match obj_get (u_transform u) "format" with
       | Some (Scalar (AStr f)) =>
           supplied = if String.eqb f ""
                      then path_extname pf (att_path attachment) else f
       | Some (Scalar (ANum n)) =>
           n = 0%Z /\ supplied = path_extname pf (att_path attachment)
       | Some (Scalar (ABool b)) =>
           b = false /\ supplied = path_extname pf (att_path attachment)
       | Some (Scalar AUndefined) | None =>
           supplied = path_extname pf (att_path attachment)
       | Some (Arr _) => False
       end
    /\ extension = (if starts_with_dot supplied then supplied
                    else String.append "." supplied)
    /\ starts_with_dot extension = true.
Proof.
  intros Hu.
  pose proof (process_units_allocated env pf cfg attachment model g) as Hall.
  rewrite Forall_forall in Hall.
  destruct (Hall u Hu) as (random20 & extension & _ & Hext & Hout & Hlen & Hhex).
  pose proof (dotted_extension_dot _ _ Hext) as Hdot.
  destruct (supplied_extension pf (u_transform u) attachment)
    as [[supplied| | |]|] eqn:Hsup; simpl in Hext; try discriminate.
  injection Hext as Hext.
  exists random20, supplied, extension.
  do 3 (split; [done|]). split; [|done].
  unfold supplied_extension, prop_value in Hsup.
  destruct (obj_get (u_transform u) "format") as [[[f|n|b|]|l]|];
    simpl in Hsup.
  - destruct (String.eqb f ""); simpl in Hsup; congruence.
  - destruct (Z.eqb_spec n 0); simpl in Hsup; [split; congruence | done].
  - destruct b; simpl in Hsup; [done | split; congruence].
  - congruence.
  - done.
  - congruence.
Qed.

(** C10. A unit whose transform has no [format] key, for an attachment
    whose path has no extension, gets the extension ["."]: its file name is
    the 20 random digits followed by a bare dot. *)
Theorem bare_dot_extension (env : Collaborators) (pf : Platform)
    (cfg : Settings) (attachment : Attachment) (model : Model) (g : Entropy)
    (u : TransformUnit) :
  u ∈ p_units (process env pf cfg attachment model g) ->
  obj_get (u_transform u) "format" = None ->
  path_extname pf (att_path attachment) = "" ->
  dotted_extension (supplied_extension pf (u_transform u) attachment)
  = Returned "."
  /\ exists random20 : string,
       String.length random20 = 20
       /\ u_outputFile u
          = path_join pf (tmpDir cfg) (String.append random20 ".")
       /\ ends_with "." (String.append random20 ".") = true.
Proof.
  intros Hu Hformat Hextname.
  pose proof (process_units_allocated env pf cfg attachment model g) as Hall.
  rewrite Forall_forall in Hall.
  destruct (Hall u Hu) as (random20 & extension & _ & Hext & Hout & Hlen & _).
  assert (Hdot : dotted_extension
                   (supplied_extension pf (u_transform u) attachment)
                 = Returned ".").
  { unfold supplied_extension, prop_value. by rewrite Hformat, Hextname. }
  split; [exact Hdot|].
  rewrite Hdot in Hext. injection Hext as <-.
  exists random20. repeat split; try done.
  clear. induction random20 as [|c s IH]; [done|].
  simpl. destruct (String.append s ".") eqn:Hs; [by destruct s | exact IH].
Qed.

Lemma output_file_form_witness :
  Demo.unit_small
  ∈ p_units (process Demo.collaborators Demo.platform Demo.settings Demo.cat
               Demo.model Demo.entropy)
  /\ exists random20 supplied extension : string,
       u_outputFile Demo.unit_small
       = path_join Demo.platform (tmpDir Demo.settings)
           (String.append random20 extension)
       /\ String.length random20 = 20
       /\ string_forallb lower_hex random20 = true
       /\ match obj_get (u_transform Demo.unit_small) "format" with
          | Some (Scalar (AStr f)) =>
              supplied = if String.eqb f ""
                         then path_extname Demo.platform (att_path Demo.cat)
                         else f
          | Some (Scalar (ANum n)) =>
              n = 0%Z
              /\ supplied = path_extname Demo.platform (att_path Demo.cat)
          | Some (Scalar (ABool b)) =>
              b = false
              /\ supplied = path_extname Demo.platform (att_path Demo.cat)
          | Some (Scalar AUndefined) | None =>
              supplied = path_extname Demo.platform (att_path Demo.cat)
          | Some (Arr _) => False
          end
       /\ extension = (if starts_with_dot supplied then supplied
                       else String.append "." supplied)
       /\ starts_with_dot extension = true.
Proof.
  assert (Hu : Demo.unit_small
               ∈ p_units (process Demo.collaborators Demo.platform
                            Demo.settings Demo.cat Demo.model Demo.entropy)).
  { apply list_elem_of_In. vm_compute. right. left. reflexivity. }
  split; [exact Hu|].
  exact (output_file_form Demo.collaborators Demo.platform Demo.settings
           Demo.cat Demo.model Demo.entropy Demo.unit_small Hu).
Defined.

Lemma bare_dot_extension_witness :
  Demo.unit_original
  ∈ p_units (process Demo.collaborators Demo.platform Demo.settings
               Demo.README Demo.model Demo.entropy)
  /\ obj_get (u_transform Demo.unit_original) "format" = None
  /\ path_extname Demo.platform (att_path Demo.README) = ""
  /\ dotted_extension
       (supplied_extension Demo.platform (u_transform Demo.unit_original)
          Demo.README)
     = Returned "."
  /\ exists random20 : string,
       String.length random20 = 20
       /\ u_outputFile Demo.unit_original
          = path_join Demo.platform (tmpDir Demo.settings)
              (String.append random20 ".")
       /\ ends_with "." (String.append random20 ".") = true.
Proof.
  assert (Hu : Demo.unit_original
               ∈ p_units (process Demo.collaborators Demo.platform
                            Demo.settings Demo.README Demo.model Demo.entropy)).
  { apply list_elem_of_In. vm_compute. left. reflexivity. }
  split; [exact Hu|]. split; [reflexivity|]. split; [reflexivity|].
  exact (bare_dot_extension Demo.collaborators Demo.platform Demo.settings
           Demo.README Demo.model Demo.entropy Demo.unit_original Hu
           eq_refl eq_refl).
Defined.

(** C8 as worded fails for a [format] that is present but empty: the
    extension is then the one of the attachment, [".png"], not the empty
    format behind a dot. *)
Lemma empty_format_is_ignored :
  let st := process Demo.collaborators Demo.platform Demo.bare_settings
              Demo.cat Demo.model Demo.entropy in
  exists u : TransformUnit,
    p_units st = [u]
    /\ obj_get (u_transform u) "format" = Some (Scalar (AStr ""))
    /\ dotted_extension (Scalar (AStr "")) = Returned "."
    /\ u_outputFile u
       = path_join Demo.platform "/tmp"
           (String.append "0b30557a9fc4e90e3358" ".png")
    /\ u_outputFile u
       <> path_join Demo.platform "/tmp"
            (String.append "0b30557a9fc4e90e3358" ".").
Proof.
  eexists. split; [vm_compute; reflexivity|].
  repeat split. discriminate.
Qed.

(** A [format] that is falsy without being a string is ignored as well:
    with [format: 0] the extension is the one of the attachment. *)
Example zero_format_is_ignored :
  map u_outputFile
    (p_units (process Demo.collaborators Demo.platform
                Scenario.zeroed_settings Demo.cat Demo.model Demo.entropy))
  = ["/tmp/0b30557a9fc4e90e3358.png"].
Proof. reflexivity. Qed.

(** ** A rejected source *)

Lemma run_schedule_no_units (env : Collaborators) (cfg : Settings)
    (attachment : Attachment) (schedule : list nat) (st : ProcState) :
  p_units st = [] -> run_schedule env cfg attachment schedule st = st.
Proof.
  intros Hnil. unfold run_schedule.
  induction schedule as [|i schedule IH]; simpl; [done|].
  unfold proc_step at 2. by rewrite Hnil.
Qed.

(** C1, as the code has it.  When the source is rejected, [process] calls
    back with an error, whatever happens later: the error of the engine
    itself when [identify] fails, and the error ['File was not an image']
    when [identify] yields no attributes or a format outside the
    configured formats.  No task exists, nothing but the [identify] of the
    source was called (so [save] never is), and the model is untouched. *)
Theorem process_rejects_source (env : Collaborators) (pf : Platform)
    (cfg : Settings) (attachment : Attachment) (model : Model) (g : Entropy)
    (schedule : list nat) (error : Error) :
  gm_identify env (imageMagick cfg) (att_path attachment) = IdError error
  \/ (error = not_an_image
      /\ (gm_identify env (imageMagick cfg) (att_path attachment)
          = IdAttributes None
          \/ exists a,
               gm_identify env (imageMagick cfg) (att_path attachment)
               = IdAttributes (Some a)
               /\ ~ In (attr_format a) (formats cfg))) ->
  let st := run_schedule env cfg attachment schedule
              (process env pf cfg attachment model g) in
  p_report st = Some (Some error)
  /\ p_units st = []
  /\ p_trace st = [EvIdentify (att_path attachment)]
  /\ List.filter is_save (p_trace st) = []
  /\ p_model st = model.
Proof.
  intros Hrejected st.
  assert (Hst : process env pf cfg attachment model g
                = called_back model [EvIdentify (att_path attachment)]
                    (Some error)).
  { unfold process.
    destruct Hrejected as [-> | [-> [-> | (a & -> & Hout)]]]; [done..|].
    unfold unsupported.
    destruct (existsb _ (formats cfg)) eqn:Hin; [|done].
    apply existsb_exists in Hin as (f & Hf & Heq).
    apply String.eqb_eq in Heq. by subst f. }
  subst st. rewrite Hst, run_schedule_no_units by done. by simpl.
Qed.

Lemma process_rejects_source_witness :
  (gm_identify Demo.collaborators (imageMagick Demo.settings)
     (att_path Demo.notes) = IdError not_an_image
   \/ (not_an_image = not_an_image
       /\ (gm_identify Demo.collaborators (imageMagick Demo.settings)
             (att_path Demo.notes) = IdAttributes None
           \/ exists a,
                gm_identify Demo.collaborators (imageMagick Demo.settings)
                  (att_path Demo.notes) = IdAttributes (Some a)
                /\ ~ In (attr_format a) (formats Demo.settings))))
  /\ let st := run_schedule Demo.collaborators Demo.settings Demo.notes [0; 1]
                 (process Demo.collaborators Demo.platform Demo.settings
                    Demo.notes Demo.model Demo.entropy) in
     p_report st = Some (Some not_an_image)
     /\ p_units st = []
     /\ p_trace st = [EvIdentify (att_path Demo.notes)]
     /\ List.filter is_save (p_trace st) = []
     /\ p_model st = Demo.model.
Proof.
  assert (Hrejected :
    gm_identify Demo.collaborators (imageMagick Demo.settings)
      (att_path Demo.notes) = IdError not_an_image
    \/ (not_an_image = not_an_image
        /\ (gm_identify Demo.collaborators (imageMagick Demo.settings)
              (att_path Demo.notes) = IdAttributes None
            \/ exists a,
                 gm_identify Demo.collaborators (imageMagick Demo.settings)
                   (att_path Demo.notes) = IdAttributes (Some a)
                 /\ ~ In (attr_format a) (formats Demo.settings)))).
  { right. split; [reflexivity|]. right. eexists. split; [reflexivity|].
    vm_compute. intros H. decompose [or] H; discriminate || assumption. }
  split; [exact Hrejected|].
  exact (process_rejects_source Demo.collaborators Demo.platform Demo.settings
           Demo.notes Demo.model Demo.entropy [0; 1] not_an_image Hrejected).
Defined.

(** C1 as worded fails where [identify] itself fails: the source
    [gone.png] cannot be identified, and [process] calls back with the error
    of the engine, not with ['File was not an image']. *)
Lemma identify_error_is_forwarded :
  gm_identify Demo.collaborators (imageMagick Demo.settings)
    (att_path Demo.missing) = IdError Demo.enoent
  /\ p_report (process Demo.collaborators Demo.platform Demo.settings
                 Demo.missing Demo.model Demo.entropy)
     = Some (Some Demo.enoent)
  /\ p_report (process Demo.collaborators Demo.platform Demo.settings
                 Demo.missing Demo.model Demo.entropy)
     <> Some (Some not_an_image).
Proof. repeat split. discriminate. Qed.

(** ** The constructor *)

(** The constructor on an options object that has transforms, in closed
    form. *)
Lemma constructor_on_options (pf : Platform) (options : nat) (h : Heap)
    (o : Options) (t : TransformsConfig) :
  h !! options = Some o ->
  opt_transforms o = Some t ->
  constructor pf options h
  = (match mkdirp_sync pf (if tmpDir_falsy o then os_tmpdir pf
                           else default "" (opt_tmpDir o)) with
     | None =>
         Returned {| c_this := {| _options := options |};
                     c_mkdirp := if tmpDir_falsy o then os_tmpdir pf
                                 else default "" (opt_tmpDir o) |}
     | Some msg => Threw msg
     end,
     <[options :=
         {| opt_transforms := Some t;
            opt_tmpDir := if tmpDir_falsy o then Some (os_tmpdir pf)
                          else opt_tmpDir o;
            opt_formats := if formats_falsy o then Some SUPPORTED_FORMATS
                           else opt_formats o;
            opt_imageMagick := opt_imageMagick o |}]> h).
Proof.
  intros Hh Ht. unfold constructor. rewrite Hh, Ht. cbn [_options].
  destruct o as [tr d f im]. simpl in Ht. subst tr.
  unfold tmpDir_falsy, formats_falsy, set_tmpDir, set_formats. simpl.
  destruct d as [d|]; [destruct (String.eqb d "")|]; destruct f; simpl;
    rewrite insert_insert_eq; by destruct (mkdirp_sync pf _).
Qed.

(** C9, as the code has it.  The constructor fills in the object behind
    the reference it is given: a [tmpDir] that is undefined or empty
    becomes the system's temporary directory, missing [formats] become
    the default list, and every other field and object is left as it was;
    options with a non-empty [tmpDir] and with [formats] are unchanged.
    It then hands the directory to [mkdirp.sync]: when that returns, the
    processor keeps the caller's reference; when that throws, the
    exception leaves the constructor, and the caller's object keeps what
    was written. *)
Theorem constructor_fills_options_in_place (pf : Platform) (options : nat)
    (h : Heap) (o : Options) (t : TransformsConfig) :
  h !! options = Some o ->
  opt_transforms o = Some t ->
  let dir := if tmpDir_falsy o then os_tmpdir pf
             else default "" (opt_tmpDir o) in
  let h' := (constructor pf options h).2 in
  h' !! options
  = Some {| opt_transforms := Some t;
            opt_tmpDir := if tmpDir_falsy o then Some (os_tmpdir pf)
                          else opt_tmpDir o;
            opt_formats := if formats_falsy o then Some SUPPORTED_FORMATS
                           else opt_formats o;
            opt_imageMagick := opt_imageMagick o |}
  /\ (forall other : nat, other <> options -> h' !! other = h !! other)
  /\ (tmpDir_falsy o = false -> formats_falsy o = false -> h' = h)
  /\ (constructor pf options h).1
     = match mkdirp_sync pf dir with
       | None => Returned {| c_this := {| _options := options |};
                             c_mkdirp := dir |}
       | Some msg => Threw msg
       end.
Proof.
  intros Hh Ht dir h'.
  pose proof (constructor_on_options pf options h o t Hh Ht) as Hc.
  subst dir h'. rewrite Hc. cbn [fst snd].
  split; [by rewrite lookup_insert_eq|]. split; [|split; [|done]].
  - intros other Hne. by rewrite lookup_insert_ne.
  - intros Hd Hf. rewrite Hd, Hf. apply insert_id.
    rewrite Hh. f_equal. destruct o. simpl in *. by subst.
Qed.

Lemma constructor_fills_options_in_place_witness :
  let o := {| opt_transforms := Some Demo.config; opt_tmpDir := None;
              opt_formats := None; opt_imageMagick := Some true |} in
  let h : Heap := {[ 7 := o ]} in
  h !! 7 = Some o
  /\ opt_transforms o = Some Demo.config
  /\ let dir := if tmpDir_falsy o then os_tmpdir Demo.platform
                else default "" (opt_tmpDir o) in
     let h' := (constructor Demo.platform 7 h).2 in
     h' !! 7
     = Some {| opt_transforms := Some Demo.config;
               opt_tmpDir := if tmpDir_falsy o
                             then Some (os_tmpdir Demo.platform)
                             else opt_tmpDir o;
               opt_formats := if formats_falsy o
                              then Some SUPPORTED_FORMATS
                              else opt_formats o;
               opt_imageMagick := opt_imageMagick o |}
     /\ (forall other : nat, other <> 7 -> h' !! other = h !! other)
     /\ (tmpDir_falsy o = false -> formats_falsy o = false -> h' = h)
     /\ (constructor Demo.platform 7 h).1
        = match mkdirp_sync Demo.platform dir with
          | None => Returned {| c_this := {| _options := 7 |};
                                c_mkdirp := dir |}
          | Some msg => Threw msg
          end.
Proof.
  intros o h.
  split; [reflexivity|]. split; [reflexivity|].
  exact (constructor_fills_options_in_place Demo.platform 7 h o Demo.config
           eq_refl eq_refl).
Defined.

(** C9 as worded fails for a [tmpDir] that is present but empty: both
    fields are there, and yet the caller's object is changed. *)
Lemma empty_tmpDir_is_overwritten :
  let h : Heap := {[ 7 := Demo.empty_tmpDir ]} in
  let result := constructor Demo.platform 7 h in
  opt_tmpDir Demo.empty_tmpDir = Some ""
  /\ opt_formats Demo.empty_tmpDir = Some ["PNG"]
  /\ result.1 = Returned {| c_this := {| _options := 7 |};
                            c_mkdirp := "/tmp" |}
  /\ (result.2 !! 7 ≫= opt_tmpDir) = Some "/tmp"
  /\ result.2 <> h.
Proof.
  split; [reflexivity|]. split; [reflexivity|].
  split; [reflexivity|]. split; [reflexivity|].
  intros Heq. apply (f_equal (fun m : Heap => m !! 7 ≫= opt_tmpDir)) in Heq.
  vm_compute in Heq. discriminate Heq.
Qed.

(** When the directory cannot be created the exception of [mkdirp.sync]
    leaves the constructor, after the default formats were written into
    the caller's object. *)
Example constructor_throws_after_defaults :
  let h : Heap := {[ 7 := Scenario.unwritable ]} in
  let result := constructor Demo.platform 7 h in
  result.1 = Threw "ENOTDIR: not a directory, mkdir '/dev/null/x'"
  /\ (result.2 !! 7 ≫= opt_formats) = Some SUPPORTED_FORMATS
  /\ (h !! 7 ≫= opt_formats) = None.
Proof. repeat split. Qed.

(** A constructed processor has the settings its methods read, and
    [mkdirp.sync] was handed its temporary directory. *)
Lemma constructor_settings (pf : Platform) (options : nat) (h h' : Heap)
    (c : Constructed) :
  constructor pf options h = (Returned c, h') ->
  exists (o : Options) (cfg : Settings),
    h' !! _options (c_this c) = Some o
    /\ settings_of o = Some cfg
    /\ opt_transforms o = (h !! options) ≫= opt_transforms
    /\ c_mkdirp c = tmpDir cfg
    /\ mkdirp_sync pf (tmpDir cfg) = None.
Proof.
  unfold constructor. destruct (h !! options) as [o|] eqn:Hh; [|done].
  destruct (opt_transforms o) as [t|] eqn:Ht; [|done].
  destruct (mkdirp_sync pf _) as [msg|] eqn:Hmk; [done|].
  intros [= <- <-]. cbn [c_this c_mkdirp _options].
  rewrite lookup_insert_eq. revert Hmk.
  destruct o as [tr d f im]. simpl in *. subst tr.
  unfold tmpDir_falsy, formats_falsy, set_tmpDir, set_formats, settings_of.
  simpl.
  destruct d as [d|]; [destruct (String.eqb d "")|]; destruct f;
    simpl; eauto 10.
Qed.

(** ** willOverwrite *)

Lemma willOverwrite_loop (model : Model) (names : list string) (init : bool) :
  (forall name, name ∈ names -> is_Some (model !! name)) ->
  exists b : bool,
    fold_left
      (fun result name =>
         match result with
         | Threw msg => Threw msg
         | Returned _ =>
             match model !! name with
             | None => Threw "Cannot read properties of undefined"
             | Some record => Returned (url_truthy record)
             end
         end)
      names (Returned init)
    = Returned b.
Proof.
  revert init. induction names as [|name names IH]; intros init Hall; simpl.
  - by exists init.
  - destruct (Hall name) as [record ->]; [set_solver|].
    apply IH. intros n Hn. apply Hall. set_solver.
Qed.

(** C7, as the code has it.  On a model with a sub-record for every
    transform name, [willOverwrite] returns whether the sub-record of the
    last name has a (truthy) url, whatever the sub-records of the names
    before it hold. *)
Theorem willOverwrite_reflects_last (cfg : Settings) (model : Model)
    (earlier : TransformsConfig) (last : string) (t : TransformSpec)
    (record : SubRecord) :
  transforms cfg = earlier ++ [(last, t)] ->
  (forall name, name ∈ obj_keys (transforms cfg) -> is_Some (model !! name)) ->
  model !! last = Some record ->
  willOverwrite cfg model = Returned (url_truthy record).
Proof.
  intros Hcfg Hall Hlast. unfold willOverwrite.
  rewrite Hcfg in Hall |- *. unfold obj_keys in Hall |- *.
  rewrite map_app in Hall |- *. simpl in Hall |- *.
  rewrite fold_left_app.
  destruct (willOverwrite_loop model (map fst earlier) false) as [b ->].
  - intros name Hname. apply Hall, elem_of_app. by left.
  - simpl. by rewrite Hlast.
Qed.

Lemma demo_model_complete (name : string) :
  name ∈ obj_keys (transforms Demo.settings) ->
  is_Some (Demo.model_small_stored !! name).
Proof.
  intros Hname. apply list_elem_of_In in Hname.
  destruct Hname as [<-|[<-|[<-|[]]]]; by eexists.
Qed.

Lemma willOverwrite_reflects_last_witness :
  transforms Demo.settings
  = [("original", Demo.original); ("small", Demo.small)]
    ++ [("medium", Demo.medium)]
  /\ (forall name, name ∈ obj_keys (transforms Demo.settings) ->
                   is_Some (Demo.model_small_stored !! name))
  /\ Demo.model_small_stored !! "medium" = Some ∅
  /\ url_truthy Demo.stored = true
  /\ Demo.model_small_stored !! "small" = Some Demo.stored
  /\ willOverwrite Demo.settings Demo.model_small_stored
     = Returned (url_truthy ∅).
Proof.
  split; [reflexivity|]. split; [exact demo_model_complete|].
  split; [reflexivity|]. split; [reflexivity|]. split; [reflexivity|].
  exact (willOverwrite_reflects_last Demo.settings Demo.model_small_stored
           [("original", Demo.original); ("small", Demo.small)]
           "medium" Demo.medium ∅ eq_refl demo_model_complete eq_refl).
Defined.

(** The url of an earlier name does not count: [small] is stored, the
    last name [medium] is not, and the answer is [false]. *)
Example willOverwrite_is_no_disjunction :
  willOverwrite Demo.settings Demo.model_small_stored = Returned false.
Proof. reflexivity. Qed.

(** C7 as worded fails on a model that lacks a sub-record: the last name,
    [medium], is stored, and yet [willOverwrite] returns nothing; reading
    [url] off the missing sub-record of [original], the first name,
    throws. *)
Lemma willOverwrite_throws_on_missing_record :
  obj_keys (transforms Demo.settings) = ["original"; "small"; "medium"]
  /\ Scenario.model_without_original !! "medium" = Some Demo.stored
  /\ url_truthy Demo.stored = true
  /\ Scenario.model_without_original !! "original" = None
  /\ willOverwrite Demo.settings Scenario.model_without_original
     = Threw "Cannot read properties of undefined"
  /\ willOverwrite Demo.settings Scenario.model_without_original
     <> Returned true.
Proof. repeat split. discriminate. Qed.

(** ** remove *)

Lemma push_removals_complete (model : Model) (names : list string)
    (tasks : list RemovalTask) :
  (forall name, name ∈ names -> is_Some (model !! name)) ->
  push_removals model names tasks
  = (tasks ++ omap (removal_of model) names, None).
Proof.
  revert tasks. induction names as [|name names IH]; intros tasks Hall; simpl.
  - by rewrite app_nil_r.
  - unfold removal_of at 1.
    destruct (Hall name) as [record ->]; [set_solver|].
    destruct (url_truthy record); simpl.
    + rewrite IH by (intros n Hn; apply Hall; set_solver).
      unfold push. by rewrite <- app_assoc.
    + apply IH. intros n Hn. apply Hall. set_solver.
Qed.

Lemma remove_calls_app (name : string) (t1 t2 : list Event) :
  remove_calls name (t1 ++ t2) = remove_calls name t1 + remove_calls name t2.
Proof. unfold remove_calls. by rewrite List.filter_app, length_app. Qed.

Lemma removals_count (model : Model) (names : list string) (name : string)
    (record : SubRecord) :
  NoDup names -> name ∈ names -> model !! name = Some record ->
  remove_calls name
    (map (fun t => EvRemove (rm_name t) (rm_record t))
       (omap (removal_of model) names))
  = if url_truthy record then 1 else 0.
Proof.
  intros Hnd Hin Hrec.
  assert (Hout : forall ns : list string, name ∉ ns ->
            remove_calls name
              (map (fun t => EvRemove (rm_name t) (rm_record t))
                 (omap (removal_of model) ns)) = 0).
  { induction ns as [|n ns IH]; intros Hns; [done|].
    apply not_elem_of_cons in Hns as [Hne Hns]. simpl.
    unfold removal_of at 1.
    destruct (model !! n) as [r|]; [|by apply IH].
    destruct (url_truthy r); [|by apply IH]. simpl.
    change (EvRemove n r :: ?l) with ([EvRemove n r] ++ l).
    rewrite remove_calls_app. change (list_omap _ _ ?f ?l) with (omap f l).
    rewrite IH by done. unfold remove_calls. simpl.
    by destruct (String.eqb_spec n name). }
  induction names as [|n names IH]; [by apply elem_of_nil in Hin|].
  apply NoDup_cons in Hnd as [Hn Hnd]. simpl.
  destruct (decide (n = name)) as [->|Hne].
  - unfold removal_of at 1. rewrite Hrec.
    destruct (url_truthy record); [|by apply Hout]. simpl.
    change (EvRemove name record :: ?l) with ([EvRemove name record] ++ l).
    rewrite remove_calls_app. change (list_omap _ _ ?f ?l) with (omap f l).
    rewrite Hout by done.
    unfold remove_calls. simpl. by rewrite String.eqb_refl.
  - apply elem_of_cons in Hin as [->|Hin]; [done|].
    unfold removal_of at 1.
    destruct (model !! n) as [r|]; [|by apply IH].
    destruct (url_truthy r); [|by apply IH]. simpl.
    change (EvRemove n r :: ?l) with ([EvRemove n r] ++ l).
    rewrite remove_calls_app. change (list_omap _ _ ?f ?l) with (omap f l).
    rewrite IH by done.
    unfold remove_calls. simpl.
    by destruct (String.eqb_spec n name).
Qed.

Lemma remove_step_calls (env : Collaborators) (i : nat) (st : RemoveState)
    (name : string) :
  remove_calls name (r_trace (remove_step env i st))
  = remove_calls name (r_trace st).
Proof.
  unfold remove_step.
  destruct (r_thrown st); [done|].
  destruct (r_tasks st !! i) as [t|]; [|done].
  destruct (rm_state t); try done.
  destruct (parallel_callback _ _ _ _) as [completed report]. simpl.
  rewrite remove_calls_app. unfold remove_calls at 2. simpl. lia.
Qed.

Lemma run_removals_calls (env : Collaborators) (schedule : list nat)
    (st : RemoveState) (name : string) :
  remove_calls name (r_trace (run_removals env schedule st))
  = remove_calls name (r_trace st).
Proof.
  unfold run_removals. revert st.
  induction schedule as [|i schedule IH]; intros st; simpl; [done|].
  by rewrite IH, remove_step_calls.
Qed.

Lemma run_removals_no_tasks (env : Collaborators) (schedule : list nat)
    (st : RemoveState) :
  r_tasks st = [] -> run_removals env schedule st = st.
Proof.
  intros Hnil. unfold run_removals.
  induction schedule as [|i schedule IH]; simpl; [done|].
  unfold remove_step at 2. rewrite Hnil. simpl.
  by destruct (r_thrown st).
Qed.

(** C6, as the code has it.  On a model with a sub-record for every
    transform name, [remove] calls [storageProvider.remove] once on each
    sub-record whose url is truthy (set and not empty) and never on the
    others, however the removals call back; when no sub-record has a url
    it calls back without error, having called nothing. *)
Theorem remove_once_per_stored (env : Collaborators) (cfg : Settings)
    (model : Model) (schedule : list nat) :
  obj_wf (transforms cfg) ->
  (forall name, name ∈ obj_keys (transforms cfg) -> is_Some (model !! name)) ->
  let st := run_removals env schedule (remove cfg model) in
  (forall name record,
     name ∈ obj_keys (transforms cfg) -> model !! name = Some record ->
     remove_calls name (r_trace st) = if url_truthy record then 1 else 0)
  /\ ((forall name record,
         name ∈ obj_keys (transforms cfg) -> model !! name = Some record ->
         url_truthy record = false) ->
      r_trace st = [] /\ r_report st = Some None /\ r_thrown st = None).
Proof.
  intros Hwf Hall st. subst st. unfold remove.
  rewrite push_removals_complete by done. simpl. split.
  - intros name record Hname Hrec.
    rewrite run_removals_calls. simpl. by apply removals_count.
  - intros Hnone.
    assert (Hnil : omap (removal_of model) (obj_keys (transforms cfg)) = []).
    { generalize dependent Hnone. generalize dependent Hall.
      generalize (obj_keys (transforms cfg)).
      induction l as [|n ns IH]; intros Hall Hnone; [done|]. simpl.
      unfold removal_of at 1.
      destruct (Hall n) as [r Hr]; [set_solver|]. rewrite Hr.
      rewrite (Hnone n r) by (done || set_solver).
      apply IH; intros; [apply Hall | eapply Hnone]; set_solver. }
    rewrite Hnil. by rewrite run_removals_no_tasks.
Qed.

Lemma demo_config_wf : obj_wf (transforms Demo.settings).
Proof. apply (bool_decide_unpack _). vm_compute. reflexivity. Qed.

Lemma remove_once_per_stored_witness :
  obj_wf (transforms Demo.settings)
  /\ (forall name, name ∈ obj_keys (transforms Demo.settings) ->
                   is_Some (Demo.model_small_stored !! name))
  /\ let st := run_removals Demo.collaborators [0]
                 (remove Demo.settings Demo.model_small_stored) in
     (forall name record,
        name ∈ obj_keys (transforms Demo.settings) ->
        Demo.model_small_stored !! name = Some record ->
        remove_calls name (r_trace st) = if url_truthy record then 1 else 0)
     /\ ((forall name record,
            name ∈ obj_keys (transforms Demo.settings) ->
            Demo.model_small_stored !! name = Some record ->
            url_truthy record = false) ->
         r_trace st = [] /\ r_report st = Some None /\ r_thrown st = None).
Proof.
  split; [exact demo_config_wf|]. split; [exact demo_model_complete|].
  exact (remove_once_per_stored Demo.collaborators Demo.settings
           Demo.model_small_stored [0] demo_config_wf demo_model_complete).
Defined.

(** On the worked model [remove] calls the provider once, on [small], and
    then calls back without error. *)
Example remove_demo :
  let st := run_removals Demo.collaborators [0]
              (remove Demo.settings Demo.model_small_stored) in
  r_trace st = [EvRemove "small" Demo.stored; EvTaskDone "small" None]
  /\ r_report st = Some None.
Proof. split; reflexivity. Qed.

(** C6 as worded fails on a model that lacks a sub-record: [small] is
    stored, and yet [storageProvider.remove] is never called on it;
    reading [url] off the missing sub-record of [medium] throws before
    any task is started, and the callback is never invoked. *)
Lemma remove_skips_stored_on_missing_record :
  let st := run_removals Demo.collaborators [0; 1; 0]
              (remove Demo.settings Scenario.model_without_medium) in
  Scenario.model_without_medium !! "small" = Some Demo.stored
  /\ url_truthy Demo.stored = true
  /\ Scenario.model_without_medium !! "medium" = None
  /\ remove_calls "small" (r_trace st) = 0
  /\ r_trace st = []
  /\ r_thrown st = Some "Cannot read properties of undefined"
  /\ r_report st = None.
Proof. repeat split. Qed.

(** ** One unit *)

Lemma set_state_same (u : TransformUnit) : set_state u (u_state u) = u.
Proof. by destruct u. Qed.

Lemma unit_steps_terminal (env : Collaborators) (imageMagick : option bool)
    (attachment : Attachment) (n : nat) (r : UnitRun) :
  terminal (u_state (run_unit_state r)) = true ->
  unit_steps env imageMagick attachment n r = r.
Proof.
  intros Hterm. induction n as [|n IH]; simpl; [done|].
  assert (Hidle : unit_step env imageMagick attachment (run_unit_state r)
                    (run_model r)
                  = idle (run_unit_state r) (run_model r)).
  { unfold unit_step. revert Hterm.
    by destruct (u_state (run_unit_state r)). }
  rewrite Hidle. simpl. rewrite set_state_same, app_nil_r.
  destruct r. simpl in *. exact IH.
Qed.

Section UnitSteps.
Context (env : Collaborators) (imageMagick : option bool)
        (attachment : Attachment).

Lemma unit_steps_next (n : nat) (u : TransformUnit) (s : UnitState)
    (m : Model) (trace : list Event) (eff : Effect) :
  unit_step env imageMagick attachment (set_state u s) m = eff ->
  unit_steps env imageMagick attachment (S n) (mkrun u s m trace)
  = unit_steps env imageMagick attachment n
      (mkrun u (eff_state eff) (eff_model eff) (trace ++ eff_events eff)).
Proof. intros <-. reflexivity. Qed.

Lemma unit_steps_failed (n : nat) (u : TransformUnit) (s : UnitState)
    (m : Model) (trace : list Event) (e : Error) :
  unit_step env imageMagick attachment (set_state u s) m
  = stage_failed (set_state u s) m e ->
  unit_steps env imageMagick attachment (S n) (mkrun u s m trace)
  = mkrun u (Failed e) m (trace ++ [EvTaskDone (u_name u) (Some e)]).
Proof.
  intros Hstep. rewrite (unit_steps_next _ _ _ _ _ _ Hstep).
  by rewrite unit_steps_terminal.
Qed.

(** The three ways the final callback can go: all eight assignments and
    the callback of the task; the first two assignments and the
    [TypeError] of [attributes.size.width]; or a [TypeError] at once. *)
Lemma final_callback_cases (u : TransformUnit) (m : Model)
    (attributes : option Attributes) (stats : Stats) (mimeType url : string) :
  (exists r a size,
     m !! u_name u = Some r /\ attributes = Some a
     /\ attr_size a = Some size
     /\ final_callback attachment u m attributes stats mimeType url
        = {| eff_state := Committed;
             eff_events :=
               [EvSet (u_name u) "format" (AStr (attr_format a));
                EvSet (u_name u) "depth" (ANum (attr_depth a));
                EvSet (u_name u) "width" (ANum (size_width size));
                EvSet (u_name u) "height" (ANum (size_height size));
                EvSet (u_name u) "size" (ANum (stats_size stats));
                EvSet (u_name u) "url" (AStr url);
                EvSet (u_name u) "name" (AStr (att_name attachment));
                EvSet (u_name u) "type" (AStr mimeType);
                EvTaskDone (u_name u) None];
             eff_model :=
               <[u_name u :=
                   <["type" := AStr mimeType]>
                     (<["name" := AStr (att_name attachment)]>
                        (<["url" := AStr url]>
                           (<["size" := ANum (stats_size stats)]>
                              (<["height" := ANum (size_height size)]>
                                 (<["width" := ANum (size_width size)]>
                                    (<["depth" := ANum (attr_depth a)]>
                                       (<["format" := AStr (attr_format a)]>
                                          r)))))))]> m;
             eff_done := Some None |})
  \/ (exists r a,
        m !! u_name u = Some r /\ attributes = Some a
        /\ attr_size a = None
        /\ final_callback attachment u m attributes stats mimeType url
           = {| eff_state := Crashed;
                eff_events :=
                  [EvSet (u_name u) "format" (AStr (attr_format a));
                   EvSet (u_name u) "depth" (ANum (attr_depth a))];
                eff_model :=
                  <[u_name u :=
                      <["depth" := ANum (attr_depth a)]>
                        (<["format" := AStr (attr_format a)]> r)]> m;
                eff_done := None |})
  \/ ((m !! u_name u = None \/ attributes = None)
      /\ final_callback attachment u m attributes stats mimeType url
         = {| eff_state := Crashed; eff_events := []; eff_model := m;
              eff_done := None |}).
Proof.
  unfold final_callback.
  destruct (m !! u_name u) as [r|]; [|right; right; by eauto].
  destruct attributes as [[format depth [size|]]|].
  - left. exists r, {| attr_format := format; attr_depth := depth;
                       attr_size := Some size |}, size. done.
  - right. left.
    exists r, {| attr_format := format; attr_depth := depth;
                 attr_size := None |}. done.
  - right. right. by eauto.
Qed.

Lemma final_callback_terminal (u : TransformUnit) (m : Model)
    (a : option Attributes) (stats : Stats) (mimeType url : string) :
  terminal (eff_state (final_callback attachment u m a stats mimeType url))
  = true.
Proof.
  destruct (final_callback_cases u m a stats mimeType url)
    as [(? & ? & ? & _ & _ & _ & ->) | [(? & ? & _ & _ & _ & ->) | [_ ->]]];
    reflexivity.
Qed.

(** A unit run for five callbacks or more has ended, in one of six ways. *)
Lemma run_task_outcome (n : nat) (u : TransformUnit) (m : Model) :
  5 <= n ->
  unit_outcome env imageMagick attachment u m
    (run_task env imageMagick attachment n u m).
Proof.
  intros Hn. destruct n as [|[|[|[|[|k]]]]]; try lia. clear Hn.
  unfold run_task. fold (mkrun u Converting m [start_event attachment u]).
  destruct (gm_convert env imageMagick (att_path attachment)
              (_setUpConvertArgs (u_transform u)) (u_outputFile u))
    as [e|] eqn:Hconvert.
  { rewrite (unit_steps_failed _ _ _ _ _ e)
      by (unfold unit_step; simpl; by rewrite Hconvert).
    by apply convert_failed. }
  rewrite (unit_steps_next _ _ _ _ _
             (stage_passed m Inspecting (EvIdentify (u_outputFile u))))
    by (unfold unit_step; simpl; by rewrite Hconvert).
  destruct (gm_identify env imageMagick (u_outputFile u)) as [e|a] eqn:Hid.
  { rewrite (unit_steps_failed _ _ _ _ _ e)
      by (unfold unit_step; simpl; by rewrite Hid).
    by apply identify_failed. }
  rewrite (unit_steps_next _ _ _ _ _
             (stage_passed m (Stating a) (EvStat (u_outputFile u))))
    by (unfold unit_step; simpl; by rewrite Hid).
  destruct (fs_stat env (u_outputFile u)) as [e|stats] eqn:Hstat.
  { rewrite (unit_steps_failed _ _ _ _ _ e)
      by (unfold unit_step; simpl; by rewrite Hstat).
    by eapply stat_failed. }
  rewrite (unit_steps_next _ _ _ _ _
             (stage_passed m (Sniffing a stats)
                (EvDetectFile (u_outputFile u))))
    by (unfold unit_step; simpl; by rewrite Hstat).
  destruct (magic_detectFile env (u_outputFile u)) as [e|mimeType] eqn:Hsniff.
  { rewrite (unit_steps_failed _ _ _ _ _ e)
      by (unfold unit_step; simpl; by rewrite Hsniff).
    by eapply sniff_failed. }
  rewrite (unit_steps_next _ _ _ _ _
             (stage_passed m (Storing a stats mimeType)
                (EvSave {| blob_path := u_outputFile u;
                           blob_size := stats_size stats;
                           blob_type := mimeType |})))
    by (unfold unit_step; simpl; by rewrite Hsniff).
  destruct (storage_save env {| blob_path := u_outputFile u;
                                blob_size := stats_size stats;
                                blob_type := mimeType |})
    as [e|url] eqn:Hsave.
  { rewrite (unit_steps_failed _ _ _ _ _ e)
      by (unfold unit_step; simpl; by rewrite Hsave).
    by eapply store_failed. }
  rewrite (unit_steps_next _ _ _ _ _
             (final_callback attachment u m a stats mimeType url))
    by (unfold unit_step; simpl; by rewrite Hsave).
  rewrite unit_steps_terminal by apply final_callback_terminal.
  by apply all_passed.
Qed.

End UnitSteps.

(** What the assignments of the final callback leave in a sub-record. *)
Lemma inserted_results (attachment : Attachment) (r : SubRecord)
    (a : Attributes) (size : Size) (stats : Stats) (mimeType url : string) :
  holds_results attachment r
    (<["type" := AStr mimeType]>
       (<["name" := AStr (att_name attachment)]>
          (<["url" := AStr url]>
             (<["size" := ANum (stats_size stats)]>
                (<["height" := ANum (size_height size)]>
                   (<["width" := ANum (size_width size)]>
                      (<["depth" := ANum (attr_depth a)]>
                         (<["format" := AStr (attr_format a)]> r))))))))
    a size stats mimeType url.
Proof.
  unfold holds_results. repeat split; try by simplify_map_eq.
  intros field Hfield. simpl in Hfield.
  rewrite !lookup_insert_ne; [done|..]; intros <-; apply Hfield; tauto.
Qed.

Lemma inserted_format_and_depth (r : SubRecord) (a : Attributes) :
  holds_format_and_depth r
    (<["depth" := ANum (attr_depth a)]>
       (<["format" := AStr (attr_format a)]> r)) a.
Proof.
  unfold holds_format_and_depth. repeat split; try by simplify_map_eq.
  intros field Hformat Hdepth. by rewrite !lookup_insert_ne.
Qed.

Lemma holds_results_unique (attachment : Attachment) (r r1 r2 : SubRecord)
    (a : Attributes) (size : Size) (stats : Stats) (mimeType url : string) :
  holds_results attachment r r1 a size stats mimeType url ->
  holds_results attachment r r2 a size stats mimeType url ->
  r1 = r2.
Proof.
  intros (F1 & D1 & W1 & H1 & S1 & U1 & N1 & T1 & O1)
         (F2 & D2 & W2 & H2 & S2 & U2 & N2 & T2 & O2).
  apply map_eq. intros field.
  destruct (decide (In field eight_fields)) as [Hin|Hout].
  - simpl in Hin. decompose [or] Hin; subst; congruence || done.
  - by rewrite O1, O2.
Qed.

Section UnitRuns.
Context (env : Collaborators) (imageMagick : option bool)
        (attachment : Attachment).

(** The five calls of a unit whose stages all succeed. *)
Lemma run_task_passed (n : nat) (u : TransformUnit) (m : Model)
    (a : Attributes) (stats : Stats) (mimeType url : string) :
  5 <= n ->
  stages_succeeded env imageMagick attachment u a stats mimeType url ->
  run_task env imageMagick attachment n u m
  = mkrun u
      (eff_state (final_callback attachment u m (Some a) stats mimeType url))
      (eff_model (final_callback attachment u m (Some a) stats mimeType url))
      ([EvConvert (att_path attachment) (_setUpConvertArgs (u_transform u))
          (u_outputFile u);
        EvIdentify (u_outputFile u); EvStat (u_outputFile u);
        EvDetectFile (u_outputFile u);
        EvSave {| blob_path := u_outputFile u;
                  blob_size := stats_size stats;
                  blob_type := mimeType |}]
       ++ eff_events
            (final_callback attachment u m (Some a) stats mimeType url)).
Proof.
  intros Hn (Hc & Hi & Hs & Hd & Hsv).
  destruct (run_task_outcome env imageMagick attachment n u m Hn)
    as [e Hc' | e Hc' Hi' | a' e Hc' Hi' Hs' | a' stats' e Hc' Hi' Hs' Hd'
        | a' stats' mimeType' e Hc' Hi' Hs' Hd' Hsv'
        | a' stats' mimeType' url' Hc' Hi' Hs' Hd' Hsv']; try congruence.
  assert (a' = Some a) as -> by congruence.
  assert (stats' = stats) as -> by congruence.
  assert (mimeType' = mimeType) as -> by congruence.
  assert (url' = url) as -> by congruence. reflexivity.
Qed.

(** Whether the five stages of a unit all succeed is decided by the
    answers of the collaborators. *)
Lemma stages_decided (u : TransformUnit) :
  (exists a stats mimeType url,
     stages_succeeded env imageMagick attachment u a stats mimeType url)
  \/ ~ (exists a stats mimeType url,
          stages_succeeded env imageMagick attachment u a stats mimeType url).
Proof.
  unfold stages_succeeded.
  destruct (gm_convert env imageMagick (att_path attachment)
              (_setUpConvertArgs (u_transform u)) (u_outputFile u)) eqn:Hc;
    [right; by intros (? & ? & ? & ? & ? & _)|].
  destruct (gm_identify env imageMagick (u_outputFile u)) as [e|[a|]] eqn:Hi;
    [right; by intros (? & ? & ? & ? & _ & ? & _)| |
     right; by intros (? & ? & ? & ? & _ & ? & _)].
  destruct (fs_stat env (u_outputFile u)) as [e|stats] eqn:Hs;
    [right; by intros (? & ? & ? & ? & _ & _ & ? & _)|].
  destruct (magic_detectFile env (u_outputFile u)) as [e|mimeType] eqn:Hd;
    [right; by intros (? & ? & ? & ? & _ & _ & _ & ? & _)|].
  destruct (storage_save env {| blob_path := u_outputFile u;
                                blob_size := stats_size stats;
                                blob_type := mimeType |})
    as [e|url] eqn:Hsv.
  - right. intros (a' & stats' & mimeType' & url' & _ & _ & Hs' & Hd' & Hsv').
    assert (stats' = stats) as -> by congruence.
    assert (mimeType' = mimeType) as -> by congruence. congruence.
  - left. by exists a, stats, mimeType, url.
Qed.

(** A unit one of whose stages does not succeed assigns nothing. *)
Lemma run_task_stopped (n : nat) (u : TransformUnit) (m : Model) :
  5 <= n ->
  ~ (exists a stats mimeType url,
       stages_succeeded env imageMagick attachment u a stats mimeType url) ->
  List.filter is_set
    (run_trace (run_task env imageMagick attachment n u m)) = []
  /\ run_model (run_task env imageMagick attachment n u m) = m
  /\ is_committed (run_unit_state (run_task env imageMagick attachment n u m))
     = false.
Proof.
  intros Hn Hnot.
  destruct (run_task_outcome env imageMagick attachment n u m Hn)
    as [e Hc | e Hc Hi | a e Hc Hi Hs | a stats e Hc Hi Hs Hd
        | a stats mimeType e Hc Hi Hs Hd Hsv | a stats mimeType url Hc Hi Hs Hd Hsv];
    try done.
  destruct a as [a|].
  { exfalso. apply Hnot. by exists a, stats, mimeType, url. }
  destruct (final_callback_cases attachment u m None stats mimeType url)
    as [(? & ? & ? & _ & ? & _) | [(? & ? & _ & ? & _) | [_ ->]]]; done.
Qed.

End UnitRuns.

(** C2, as the code has it.  A unit run to its end has assigned all
    eight fields of its sub-record exactly when the sub-record exists,
    conversion, identification, stat, MIME detection and storing all
    succeeded, and the identified attributes have a size; the sub-record then holds the
    results of these stages and the unit is committed.  When all five
    stages succeeded but the attributes have no size, the final callback
    throws after assigning [format] and [depth], and only these two are
    written.  When the sub-record is missing or some stage does not
    succeed, no field of any sub-record is assigned and the model is as
    before. *)
Theorem commit_iff_all_stages (env : Collaborators) (imageMagick : option bool)
    (attachment : Attachment) (n : nat) (u : TransformUnit) (m : Model) :
  5 <= n ->
  let run := run_task env imageMagick attachment n u m in
  (written_fields (u_name u) (run_trace run) = eight_fields
   <-> exists r a size stats mimeType url,
         m !! u_name u = Some r
         /\ stages_succeeded env imageMagick attachment u a stats mimeType url
         /\ attr_size a = Some size)
  /\ (forall r a size stats mimeType url,
        m !! u_name u = Some r ->
        stages_succeeded env imageMagick attachment u a stats mimeType url ->
        attr_size a = Some size ->
        u_state (run_unit_state run) = Committed
        /\ (forall name, name <> u_name u -> run_model run !! name = m !! name)
        /\ exists r', run_model run !! u_name u = Some r'
                      /\ holds_results attachment r r' a size stats
                           mimeType url)
  /\ (forall r a stats mimeType url,
        m !! u_name u = Some r ->
        stages_succeeded env imageMagick attachment u a stats mimeType url ->
        attr_size a = None ->
        u_state (run_unit_state run) = Crashed
        /\ written_fields (u_name u) (run_trace run) = ["format"; "depth"]
        /\ (forall name, name <> u_name u -> run_model run !! name = m !! name)
        /\ exists r', run_model run !! u_name u = Some r'
                      /\ holds_format_and_depth r r' a)
  /\ (m !! u_name u = None
      \/ ~ (exists a stats mimeType url,
              stages_succeeded env imageMagick attachment u a stats
                mimeType url) ->
      List.filter is_set (run_trace run) = [] /\ run_model run = m).
Proof.
  intros Hn run.
  assert (Hwritten : forall trace : list Event,
            List.filter is_set trace = [] ->
            written_fields (u_name u) trace = []).
  { induction trace as [|ev trace IH]; [done|].
    destruct ev; simpl; try done. }
  assert (Hpassed : forall a stats mimeType url,
            stages_succeeded env imageMagick attachment u a stats mimeType url ->
            (exists r size,
               m !! u_name u = Some r /\ attr_size a = Some size
               /\ u_state (run_unit_state run) = Committed
               /\ written_fields (u_name u) (run_trace run) = eight_fields
               /\ (forall name, name <> u_name u ->
                                run_model run !! name = m !! name)
               /\ exists r', run_model run !! u_name u = Some r'
                             /\ holds_results attachment r r' a size stats
                                  mimeType url)
            \/ (exists r,
                  m !! u_name u = Some r /\ attr_size a = None
                  /\ u_state (run_unit_state run) = Crashed
                  /\ written_fields (u_name u) (run_trace run)
                     = ["format"; "depth"]
                  /\ (forall name, name <> u_name u ->
                                   run_model run !! name = m !! name)
                  /\ exists r', run_model run !! u_name u = Some r'
                                /\ holds_format_and_depth r r' a)
            \/ (m !! u_name u = None
                /\ List.filter is_set (run_trace run) = []
                /\ run_model run = m)).
  { intros a stats mimeType url Hall. subst run.
    rewrite (run_task_passed env imageMagick attachment n u m a stats
               mimeType url Hn Hall).
    destruct (final_callback_cases attachment u m (Some a) stats mimeType url)
      as [(r & a' & size & Hr & [= <-] & Hsize & ->)
         | [(r & a' & Hr & [= <-] & Hsize & ->) | [[Hr|?] ->]]];
      [| | |done].
    - left. exists r, size. do 3 (split; [done|]).
      cbn [run_trace run_model mkrun eff_events eff_model].
      split; [simpl; by rewrite !String.eqb_refl|].
      split; [intros name Hne; by rewrite lookup_insert_ne|].
      eexists. split; [by rewrite lookup_insert_eq|].
      apply inserted_results.
    - right. left. exists r. do 3 (split; [done|]).
      cbn [run_trace run_model mkrun eff_events eff_model].
      split; [simpl; by rewrite !String.eqb_refl|].
      split; [intros name Hne; by rewrite lookup_insert_ne|].
      eexists. split; [by rewrite lookup_insert_eq|].
      apply inserted_format_and_depth.
    - right. right. done. }
  split; [split|split; [|split]].
  - intros Height.
    destruct (stages_decided env imageMagick attachment u)
      as [(a & stats & mimeType & url & Hall)|Hnot].
    + destruct (Hpassed a stats mimeType url Hall)
        as [(r & size & Hr & Hsize & _)
           | [(r & _ & _ & _ & Hw & _) | (_ & Hw & _)]].
      * by exists r, a, size, stats, mimeType, url.
      * rewrite Hw in Height. discriminate.
      * rewrite (Hwritten _ Hw) in Height. discriminate.
    + destruct (run_task_stopped env imageMagick attachment n u m Hn Hnot)
        as (Hw & _). fold run in Hw.
      rewrite (Hwritten _ Hw) in Height. discriminate.
  - intros (r & a & size & stats & mimeType & url & Hr & Hall & Hsize).
    destruct (Hpassed a stats mimeType url Hall)
      as [(_ & _ & _ & _ & _ & Hw & _)
         | [(_ & _ & ? & _) | (? & _)]]; [done | congruence | congruence].
  - intros r a size stats mimeType url Hr Hall Hsize.
    destruct (Hpassed a stats mimeType url Hall)
      as [(r0 & size0 & Hr0 & Hsize0 & Hstate & _ & Hframe & Hrec)
         | [(_ & _ & ? & _) | (? & _)]]; [|congruence..].
    assert (r0 = r) as -> by congruence.
    assert (size0 = size) as -> by congruence. done.
  - intros r a stats mimeType url Hr Hall Hsize.
    destruct (Hpassed a stats mimeType url Hall)
      as [(_ & ? & _ & ? & _)
         | [(r0 & Hr0 & _ & Hstate & Hw & Hframe & Hrec) | (? & _)]];
      [congruence| |congruence].
    assert (r0 = r) as -> by congruence. done.
  - intros [Hr|Hnot].
    + destruct (stages_decided env imageMagick attachment u)
        as [(a & stats & mimeType & url & Hall)|Hnot].
      * destruct (Hpassed a stats mimeType url Hall)
          as [(? & ? & ? & _) | [(? & ? & _) | (_ & ? & ?)]];
          [congruence | congruence | done].
      * by destruct (run_task_stopped env imageMagick attachment n u m
                       Hn Hnot) as (? & ? & _).
    + by destruct (run_task_stopped env imageMagick attachment n u m Hn Hnot)
        as (? & ? & _).
Qed.



Lemma commit_iff_all_stages_witness :
  5 <= 5
  /\ let run := run_task Demo.collaborators None Demo.cat 5 Demo.unit_small
                  Demo.model in
     (written_fields (u_name Demo.unit_small) (run_trace run) = eight_fields
      <-> exists r a size stats mimeType url,
            Demo.model !! u_name Demo.unit_small = Some r
            /\ stages_succeeded Demo.collaborators None Demo.cat
                 Demo.unit_small a stats mimeType url
            /\ attr_size a = Some size)
     /\ (forall r a size stats mimeType url,
           Demo.model !! u_name Demo.unit_small = Some r ->
           stages_succeeded Demo.collaborators None Demo.cat Demo.unit_small
             a stats mimeType url ->
           attr_size a = Some size ->
           u_state (run_unit_state run) = Committed
           /\ (forall name, name <> u_name Demo.unit_small ->
                            run_model run !! name = Demo.model !! name)
           /\ exists r', run_model run !! u_name Demo.unit_small = Some r'
                         /\ holds_results Demo.cat r r' a size stats
                              mimeType url)
     /\ (forall r a stats mimeType url,
           Demo.model !! u_name Demo.unit_small = Some r ->
           stages_succeeded Demo.collaborators None Demo.cat Demo.unit_small
             a stats mimeType url ->
           attr_size a = None ->
           u_state (run_unit_state run) = Crashed
           /\ written_fields (u_name Demo.unit_small) (run_trace run)
              = ["format"; "depth"]
           /\ (forall name, name <> u_name Demo.unit_small ->
                            run_model run !! name = Demo.model !! name)
           /\ exists r', run_model run !! u_name Demo.unit_small = Some r'
                         /\ holds_format_and_depth r r' a)
     /\ (Demo.model !! u_name Demo.unit_small = None
         \/ ~ (exists a stats mimeType url,
                 stages_succeeded Demo.collaborators None Demo.cat
                   Demo.unit_small a stats mimeType url) ->
         List.filter is_set (run_trace run) = [] /\ run_model run = Demo.model).
Proof.
  split; [lia|].
  exact (commit_iff_all_stages Demo.collaborators None Demo.cat 5
           Demo.unit_small Demo.model (le_n 5)).
Defined.

(** C2 as worded fails when [identify] describes the output without a
    size: all five stages succeed, and yet only [format] and [depth] are
    written; the final callback has thrown at [attributes.size.width],
    and the sub-record is left half written. *)
Lemma missing_size_leaves_partial_record :
  let m : Model := {[ "small" := Scenario.labelled ]} in
  let run := run_task Scenario.no_geometry None Demo.cat 5 Demo.unit_small m in
  stages_succeeded Scenario.no_geometry None Demo.cat Demo.unit_small
    Scenario.flat {| stats_size := 1024 |} "image/png"
    "s3://tmp/7da2c7ec11365b80a5ca.jpg"
  /\ written_fields "small" (run_trace run) = ["format"; "depth"]
  /\ written_fields "small" (run_trace run) <> eight_fields
  /\ u_state (run_unit_state run) = Crashed
  /\ run_model run !! "small"
     = Some {[ "label" := AStr "cover"; "format" := AStr "PNG";
               "depth" := ANum 8 ]}
  /\ run_model run <> m.
Proof.
  split; [by repeat split|]. split; [reflexivity|].
  split; [discriminate|]. split; [reflexivity|].
  split; [vm_compute; reflexivity|].
  intros Heq. apply (f_equal (fun m : Model => m !! "small" ≫= (.!! "depth")))
    in Heq.
  vm_compute in Heq. discriminate Heq.
Qed.

(** With a storage provider that refuses the blob the unit fails and the
    model keeps its state; with one that stores it the sub-record holds
    the eight results. *)
Example failed_store_writes_nothing :
  let run := run_task Demo.full_storage None Demo.cat 5 Demo.unit_small
               Demo.model in
  u_state (run_unit_state run) = Failed Demo.disk_full
  /\ List.filter is_set (run_trace run) = []
  /\ run_model run = Demo.model.
Proof. repeat split. Qed.

Example stored_unit_is_committed :
  let run := run_task Demo.collaborators None Demo.cat 5 Demo.unit_small
               Demo.model in
  u_state (run_unit_state run) = Committed
  /\ written_fields "small" (run_trace run) = eight_fields
  /\ run_model run !! "small"
     = Some {[ "format" := AStr "PNG"; "depth" := ANum 8;
               "width" := ANum 640; "height" := ANum 480;
               "size" := ANum 1024;
               "url" := AStr "s3://tmp/7da2c7ec11365b80a5ca.jpg";
               "name" := AStr "cat.png"; "type" := AStr "image/png" ]}.
Proof.
  split; [reflexivity|]. split; [reflexivity|]. vm_compute. reflexivity.
Qed.

(** The stored unit goes through all six stages; the refused one stops
    after the store. *)
Example stored_unit_stages :
  stages (run_trace (run_task Demo.collaborators None Demo.cat 5
                       Demo.unit_small Demo.model))
  = stage_order
  /\ stages (run_trace (run_task Demo.full_storage None Demo.cat 5
                          Demo.unit_small Demo.model))
     = [StConvert; StIdentify; StStat; StSniff; StStore].
Proof. split; reflexivity. Qed.



(** The trace of the stored unit, and of the refused one. *)
Example stored_unit_trace :
  run_trace (run_task Demo.collaborators None Demo.cat 5 Demo.unit_small
               Demo.model)
  = [EvConvert "/uploads/cat.png" [AStr "-resize"; AStr "150x150"]
       "/tmp/7da2c7ec11365b80a5ca.jpg";
     EvIdentify "/tmp/7da2c7ec11365b80a5ca.jpg";
     EvStat "/tmp/7da2c7ec11365b80a5ca.jpg";
     EvDetectFile "/tmp/7da2c7ec11365b80a5ca.jpg";
     EvSave {| blob_path := "/tmp/7da2c7ec11365b80a5ca.jpg";
               blob_size := 1024; blob_type := "image/png" |};
     EvSet "small" "format" (AStr "PNG");
     EvSet "small" "depth" (ANum 8);
     EvSet "small" "width" (ANum 640);
     EvSet "small" "height" (ANum 480);
     EvSet "small" "size" (ANum 1024);
     EvSet "small" "url" (AStr "s3://tmp/7da2c7ec11365b80a5ca.jpg");
     EvSet "small" "name" (AStr "cat.png");
     EvSet "small" "type" (AStr "image/png");
     EvTaskDone "small" None]
  /\ run_trace (run_task Demo.full_storage None Demo.cat 5 Demo.unit_small
                  Demo.model)
     = [EvConvert "/uploads/cat.png" [AStr "-resize"; AStr "150x150"]
          "/tmp/7da2c7ec11365b80a5ca.jpg";
        EvIdentify "/tmp/7da2c7ec11365b80a5ca.jpg";
        EvStat "/tmp/7da2c7ec11365b80a5ca.jpg";
        EvDetectFile "/tmp/7da2c7ec11365b80a5ca.jpg";
        EvSave {| blob_path := "/tmp/7da2c7ec11365b80a5ca.jpg";
                  blob_size := 1024; blob_type := "image/png" |};
        EvTaskDone "small" (Some Demo.disk_full)].
Proof. split; reflexivity. Qed.

(** ** The aggregation of process *)

Lemma first_error_app (t1 t2 : list Event) :
  first_error (t1 ++ t2)
  = match first_error t1 with
    | Some e => Some e
    | None => first_error t2
    end.
Proof.
  induction t1 as [|ev t1 IH]; simpl; [done|].
  destruct ev as [| | | | | | |name [e|]]; simpl; by rewrite ?IH.
Qed.

Lemma count_insert (P : TransformUnit -> bool) (units : list TransformUnit)
    (i : nat) (u u' : TransformUnit) :
  units !! i = Some u ->
  length (List.filter P (<[i := u']> units)) + (if P u then 1 else 0)
  = length (List.filter P units) + (if P u' then 1 else 0).
Proof.
  intros Hu.
  rewrite <- (take_drop_middle units i u Hu) at 2.
  rewrite insert_take_drop by (by eapply lookup_lt_Some).
  rewrite !List.filter_app, !length_app. simpl.
  destruct (P u), (P u'); simpl; lia.
Qed.

Lemma count_below (P : TransformUnit -> bool) (units : list TransformUnit)
    (i : nat) (u : TransformUnit) :
  units !! i = Some u -> P u = false ->
  length (List.filter P units) < length units.
Proof.
  intros Hu HP.
  rewrite <- (take_drop_middle units i u Hu).
  rewrite !List.filter_app, !length_app. simpl. rewrite HP. simpl.
  pose proof (List.filter_length_le P (take i units)).
  pose proof (List.filter_length_le P (drop (S i) units)). lia.
Qed.

Lemma count_all (P : TransformUnit -> bool) (units : list TransformUnit) :
  length (List.filter P units) = length units <-> Forall (fun u => P u = true) units.
Proof.
  induction units as [|u units IH]; simpl; [by split|].
  pose proof (List.filter_length_le P units).
  destruct (P u) eqn:HP; simpl; split.
  - intros Hlen. apply Forall_cons_2; [done|]. apply IH. lia.
  - intros Hall. apply Forall_cons_1 in Hall as [_ Hall]. apply IH in Hall. lia.
  - lia.
  - intros Hall. apply Forall_cons_1 in Hall as [Hu _]. congruence.
Qed.

Lemma count_none (P : TransformUnit -> bool) (units : list TransformUnit) :
  length (List.filter P units) = 0 <-> Forall (fun u => P u = false) units.
Proof.
  induction units as [|u units IH]; simpl; [by split|].
  destruct (P u) eqn:HP; simpl; split.
  - lia.
  - intros Hall. apply Forall_cons_1 in Hall as [Hu _]. congruence.
  - intros Hlen. apply Forall_cons_2; [done|]. by apply IH.
  - intros Hall. apply Forall_cons_1 in Hall as [_ Hall]. by apply IH.
Qed.

(** What a callback does to a unit: nothing that [async.parallel] sees, or
    the failure of a unit that had not ended, or its commit. *)
Lemma unit_step_cases (env : Collaborators) (imageMagick : option bool)
    (attachment : Attachment) (u : TransformUnit) (m : Model) :
  let eff := unit_step env imageMagick attachment u m in
  let u' := set_state u (eff_state eff) in
  (eff_done eff = None /\ first_error (eff_events eff) = None
   /\ is_committed u' = is_committed u /\ is_failed u' = is_failed u)
  \/ (exists e, eff_done eff = Some (Some e)
                /\ first_error (eff_events eff) = Some e
                /\ is_committed u = false /\ is_failed u = false
                /\ is_committed u' = false /\ is_failed u' = true)
  \/ (eff_done eff = Some None /\ first_error (eff_events eff) = None
      /\ is_committed u = false /\ is_failed u = false
      /\ is_committed u' = true /\ is_failed u' = false).
Proof.
  unfold unit_step, is_committed, is_failed.
  destruct (u_state u) as [| | |a|a stats|a stats mimeType| | |] eqn:Hstate;
    simpl; rewrite ?Hstate; auto.
  - destruct (gm_convert _ _ _ _ _); simpl; eauto 10.
  - destruct (gm_identify _ _ _); simpl; eauto 10.
  - destruct (fs_stat _ _); simpl; eauto 10.
  - destruct (magic_detectFile _ _); simpl; eauto 10.
  - destruct (storage_save _ _) as [e|url]; simpl; [eauto 10|].
    destruct (final_callback_cases attachment u m a stats mimeType url)
      as [(? & ? & ? & _ & _ & _ & ->) | [(? & ? & _ & _ & _ & ->) | [_ ->]]];
      simpl; auto 10.
Qed.

Lemma proc_step_inv (env : Collaborators) (cfg : Settings)
    (attachment : Attachment) (i : nat) (st : ProcState) :
  proc_inv st -> proc_inv (proc_step env cfg attachment i st).
Proof.
  intros [Hcompleted Hfailed Hreport]. unfold proc_step.
  destruct (p_units st !! i) as [u|] eqn:Hu; [|by constructor].
  pose proof (count_insert is_committed (p_units st) i u
                (set_state u (eff_state (unit_step env (imageMagick cfg)
                                           attachment u (p_model st)))) Hu)
    as Hcommitted'.
  pose proof (count_insert is_failed (p_units st) i u
                (set_state u (eff_state (unit_step env (imageMagick cfg)
                                           attachment u (p_model st)))) Hu)
    as Hfailed'.
  fold (count_committed (p_units st)) in Hcommitted'.
  fold (count_failed (p_units st)) in Hfailed'.
  destruct (unit_step_cases env (imageMagick cfg) attachment u (p_model st))
    as [(Hdone & Hev & Hc & Hf)
       | [(e & Hdone & Hev & Hc & Hf & Hc' & Hf')
         | (Hdone & Hev & Hc & Hf & Hc' & Hf')]];
    rewrite Hdone; simpl.
  - rewrite Hc in Hcommitted'. rewrite Hf in Hfailed'.
    assert (Hsame : count_failed
                      (<[i := set_state u
                                (eff_state (unit_step env (imageMagick cfg)
                                              attachment u (p_model st)))]>
                         (p_units st))
                    = count_failed (p_units st))
      by (unfold count_failed in *; lia).
    constructor; simpl; rewrite ?length_insert, ?first_error_app, ?Hev, ?Hsame.
    + unfold count_committed in *. lia.
    + revert Hfailed. by destruct (first_error (p_trace st)).
    + rewrite Hreport. by destruct (first_error (p_trace st)).
  - rewrite Hc, Hc' in Hcommitted'. rewrite Hf, Hf' in Hfailed'.
    pose proof (count_below is_committed _ _ _ Hu Hc) as Hbelow.
    fold (count_committed (p_units st)) in Hbelow.
    constructor; simpl; unfold count_committed, count_failed in *;
      rewrite ?length_insert, ?first_error_app, ?Hev.
    + lia.
    + destruct (first_error (p_trace st)); split; intros; (done || lia).
    + rewrite Hreport. unfold expected_report.
      destruct (first_error (p_trace st)); [done|].
      destruct (Nat.eqb_spec (p_completed st) (length (p_units st))); [lia|done].
  - rewrite Hc, Hc' in Hcommitted'. rewrite Hf, Hf' in Hfailed'.
    pose proof (count_below is_committed _ _ _ Hu Hc) as Hbelow.
    fold (count_committed (p_units st)) in Hbelow.
    assert (Hsame : count_failed
                      (<[i := set_state u
                                (eff_state (unit_step env (imageMagick cfg)
                                              attachment u (p_model st)))]>
                         (p_units st))
                    = count_failed (p_units st))
      by (unfold count_failed in *; lia).
    constructor; simpl; rewrite ?length_insert, ?first_error_app, ?Hev, ?Hsame.
    + unfold count_committed in *. lia.
    + revert Hfailed. by destruct (first_error (p_trace st)).
    + rewrite Hreport. unfold expected_report.
      destruct (first_error (p_trace st)).
      { by repeat case_match. }
      destruct (Nat.eqb_spec (p_completed st) (length (p_units st))); [lia|].
      reflexivity.
Qed.

Lemma run_schedule_inv (env : Collaborators) (cfg : Settings)
    (attachment : Attachment) (schedule : list nat) (st : ProcState) :
  proc_inv st -> proc_inv (run_schedule env cfg attachment schedule st).
Proof.
  unfold run_schedule. revert st.
  induction schedule as [|i schedule IH]; intros st Hinv; simpl; [done|].
  by apply IH, proc_step_inv.
Qed.

Lemma proc_step_names (env : Collaborators) (cfg : Settings)
    (attachment : Attachment) (i : nat) (st : ProcState) :
  map u_name (p_units (proc_step env cfg attachment i st))
  = map u_name (p_units st).
Proof.
  unfold proc_step. destruct (p_units st !! i) as [u|] eqn:Hu; [|done].
  destruct (match eff_done _ with Some _ => _ | None => _ end). simpl.
  change (map u_name ?l) with (u_name <$> l).
  rewrite list_fmap_insert. simpl. apply list_insert_id.
  by rewrite list_lookup_fmap, Hu.
Qed.

Lemma run_schedule_names (env : Collaborators) (cfg : Settings)
    (attachment : Attachment) (schedule : list nat) (st : ProcState) :
  map u_name (p_units (run_schedule env cfg attachment schedule st))
  = map u_name (p_units st).
Proof.
  unfold run_schedule. revert st.
  induction schedule as [|i schedule IH]; intros st; simpl; [done|].
  by rewrite IH, proc_step_names.
Qed.

Lemma obj_get_key {V} (o : JsObject V) (k : string) :
  k ∈ obj_keys o -> exists v, obj_get o k = Some v /\ (k, v) ∈ o.
Proof.
  induction o as [|[k' v'] o IH]; simpl; intros Hk.
  - by apply elem_of_nil in Hk.
  - destruct (String.eqb_spec k' k) as [->|Hne].
    + exists v'. split; [done|]. by left.
    + apply elem_of_cons in Hk as [->|Hk]; [done|].
      destruct (IH Hk) as (v & Hv & Hin). exists v. split; [done|]. by right.
Qed.

Lemma well_typed_extension (pf : Platform) (transform : TransformSpec)
    (attachment : Attachment) :
  well_typed_format transform = true ->
  exists extension,
    dotted_extension (supplied_extension pf transform attachment)
    = Returned extension.
Proof.
  unfold well_typed_format, supplied_extension.
  destruct (prop_value transform "format") as [[s|n|b|]|l]; simpl;
    try discriminate.
  - intros _. destruct (negb (s =? "")); simpl; eauto.
  - intros H. apply negb_true_iff in H. rewrite H. simpl. eauto.
  - intros H. apply negb_true_iff in H. rewrite H. simpl. eauto.
  - eauto.
Qed.

(** With usable formats the [forEach] of [process] pushes a task per name
    and throws nothing. *)
Lemma push_tasks_returns (pf : Platform) (cfg : Settings)
    (attachment : Attachment) (names : list string) (g : Entropy)
    (tasks : list TransformUnit) :
  Forall (fun kv => well_typed_format kv.2 = true) (transforms cfg) ->
  (forall name, name ∈ names -> name ∈ obj_keys (transforms cfg)) ->
  (push_tasks pf cfg attachment names g tasks).2 = None
  /\ map u_name (push_tasks pf cfg attachment names g tasks).1
     = map u_name tasks ++ names.
Proof.
  intros Hwt. revert g tasks.
  induction names as [|name names IH]; intros g tasks Hnames;
    cbn [push_tasks].
  - by rewrite app_nil_r.
  - destruct (obj_get_key (transforms cfg) name) as (t & -> & Hin);
      [apply Hnames; by left|].
    rewrite Forall_forall in Hwt. specialize (Hwt _ Hin). simpl in Hwt.
    destruct (well_typed_extension pf t attachment Hwt) as [extension ->].
    destruct (randomString 20 g) as [random20 g'].
    destruct (IH g' (push tasks
                       {| u_name := name; u_transform := t;
                          u_outputFile :=
                            path_join pf (tmpDir cfg)
                              (String.append random20 extension);
                          u_state := Pending |}))
      as [Hnone Hmap]; [intros n Hn; apply Hnames; by right|].
    split; [done|]. rewrite Hmap. unfold push.
    rewrite map_app. simpl. by rewrite <- app_assoc.
Qed.

Lemma first_error_starts (attachment : Attachment)
    (tasks : list TransformUnit) :
  first_error (map (start_event attachment) tasks) = None.
Proof. by induction tasks. Qed.

Lemma count_started (P : TransformUnit -> bool) (tasks : list TransformUnit) :
  (forall u, P (set_state u Converting) = false) ->
  length (List.filter P (map (fun u => set_state u Converting) tasks)) = 0.
Proof.
  intros HP. induction tasks as [|u tasks IH]; simpl; [done|].
  by rewrite HP.
Qed.

(** A supported source with usable formats: every task is started, and the
    bookkeeping holds from the start. *)
Lemma process_started (env : Collaborators) (pf : Platform) (cfg : Settings)
    (attachment : Attachment) (model : Model) (g : Entropy) (a : Attributes) :
  gm_identify env (imageMagick cfg) (att_path attachment)
  = IdAttributes (Some a) ->
  In (attr_format a) (formats cfg) ->
  Forall (fun kv => well_typed_format kv.2 = true) (transforms cfg) ->
  proc_inv (process env pf cfg attachment model g)
  /\ map u_name (p_units (process env pf cfg attachment model g))
     = obj_keys (transforms cfg)
  /\ p_thrown (process env pf cfg attachment model g) = None
  /\ p_model (process env pf cfg attachment model g) = model
  /\ Forall (fun u => u_state u = Converting)
       (p_units (process env pf cfg attachment model g)).
Proof.
  intros Hid Hin Hwt. unfold process. rewrite Hid.
  assert (Hsup : unsupported cfg (Some a) = false).
  { unfold unsupported. apply negb_false_iff, existsb_exists.
    exists (attr_format a). split; [done | apply String.eqb_refl]. }
  rewrite Hsup.
  destruct (push_tasks_returns pf cfg attachment (obj_keys (transforms cfg))
              g [] Hwt) as [Hnone Hnames]; [done|].
  destruct (push_tasks pf cfg attachment (obj_keys (transforms cfg)) g [])
    as [tasks thrown]. simpl in Hnone, Hnames. subst thrown.
  split; [|split; [|split; [done|split; [done|]]]].
  - constructor; simpl.
    + unfold count_committed. by rewrite count_started.
    + rewrite first_error_starts. unfold count_failed.
      by rewrite count_started.
    + rewrite first_error_starts, length_map. unfold expected_report.
      by rewrite Nat.eqb_sym.
  - simpl. rewrite map_map. simpl. exact Hnames.
  - simpl. apply Forall_fmap. by apply Forall_true.
Qed.

(** ** Progress *)

Lemma unit_step_keeps_records (env : Collaborators)
    (imageMagick : option bool) (attachment : Attachment)
    (u : TransformUnit) (m : Model) (name : string) :
  is_Some (m !! name) ->
  is_Some (eff_model (unit_step env imageMagick attachment u m) !! name).
Proof.
  intros Hname. unfold unit_step.
  destruct (u_state u); simpl; try done.
  - by destruct (gm_convert _ _ _ _ _).
  - by destruct (gm_identify _ _ _).
  - by destruct (fs_stat _ _).
  - by destruct (magic_detectFile _ _).
  - destruct (storage_save _ _) as [e|url]; [done|].
    destruct (final_callback_cases attachment u m attributes stats
                mimeType url)
      as [(? & ? & ? & _ & _ & _ & ->) | [(? & ? & _ & _ & _ & ->) | [_ ->]]];
      simpl; try done.
    all: destruct (decide (u_name u = name)) as [->|Hne];
      [rewrite lookup_insert_eq; by eexists | by rewrite lookup_insert_ne].
Qed.

(** When [identify] describes every image in full, a callback takes a
    unit on course one stage further, or to its end. *)
Lemma unit_step_progress (env : Collaborators) (imageMagick : option bool)
    (attachment : Attachment) (u : TransformUnit) (m : Model) :
  identify_complete env imageMagick ->
  is_Some (m !! u_name u) ->
  on_course (u_state u) = true ->
  on_course (eff_state (unit_step env imageMagick attachment u m)) = true
  /\ Nat.min 6 (S (stage_rank (u_state u)))
     <= stage_rank (eff_state (unit_step env imageMagick attachment u m)).
Proof.
  intros Hcontract [r Hr] Hcourse. unfold unit_step.
  destruct (u_state u) as [| | |a|a stats|a stats mimeType| | |] eqn:Hstate;
    simpl in *; try done; rewrite ?Hstate; simpl; try (split; [done|lia]).
  - destruct (gm_convert _ _ _ _ _); simpl; split; done || lia.
  - destruct (gm_identify env imageMagick (u_outputFile u)) as [e|a] eqn:Hid;
      simpl; [split; done || lia|].
    destruct (Hcontract _ _ Hid) as (a' & size & -> & Hsize).
    simpl. rewrite Hsize. split; done || lia.
  - destruct (fs_stat _ _); simpl; split; done || lia.
  - destruct (magic_detectFile _ _); simpl; split; done || lia.
  - destruct (storage_save _ _) as [e|url]; simpl; [split; done || lia|].
    destruct (final_callback_cases attachment u m a stats mimeType url)
      as [(? & ? & ? & _ & _ & _ & ->)
         | [(? & a' & _ & -> & Hsize & _) | [[?| ->] _]]];
      simpl in *; [split; done || lia | | congruence | done].
    by rewrite Hsize in Hcourse.
Qed.

Lemma proc_step_progress (env : Collaborators) (cfg : Settings)
    (attachment : Attachment) (j : nat) (st : ProcState) :
  identify_complete env (imageMagick cfg) ->
  all_on_course st ->
  all_on_course (proc_step env cfg attachment j st)
  /\ forall i u, p_units st !! i = Some u ->
       exists u', p_units (proc_step env cfg attachment j st) !! i = Some u'
                  /\ Nat.min 6 (stage_rank (u_state u)
                                + (if Nat.eqb i j then 1 else 0))
                     <= stage_rank (u_state u').
Proof.
  intros Hcontract Hcourse. unfold proc_step.
  destruct (p_units st !! j) as [uj|] eqn:Huj.
  2:{ split; [done|]. intros i u Hu. exists u. split; [done|].
      destruct (Nat.eqb_spec i j) as [->|_]; [congruence | lia]. }
  destruct (Hcourse uj) as [Hon Hrec]; [by eapply list_elem_of_lookup_2|].
  destruct (unit_step_progress env (imageMagick cfg) attachment uj
              (p_model st) Hcontract Hrec Hon) as [Hon' Hrank].
  destruct (match eff_done _ with Some _ => _ | None => _ end).
  split.
  - intros u Hu. simpl in Hu |- *.
    apply list_elem_of_lookup in Hu as [i Hu].
    destruct (decide (i = j)) as [->|Hne].
    + rewrite list_lookup_insert_eq in Hu by (by eapply lookup_lt_Some).
      injection Hu as <-. simpl. split; [done|].
      by apply unit_step_keeps_records.
    + rewrite list_lookup_insert_ne in Hu by done.
      destruct (Hcourse u) as [Hu1 Hu2]; [by eapply list_elem_of_lookup_2|].
      split; [done | by apply unit_step_keeps_records].
  - intros i u Hu. cbn [p_units]. destruct (Nat.eqb_spec i j) as [->|Hne].
    + rewrite list_lookup_insert_eq by (by eapply lookup_lt_Some).
      eexists. split; [done|]. cbn [u_state set_state].
      assert (u = uj) as -> by congruence. lia.
    + rewrite list_lookup_insert_ne by done. exists u. split; [done|]. lia.
Qed.

Lemma turns_cons (i j : nat) (schedule : list nat) :
  turns i (j :: schedule)
  = (if Nat.eqb i j then 1 else 0) + turns i schedule.
Proof. unfold turns. simpl. by destruct (Nat.eqb i j). Qed.

Lemma run_schedule_progress (env : Collaborators) (cfg : Settings)
    (attachment : Attachment) (schedule : list nat) (st : ProcState)
    (i : nat) (u : TransformUnit) :
  identify_complete env (imageMagick cfg) ->
  all_on_course st ->
  p_units st !! i = Some u ->
  all_on_course (run_schedule env cfg attachment schedule st)
  /\ exists u',
       p_units (run_schedule env cfg attachment schedule st) !! i = Some u'
       /\ Nat.min 6 (stage_rank (u_state u) + turns i schedule)
          <= stage_rank (u_state u').
Proof.
  intros Hcontract. unfold run_schedule. revert st u.
  induction schedule as [|j schedule IH]; intros st u Hcourse Hu.
  - split; [done|]. exists u. split; [done|].
    change (turns i []) with 0. lia.
  - cbn [fold_left].
    destruct (proc_step_progress env cfg attachment j st Hcontract Hcourse)
      as [Hcourse' Hstep].
    destruct (Hstep i u Hu) as (u1 & Hu1 & Hrank1).
    destruct (IH _ u1 Hcourse' Hu1) as [Hcourse'' (u' & Hu' & Hrank')].
    split; [done|]. exists u'. split; [done|].
    rewrite turns_cons. destruct (Nat.eqb i j); lia.
Qed.

(** When [identify] describes every image in full and the model has its
    sub-records, five callbacks per task bring every unit to its end,
    committed or failed, in whatever order they arrive. *)
Lemma fair_schedule_settles (env : Collaborators) (pf : Platform)
    (cfg : Settings) (attachment : Attachment) (model : Model) (g : Entropy)
    (a : Attributes) (schedule : list nat) :
  gm_identify env (imageMagick cfg) (att_path attachment)
  = IdAttributes (Some a) ->
  In (attr_format a) (formats cfg) ->
  Forall (fun kv => well_typed_format kv.2 = true) (transforms cfg) ->
  identify_complete env (imageMagick cfg) ->
  (forall name, name ∈ obj_keys (transforms cfg) -> is_Some (model !! name)) ->
  (forall i, i < length (transforms cfg) -> 5 <= turns i schedule) ->
  Forall (fun u => is_settled u = true)
    (p_units (run_schedule env cfg attachment schedule
                (process env pf cfg attachment model g))).
Proof.
  intros Hid Hin Hwt Hcontract Hrecords Hfair.
  destruct (process_started env pf cfg attachment model g a Hid Hin Hwt)
    as (_ & Hnames0 & _ & Hmodel0 & Hstart0).
  set (st0 := process env pf cfg attachment model g) in *.
  assert (Hcourse0 : all_on_course st0).
  { intros u Hu. rewrite Forall_forall in Hstart0.
    rewrite (Hstart0 u Hu), Hmodel0. split; [done|].
    apply Hrecords. rewrite <- Hnames0.
    apply list_elem_of_In, in_map, list_elem_of_In, Hu. }
  assert (Hlen0 : length (p_units st0) = length (transforms cfg)).
  { rewrite <- (length_map u_name), Hnames0. unfold obj_keys.
    by rewrite length_map. }
  apply Forall_forall. intros u' Hu'.
  apply list_elem_of_lookup in Hu' as [i Hu'].
  assert (Hi : i < length (p_units st0)).
  { rewrite <- (length_map u_name (p_units st0)).
    rewrite <- (run_schedule_names env cfg attachment schedule st0).
    rewrite length_map. by eapply lookup_lt_Some. }
  destruct (lookup_lt_is_Some_2 _ _ Hi) as [u Hu].
  destruct (run_schedule_progress env cfg attachment schedule st0 i u
              Hcontract Hcourse0 Hu) as [Hcourse (u1 & Hu1 & Hrank)].
  assert (u1 = u') as -> by congruence.
  destruct (Hcourse u') as [Hon _]; [by eapply list_elem_of_lookup_2|].
  rewrite Forall_forall in Hstart0.
  rewrite (Hstart0 u) in Hrank by (by eapply list_elem_of_lookup_2).
  specialize (Hfair i). rewrite <- Hlen0 in Hfair. specialize (Hfair Hi).
  assert (Hsix : 6 <= stage_rank (u_state u'))
    by (cbn [stage_rank] in Hrank; lia).
  unfold is_settled, is_committed, is_failed.
  destruct (u_state u'); cbn [stage_rank on_course] in *; done || lia.
Qed.


Lemma demo_formats_usable :
  Forall (fun kv => well_typed_format kv.2 = true) (transforms Demo.settings).
Proof. repeat (apply Forall_cons_2; [reflexivity|]). apply Forall_nil_2. Qed.



(** All three transforms stored: every unit commits and [process] calls
    back without error.  With a provider that refuses every blob, the
    first unit to reach it decides the error, while the others run on. *)
Example process_all_committed :
  let st := run_schedule Demo.collaborators Demo.settings Demo.cat
              [0; 1; 2; 0; 1; 2; 0; 1; 2; 0; 1; 2; 0; 1; 2]
              (process Demo.collaborators Demo.platform Demo.settings
                 Demo.cat Demo.model Demo.entropy) in
  p_report st = Some None
  /\ map u_state (p_units st) = [Committed; Committed; Committed]
  /\ map (written_fields "medium") [p_trace st] = [eight_fields].
Proof. repeat split. Qed.

Example process_first_failure :
  let st := run_schedule Demo.full_storage Demo.settings Demo.cat
              [1; 1; 1; 1; 1; 0]
              (process Demo.full_storage Demo.platform Demo.settings
                 Demo.cat Demo.model Demo.entropy) in
  p_report st = Some (Some Demo.disk_full)
  /\ map u_state (p_units st) = [Inspecting; Failed Demo.disk_full; Converting]
  /\ p_model st = Demo.model.
Proof. repeat split. Qed.

(** * Further properties *)

(** ** randomString *)

Lemma hex_value_digit (n : N) : (n < 16)%N -> hex_value (hex_digit n) = n.
Proof.
  intros Hn. destruct n as [|p]; [reflexivity|].
  do 4 (try destruct p as [p|p|]; try reflexivity); lia.
Qed.

Lemma from_hex_toString (bs : list byte) : from_hex (toString_hex bs) = bs.
Proof.
  induction bs as [|b bs IH]; [done|]. simpl. rewrite IH.
  pose proof (Byte.to_N_bounded b) as Hb.
  rewrite !hex_value_digit.
  - rewrite <- N.div_mod by lia. by rewrite Byte.of_to_N.
  - apply N.mod_lt. lia.
  - apply N.Div0.div_lt_upper_bound. lia.
Qed.

Lemma slice0_all (s : string) : slice0 s (String.length s) = s.
Proof. unfold slice0. induction s as [|c s IH]; simpl; [done | by rewrite IH]. Qed.

(** X1. [randomString(length)] is exactly [length] lowercase hexadecimal
    digits, for every length, odd or zero included, and it draws
    [ceil(length / 2)] bytes from the source of randomness, which it
    leaves otherwise as it was. *)
Theorem randomString_digits (len : nat) (g : Entropy) :
  String.length (randomString len g).1 = len
  /\ string_forallb lower_hex (randomString len g).1 = true
  /\ cursor (randomString len g).2 = cursor g + ceil_half len
  /\ stream (randomString len g).2 = stream g.
Proof.
  destruct (randomString_shape len g) as [Hlen Hhex].
  repeat split; try done.
Qed.

(** X2. A random name of even length determines the bytes it was made
    from: two calls of [randomString] with the same even length give the
    same string only if they drew the same bytes. *)
Theorem randomString_even_injective (k : nat) (g1 g2 : Entropy) :
  (randomString (2 * k) g1).1 = (randomString (2 * k) g2).1 ->
  (randomBytes k g1).1 = (randomBytes k g2).1.
Proof.
  unfold randomString.
  assert (Hhalf : ceil_half (2 * k) = k).
  { unfold ceil_half. replace (2 * k + 1) with (1 + k * 2) by lia.
    rewrite Nat.div_add by lia. reflexivity. }
  rewrite Hhalf.
  destruct (randomBytes k g1) as [b1 g1'] eqn:H1.
  destruct (randomBytes k g2) as [b2 g2'] eqn:H2. cbn [fst].
  assert (Hl1 : length b1 = k)
    by (by rewrite <- (randomBytes_length k g1), H1).
  assert (Hl2 : length b2 = k)
    by (by rewrite <- (randomBytes_length k g2), H2).
  rewrite <- Hl1 at 1. rewrite <- Hl2 at 1.
  rewrite <- !toString_hex_length, !slice0_all.
  intros Heq. by rewrite <- (from_hex_toString b1), Heq, from_hex_toString.
Qed.

Lemma randomString_even_injective_witness :
  (randomString (2 * 10) Demo.entropy).1
  = (randomString (2 * 10) Scenario.shifted).1
  /\ (randomBytes 10 Demo.entropy).1 = (randomBytes 10 Scenario.shifted).1.
Proof.
  assert (Hsame : (randomString (2 * 10) Demo.entropy).1
                  = (randomString (2 * 10) Scenario.shifted).1)
    by (vm_compute; reflexivity).
  split; [exact Hsame|].
  exact (randomString_even_injective 10 Demo.entropy Scenario.shifted Hsame).
Defined.

(** The two sources of the witness differ: the second stream holds the
    bytes of the first seven positions further on, and is read from
    there. *)
Example shifted_is_another_source :
  cursor Demo.entropy = 0 /\ cursor Scenario.shifted = 7
  /\ stream Demo.entropy 1 <> stream Scenario.shifted 1
  /\ (randomString 20 Demo.entropy).1 = "0b30557a9fc4e90e3358"
  /\ (randomString 20 Scenario.shifted).1 = "0b30557a9fc4e90e3358".
Proof.
  split; [reflexivity|]. split; [reflexivity|]. split; [|by split].
  vm_compute. discriminate.
Qed.

(** ** The argument list, further *)

Lemma setUpConvertArgs_entries (transform : TransformSpec) :
  obj_wf transform ->
  _setUpConvertArgs transform = concat (map spec_entry_tokens transform).
Proof.
  intros Hwf. exact (convert_args_from transform [] transform [] eq_refl Hwf).
Qed.

Lemma obj_wf_app {V} (o1 o2 : JsObject V) :
  obj_wf (o1 ++ o2) -> obj_wf o1 /\ obj_wf o2.
Proof.
  unfold obj_wf, obj_keys. rewrite map_app. intros Hnd.
  apply NoDup_app in Hnd as (H1 & _ & H2). done.
Qed.

Lemma without_format_wf (transform : TransformSpec) :
  obj_wf transform -> obj_wf (without_format transform).
Proof.
  unfold obj_wf, obj_keys, without_format.
  induction transform as [|[k v] t IH]; simpl; [done|].
  intros Hnd. apply NoDup_cons in Hnd as [Hk Hnd].
  destruct (negb (k =? "format")%string); simpl; [|by apply IH].
  apply NoDup_cons. split; [|by apply IH].
  intros Hin. apply Hk.
  apply list_elem_of_In, in_map_iff in Hin as ([k' v'] & Heq & Hin).
  simpl in Heq. subst k'. apply List.filter_In in Hin as [Hin _].
  apply list_elem_of_In, in_map_iff. by exists (k, v').
Qed.

(** X3. The arguments of a transform made of two parts are the arguments
    of the first part followed by those of the second: every option
    contributes its flag and values at its place, whatever stands around
    it. *)
Theorem setUpConvertArgs_app (t1 t2 : TransformSpec) :
  obj_wf (t1 ++ t2) ->
  _setUpConvertArgs (t1 ++ t2) = _setUpConvertArgs t1 ++ _setUpConvertArgs t2.
Proof.
  intros Hwf. destruct (obj_wf_app t1 t2 Hwf) as [H1 H2].
  rewrite !setUpConvertArgs_entries by done.
  by rewrite map_app, concat_app.
Qed.

(** X4. The [format] entry plays no part in the argument list: with it or
    without it, wherever it stands and whatever its value, the arguments
    are the same. *)
Theorem setUpConvertArgs_ignores_format (transform : TransformSpec) :
  obj_wf transform ->
  _setUpConvertArgs transform = _setUpConvertArgs (without_format transform).
Proof.
  intros Hwf.
  rewrite !setUpConvertArgs_entries by (done || by apply without_format_wf).
  clear Hwf. unfold without_format.
  induction transform as [|[k v] t IH]; simpl; [done|].
  unfold spec_entry_tokens at 1. simpl.
  destruct (String.eqb k "format") eqn:Hk; simpl; [exact IH|].
  unfold spec_entry_tokens at 2. simpl. rewrite Hk. simpl. by rewrite IH.
Qed.

(** X5. No flag [-format] is ever passed to the conversion: the token
    ["-format"] is in the argument list only if it is the value of some
    option. *)
Theorem setUpConvertArgs_no_format_flag (transform : TransformSpec) :
  obj_wf transform ->
  (forall k v, In (k, v) transform -> ~ In (AStr "-format") (value_atoms v)) ->
  ~ In (AStr "-format") (_setUpConvertArgs transform).
Proof.
  intros Hwf. rewrite setUpConvertArgs_entries by done. clear Hwf.
  induction transform as [|[k v] t IH]; simpl; intros Hvalues; [tauto|].
  rewrite in_app_iff. intros [Hin|Hin].
  - unfold spec_entry_tokens in Hin. simpl in Hin.
    destruct (String.eqb_spec k "format") as [->|Hne]; [done|].
    destruct Hin as [Hflag|Hin].
    + injection Hflag as Hflag. by apply Hne.
    + apply (Hvalues k v); [by left|]. by destruct v.
  - apply IH; [|done]. intros k' v' Hin'. apply (Hvalues k' v'). by right.
Qed.

Lemma small_finish_wf : obj_wf (Demo.small ++ Scenario.finish).
Proof. apply (bool_decide_unpack _). vm_compute. reflexivity. Qed.

Lemma setUpConvertArgs_app_witness :
  obj_wf (Demo.small ++ Scenario.finish)
  /\ _setUpConvertArgs (Demo.small ++ Scenario.finish)
     = _setUpConvertArgs Demo.small ++ _setUpConvertArgs Scenario.finish.
Proof.
  split; [exact small_finish_wf|].
  exact (setUpConvertArgs_app Demo.small Scenario.finish small_finish_wf).
Defined.

(** The two parts of the witness and their arguments. *)
Example small_finish_arguments :
  _setUpConvertArgs Demo.small = [AStr "-resize"; AStr "150x150"]
  /\ _setUpConvertArgs Scenario.finish
     = [AStr "-quality"; ANum 80; AStr "-gravity"; AStr "Center"]
  /\ _setUpConvertArgs (Demo.small ++ Scenario.finish)
     = [AStr "-resize"; AStr "150x150"; AStr "-quality"; ANum 80;
        AStr "-gravity"; AStr "Center"].
Proof. repeat split. Qed.

Lemma demo_small_wf : obj_wf Demo.small.
Proof. apply (bool_decide_unpack _). vm_compute. reflexivity. Qed.

Lemma setUpConvertArgs_ignores_format_witness :
  obj_wf Demo.small
  /\ _setUpConvertArgs Demo.small
     = _setUpConvertArgs (without_format Demo.small).
Proof.
  split; [exact demo_small_wf|].
  exact (setUpConvertArgs_ignores_format Demo.small demo_small_wf).
Defined.

Lemma demo_small_values (k : string) (v : Value) :
  In (k, v) Demo.small -> ~ In (AStr "-format") (value_atoms v).
Proof.
  intros [[= <- <-]|[[= <- <-]|[]]]; simpl; intros [?|[]]; discriminate.
Qed.

Lemma setUpConvertArgs_no_format_flag_witness :
  obj_wf Demo.small
  /\ (forall k v, In (k, v) Demo.small ->
                  ~ In (AStr "-format") (value_atoms v))
  /\ ~ In (AStr "-format") (_setUpConvertArgs Demo.small).
Proof.
  split; [exact demo_small_wf|]. split; [exact demo_small_values|].
  exact (setUpConvertArgs_no_format_flag Demo.small demo_small_wf
           demo_small_values).
Defined.

(** ** The constructor, further *)

(** X6. The outcomes of the constructor.  Options that are no object, or
    that carry no transforms, make it throw the message that says which,
    and nothing is written.  Otherwise the options object is completed
    to settings with the transforms it was given, and the constructor
    returns the processor exactly when [mkdirp.sync], called on the
    temporary directory of these settings, returns; when that throws,
    its exception is the constructor's. *)
Theorem constructor_outcome (pf : Platform) (options : nat) (h : Heap) :
  match h !! options with
  | None => constructor pf options h = (Threw "Some options are required!", h)
  | Some o =>
      match opt_transforms o with
      | None =>
          constructor pf options h
          = (Threw "Some transforms are required!", h)
      | Some t =>
          exists o' cfg,
            (constructor pf options h).2 !! options = Some o'
            /\ settings_of o' = Some cfg
            /\ transforms cfg = t
            /\ imageMagick cfg = opt_imageMagick o
            /\ (constructor pf options h).1
               = match mkdirp_sync pf (tmpDir cfg) with
                 | None => Returned {| c_this := {| _options := options |};
                                       c_mkdirp := tmpDir cfg |}
                 | Some msg => Threw msg
                 end
      end
  end.
Proof.
  destruct (h !! options) as [o|] eqn:Hh.
  2:{ unfold constructor. by rewrite Hh. }
  destruct (opt_transforms o) as [t|] eqn:Ht.
  2:{ unfold constructor. by rewrite Hh, Ht. }
  rewrite (constructor_on_options pf options h o t Hh Ht). cbn [fst snd].
  rewrite lookup_insert_eq.
  destruct o as [tr d f im]. simpl in *. subst tr.
  unfold tmpDir_falsy, formats_falsy. simpl.
  destruct d as [d|]; [destruct (String.eqb d "")|]; destruct f;
    simpl; eexists; eexists; (split; [reflexivity|]);
    (split; [reflexivity|]); by destruct (mkdirp_sync pf _).
Qed.

(** X7. Building a second processor on the options object of a first one
    changes nothing any more: it returns the same processor state, over
    the same heap, so processors may share one options object. *)
Theorem constructor_idempotent (pf : Platform) (options : nat) (h h' : Heap)
    (c : Constructed) :
  constructor pf options h = (Returned c, h') ->
  constructor pf options h' = (Returned c, h').
Proof.
  unfold constructor.
  destruct (h !! options) as [o|] eqn:Hh; [|done].
  destruct (opt_transforms o) as [t|] eqn:Ht; [|done].
  destruct (mkdirp_sync pf _) as [msg|] eqn:Hmk; [done|].
  intros [= <- <-]. cbn [_options] in *. rewrite lookup_insert_eq.
  revert Hmk.
  destruct o as [tr d f im]. simpl in *. subst tr.
  unfold tmpDir_falsy, formats_falsy, set_tmpDir, set_formats. simpl.
  destruct d as [d|]; [destruct (String.eqb d "") eqn:Hd|]; destruct f;
    simpl; rewrite ?Hd; simpl;
    try destruct (String.eqb (os_tmpdir pf) ""); simpl;
    intros ->; by rewrite ?insert_insert_eq.
Qed.

Lemma constructor_idempotent_witness :
  let h : Heap := {[ 7 := Demo.empty_tmpDir ]} in
  let h' : Heap := {[ 7 := set_tmpDir Demo.empty_tmpDir "/tmp" ]} in
  let c := {| c_this := {| _options := 7 |}; c_mkdirp := "/tmp" |} in
  constructor Demo.platform 7 h = (Returned c, h')
  /\ constructor Demo.platform 7 h' = (Returned c, h').
Proof.
  intros h h' c.
  assert (Hc : constructor Demo.platform 7 h = (Returned c, h')).
  { unfold constructor, h, h', c. simpl.
    by rewrite lookup_singleton_eq, !insert_singleton_eq. }
  split; [exact Hc|].
  exact (constructor_idempotent Demo.platform 7 h h' c Hc).
Defined.

(** ** process, further *)

Lemma proc_step_pending (env : Collaborators) (cfg : Settings)
    (attachment : Attachment) (i : nat) (st : ProcState) :
  Forall (fun u => u_state u = Pending) (p_units st) ->
  proc_step env cfg attachment i st = st.
Proof.
  intros Hpending. unfold proc_step.
  destruct (p_units st !! i) as [u|] eqn:Hu; [|done].
  rewrite Forall_forall in Hpending.
  assert (Hstate : u_state u = Pending)
    by (apply Hpending; by eapply list_elem_of_lookup_2).
  unfold unit_step. rewrite Hstate. simpl.
  rewrite set_state_same, app_nil_r, list_insert_id by done.
  by destruct st.
Qed.

Lemma run_schedule_pending (env : Collaborators) (cfg : Settings)
    (attachment : Attachment) (schedule : list nat) (st : ProcState) :
  Forall (fun u => u_state u = Pending) (p_units st) ->
  run_schedule env cfg attachment schedule st = st.
Proof.
  intros Hpending. unfold run_schedule.
  induction schedule as [|i schedule IH]; simpl; [done|].
  by rewrite proc_step_pending.
Qed.

Lemma ill_typed_extension (pf : Platform) (transform : TransformSpec)
    (attachment : Attachment) :
  well_typed_format transform = false ->
  exists msg,
    dotted_extension (supplied_extension pf transform attachment) = Threw msg.
Proof.
  unfold well_typed_format, supplied_extension.
  destruct (prop_value transform "format") as [[s|n|b|]|l]; simpl;
    try discriminate.
  - intros H. apply negb_false_iff in H. rewrite H. simpl. eauto.
  - intros H. apply negb_false_iff in H. rewrite H. simpl. eauto.
  - eauto.
Qed.

Lemma obj_get_in {V} (o : JsObject V) (k : string) (v : V) :
  obj_wf o -> In (k, v) o -> obj_get o k = Some v.
Proof.
  intros Hwf Hin. apply in_split in Hin as (pre & suf & ->).
  by apply obj_get_entry.
Qed.

(** The [forEach] of [process] stops at the first transform whose format
    is no extension, with the tasks before it pushed and none started. *)
Lemma push_tasks_throws (pf : Platform) (cfg : Settings)
    (attachment : Attachment) (names : list string) (g : Entropy)
    (tasks : list TransformUnit) (name : string) (t : TransformSpec) :
  In name names ->
  obj_get (transforms cfg) name = Some t ->
  well_typed_format t = false ->
  Forall (fun u => u_state u = Pending) tasks ->
  (push_tasks pf cfg attachment names g tasks).2 <> None
  /\ Forall (fun u => u_state u = Pending)
       (push_tasks pf cfg attachment names g tasks).1.
Proof.
  intros Hin Hget Hbad. revert g tasks.
  induction names as [|n names IH]; intros g tasks Hpending; [done|].
  cbn [push_tasks].
  destruct (obj_get (transforms cfg) n) as [tn|] eqn:Hn; [|done].
  destruct (dotted_extension (supplied_extension pf tn attachment))
    as [extension|msg] eqn:Hext; [|done].
  destruct (randomString 20 g) as [random20 g'].
  destruct Hin as [->|Hin].
  - rewrite Hget in Hn. injection Hn as <-.
    destruct (ill_typed_extension pf t attachment Hbad) as [msg Hmsg].
    congruence.
  - apply IH; [done|]. unfold push. apply Forall_app. split; [done|].
    by apply Forall_singleton.
Qed.

(** X8. When some transform has a [format] that is no string (a list, a
    number other than zero, [true]), a call of [process] on a supported
    source throws inside the callback of [identify]: no task is started,
    nothing but the [identify] of the source is called, the model is
    untouched, and [callback] is never invoked, whatever happens later. *)
Theorem process_throws_on_bad_format (env : Collaborators) (pf : Platform)
    (cfg : Settings) (attachment : Attachment) (model : Model) (g : Entropy)
    (a : Attributes) (name : string) (t : TransformSpec)
    (schedule : list nat) :
  gm_identify env (imageMagick cfg) (att_path attachment)
  = IdAttributes (Some a) ->
  In (attr_format a) (formats cfg) ->
  obj_wf (transforms cfg) ->
  In (name, t) (transforms cfg) ->
  well_typed_format t = false ->
  let st := run_schedule env cfg attachment schedule
              (process env pf cfg attachment model g) in
  p_thrown st <> None
  /\ p_report st = None
  /\ p_trace st = [EvIdentify (att_path attachment)]
  /\ p_model st = model
  /\ Forall (fun u => u_state u = Pending) (p_units st).
Proof.
  intros Hid Hin Hwf Hname Hbad st. subst st.
  assert (Hsup : unsupported cfg (Some a) = false).
  { unfold unsupported. apply negb_false_iff, existsb_exists.
    exists (attr_format a). split; [done | apply String.eqb_refl]. }
  destruct (push_tasks_throws pf cfg attachment (obj_keys (transforms cfg))
              g [] name t) as [Hthrown Hpending]; try done.
  { unfold obj_keys. apply in_map_iff. by exists (name, t). }
  { by apply obj_get_in. }
  unfold process. rewrite Hid, Hsup.
  destruct (push_tasks pf cfg attachment (obj_keys (transforms cfg)) g [])
    as [tasks [msg|]]; [|done].
  by rewrite run_schedule_pending.
Qed.

Lemma scenario_broken_wf : obj_wf (transforms Scenario.broken_settings).
Proof. apply (bool_decide_unpack _). vm_compute. reflexivity. Qed.

Lemma process_throws_on_bad_format_witness :
  gm_identify Demo.collaborators (imageMagick Scenario.broken_settings)
    (att_path Demo.cat) = IdAttributes (Some Demo.png)
  /\ In (attr_format Demo.png) (formats Scenario.broken_settings)
  /\ obj_wf (transforms Scenario.broken_settings)
  /\ In ("listed", Scenario.listed) (transforms Scenario.broken_settings)
  /\ well_typed_format Scenario.listed = false
  /\ let st := run_schedule Demo.collaborators Scenario.broken_settings
                 Demo.cat [0; 1; 0]
                 (process Demo.collaborators Demo.platform
                    Scenario.broken_settings Demo.cat Demo.model
                    Demo.entropy) in
     p_thrown st <> None
     /\ p_report st = None
     /\ p_trace st = [EvIdentify (att_path Demo.cat)]
     /\ p_model st = Demo.model
     /\ Forall (fun u => u_state u = Pending) (p_units st).
Proof.
  split; [reflexivity|]. split; [simpl; tauto|].
  split; [exact scenario_broken_wf|]. split; [simpl; tauto|].
  split; [reflexivity|].
  exact (process_throws_on_bad_format Demo.collaborators Demo.platform
           Scenario.broken_settings Demo.cat Demo.model Demo.entropy
           Demo.png "listed" Scenario.listed [0; 1; 0] eq_refl
           (or_intror (or_introl eq_refl)) scenario_broken_wf
           (or_intror (or_introl eq_refl)) eq_refl).
Defined.

(** X9. With no transform configured, [process] on a supported source
    calls back without error at once, having called nothing but the
    [identify] of the source and leaving the model as it was. *)
Theorem process_without_transforms (env : Collaborators) (pf : Platform)
    (cfg : Settings) (attachment : Attachment) (model : Model) (g : Entropy)
    (a : Attributes) (schedule : list nat) :
  transforms cfg = [] ->
  gm_identify env (imageMagick cfg) (att_path attachment)
  = IdAttributes (Some a) ->
  In (attr_format a) (formats cfg) ->
  let st := run_schedule env cfg attachment schedule
              (process env pf cfg attachment model g) in
  p_report st = Some None
  /\ p_units st = []
  /\ p_trace st = [EvIdentify (att_path attachment)]
  /\ p_model st = model.
Proof.
  intros Hnone Hid Hin st. subst st.
  assert (Hsup : unsupported cfg (Some a) = false).
  { unfold unsupported. apply negb_false_iff, existsb_exists.
    exists (attr_format a). split; [done | apply String.eqb_refl]. }
  unfold process. rewrite Hid, Hsup, Hnone. simpl.
  by rewrite run_schedule_no_units.
Qed.

Lemma process_without_transforms_witness :
  transforms Scenario.idle_settings = []
  /\ gm_identify Demo.collaborators (imageMagick Scenario.idle_settings)
       (att_path Demo.cat) = IdAttributes (Some Demo.png)
  /\ In (attr_format Demo.png) (formats Scenario.idle_settings)
  /\ let st := run_schedule Demo.collaborators Scenario.idle_settings
                 Demo.cat [0]
                 (process Demo.collaborators Demo.platform
                    Scenario.idle_settings Demo.cat Demo.model
                    Demo.entropy) in
     p_report st = Some None
     /\ p_units st = []
     /\ p_trace st = [EvIdentify (att_path Demo.cat)]
     /\ p_model st = Demo.model.
Proof.
  split; [reflexivity|]. split; [reflexivity|]. split; [simpl; tauto|].
  exact (process_without_transforms Demo.collaborators Demo.platform
           Scenario.idle_settings Demo.cat Demo.model Demo.entropy Demo.png
           [0] eq_refl eq_refl (or_intror (or_introl eq_refl))).
Defined.

(** ** The model during process *)

(** A callback keeps the unit consistent and its sub-record as the state
    of the unit says, and touches no other sub-record. *)
Lemma unit_step_model (env : Collaborators) (imageMagick : option bool)
    (attachment : Attachment) (u : TransformUnit) (m0 m : Model) :
  consistent env imageMagick attachment u ->
  record_of_unit env imageMagick attachment m0 m u ->
  let eff := unit_step env imageMagick attachment u m in
  let u' := set_state u (eff_state eff) in
  consistent env imageMagick attachment u'
  /\ record_of_unit env imageMagick attachment m0 (eff_model eff) u'
  /\ (forall k, k <> u_name u -> eff_model eff !! k = m !! k).
Proof.
  unfold consistent, record_of_unit, unit_step.
  destruct (u_state u) as [| | |a|a stats|a stats mimeType| | |] eqn:Hstate;
    simpl; rewrite ?Hstate; intros Hcons Hrec; auto.
  - destruct (gm_convert _ _ _ _ _) eqn:Hc; simpl; auto.
  - destruct (gm_identify _ _ _) eqn:Hi; simpl; auto.
  - destruct (fs_stat _ _) eqn:Hs; simpl; [auto|].
    destruct Hcons as (? & ?). auto 10.
  - destruct (magic_detectFile _ _) eqn:Hd; simpl; [auto|].
    destruct Hcons as (? & ? & ?). auto 10.
  - destruct (storage_save _ _) as [e|url] eqn:Hsv; simpl; [auto|].
    destruct Hcons as (Hc & Hi & Hs & Hd).
    destruct (final_callback_cases attachment u m a stats mimeType url)
      as [(r & a' & size & Hr & -> & Hsize & ->)
         | [(r & a' & Hr & -> & Hsize & ->) | [Hnone ->]]]; simpl.
    + assert (Hall : stages_succeeded env imageMagick attachment u
                       a' stats mimeType url) by done.
      split; [by exists a', stats, mimeType, url|].
      split; [|intros k Hk; by rewrite lookup_insert_ne].
      eexists r, _, a', size, stats, mimeType, url.
      split; [congruence|]. split; [exact Hall|]. split; [done|].
      split; [by rewrite lookup_insert_eq|]. apply inserted_results.
    + assert (Hall : stages_succeeded env imageMagick attachment u
                       a' stats mimeType url) by done.
      split; [done|].
      split; [|intros k Hk; by rewrite lookup_insert_ne].
      right. eexists r, _, a', stats, mimeType, url.
      split; [congruence|]. split; [exact Hall|]. split; [done|].
      split; [by rewrite lookup_insert_eq|].
      apply inserted_format_and_depth.
    + split; [done|]. split; [|done]. left. split; [|done].
      destruct Hnone as [Hr| ->]; [left; congruence | by right].
Qed.

Lemma proc_step_model (env : Collaborators) (cfg : Settings)
    (attachment : Attachment) (m0 : Model) (j : nat) (st : ProcState) :
  model_inv env (imageMagick cfg) attachment m0 st ->
  model_inv env (imageMagick cfg) attachment m0
    (proc_step env cfg attachment j st).
Proof.
  intros [Hnd Hframe Hunits].
  pose proof (proc_step_names env cfg attachment j st) as Hnames.
  unfold proc_step in *.
  destruct (p_units st !! j) as [uj|] eqn:Huj; [|by constructor].
  destruct (match eff_done _ with Some _ => _ | None => _ end).
  cbn [p_units p_model] in *.
  destruct (Hunits uj) as [Hcj Hrj]; [by eapply list_elem_of_lookup_2|].
  destruct (unit_step_model env (imageMagick cfg) attachment uj m0
              (p_model st) Hcj Hrj) as (Hcj' & Hrj' & Hothers).
  assert (Hin_j : In (u_name uj) (map u_name (p_units st))).
  { apply in_map, list_elem_of_In. by eapply list_elem_of_lookup_2. }
  assert (Hother : forall i u, i <> j -> p_units st !! i = Some u ->
                     u_name u <> u_name uj).
  { intros i u Hne Hu Heq. apply Hne.
    eapply NoDup_lookup; [exact Hnd| |].
    - change (map u_name ?l) with (u_name <$> l).
      by rewrite list_lookup_fmap, Hu.
    - change (map u_name ?l) with (u_name <$> l).
      by rewrite list_lookup_fmap, Huj, Heq. }
  constructor; cbn [p_units p_model].
  - by rewrite Hnames.
  - rewrite Hnames. intros k Hk.
    rewrite Hothers by (intros ->; by apply Hk). by apply Hframe.
  - intros u Hu. apply list_elem_of_lookup in Hu as [i Hu].
    destruct (decide (i = j)) as [->|Hne].
    + rewrite list_lookup_insert_eq in Hu by (by eapply lookup_lt_Some).
      by injection Hu as <-.
    + rewrite list_lookup_insert_ne in Hu by done.
      destruct (Hunits u) as [Hcu Hru]; [by eapply list_elem_of_lookup_2|].
      split; [done|].
      unfold record_of_unit in *.
      rewrite Hothers by (by eapply Hother). done.
Qed.

Lemma run_schedule_model (env : Collaborators) (cfg : Settings)
    (attachment : Attachment) (m0 : Model) (schedule : list nat)
    (st : ProcState) :
  model_inv env (imageMagick cfg) attachment m0 st ->
  model_inv env (imageMagick cfg) attachment m0
    (run_schedule env cfg attachment schedule st).
Proof.
  unfold run_schedule. revert st.
  induction schedule as [|j schedule IH]; intros st Hinv; [done|].
  cbn [fold_left]. by apply IH, proc_step_model.
Qed.

Lemma process_model_start (env : Collaborators) (pf : Platform)
    (cfg : Settings) (attachment : Attachment) (model : Model) (g : Entropy)
    (a : Attributes) :
  gm_identify env (imageMagick cfg) (att_path attachment)
  = IdAttributes (Some a) ->
  In (attr_format a) (formats cfg) ->
  Forall (fun kv => well_typed_format kv.2 = true) (transforms cfg) ->
  obj_wf (transforms cfg) ->
  model_inv env (imageMagick cfg) attachment model
    (process env pf cfg attachment model g).
Proof.
  intros Hid Hin Hwt Hwf.
  destruct (process_started env pf cfg attachment model g a Hid Hin Hwt)
    as (_ & Hnames & _ & Hmodel & Hstart).
  rewrite Forall_forall in Hstart.
  constructor.
  - by rewrite Hnames.
  - intros k _. by rewrite Hmodel.
  - intros u Hu. unfold consistent, record_of_unit.
    by rewrite (Hstart u Hu), Hmodel.
Qed.

(** X10. Through a call of [process] on a supported source, in every
    interleaving and at every moment: a sub-record of the model that is
    none of a configured transform is as it was.  The sub-record of a
    committed unit is what it was with the eight results of that unit's
    own stages in place.  The sub-record of a unit whose final callback
    threw is as it was when the sub-record is missing or [identify]
    yielded no attributes, and is what it was with [format] and [depth]
    overwritten when the attributes had no size.  The sub-record of every
    other unit, failed or under way, is as it was before the call.  A
    failure elsewhere neither undoes a commit nor touches another
    sub-record. *)
Theorem process_model_frame (env : Collaborators) (pf : Platform)
    (cfg : Settings) (attachment : Attachment) (model : Model) (g : Entropy)
    (a : Attributes) (schedule : list nat) :
  gm_identify env (imageMagick cfg) (att_path attachment)
  = IdAttributes (Some a) ->
  In (attr_format a) (formats cfg) ->
  Forall (fun kv => well_typed_format kv.2 = true) (transforms cfg) ->
  obj_wf (transforms cfg) ->
  let st := run_schedule env cfg attachment schedule
              (process env pf cfg attachment model g) in
  (forall k, ~ In k (obj_keys (transforms cfg)) ->
             p_model st !! k = model !! k)
  /\ forall u, u ∈ p_units st ->
       match u_state u with
       | Committed =>
           exists r r' a size stats mimeType url,
             model !! u_name u = Some r
             /\ stages_succeeded env (imageMagick cfg) attachment u
                  a stats mimeType url
             /\ attr_size a = Some size
             /\ p_model st !! u_name u = Some r'
             /\ holds_results attachment r r' a size stats mimeType url
       | Crashed =>
           ((model !! u_name u = None
             \/ gm_identify env (imageMagick cfg) (u_outputFile u)
                = IdAttributes None)
            /\ p_model st !! u_name u = model !! u_name u)
           \/ exists r r' a stats mimeType url,
                model !! u_name u = Some r
                /\ stages_succeeded env (imageMagick cfg) attachment u
                     a stats mimeType url
                /\ attr_size a = None
                /\ p_model st !! u_name u = Some r'
                /\ holds_format_and_depth r r' a
       | _ => p_model st !! u_name u = model !! u_name u
       end.
Proof.
  intros Hid Hin Hwt Hwf st.
  pose proof (process_model_start env pf cfg attachment model g a
                Hid Hin Hwt Hwf) as Hinv0.
  pose proof (run_schedule_model env cfg attachment model schedule _ Hinv0)
    as [Hnd Hframe Hunits].
  fold st in Hnd, Hframe, Hunits.
  destruct (process_started env pf cfg attachment model g a Hid Hin Hwt)
    as (_ & Hnames & _).
  split.
  - intros k Hk. apply Hframe. subst st.
    by rewrite run_schedule_names, Hnames.
  - intros u Hu. by destruct (Hunits u Hu) as [_ Hrec].
Qed.

Lemma process_model_frame_witness :
  gm_identify Demo.collaborators (imageMagick Demo.settings)
    (att_path Demo.cat) = IdAttributes (Some Demo.png)
  /\ In (attr_format Demo.png) (formats Demo.settings)
  /\ Forall (fun kv => well_typed_format kv.2 = true)
       (transforms Demo.settings)
  /\ obj_wf (transforms Demo.settings)
  /\ let st := run_schedule Demo.collaborators Demo.settings Demo.cat
                 [1; 1; 0; 1; 1; 1]
                 (process Demo.collaborators Demo.platform Demo.settings
                    Demo.cat Demo.model_small_stored Demo.entropy) in
     (forall k, ~ In k (obj_keys (transforms Demo.settings)) ->
                p_model st !! k = Demo.model_small_stored !! k)
     /\ forall u, u ∈ p_units st ->
          match u_state u with
          | Committed =>
              exists r r' a size stats mimeType url,
                Demo.model_small_stored !! u_name u = Some r
                /\ stages_succeeded Demo.collaborators
                     (imageMagick Demo.settings) Demo.cat u
                     a stats mimeType url
                /\ attr_size a = Some size
                /\ p_model st !! u_name u = Some r'
                /\ holds_results Demo.cat r r' a size stats mimeType url
          | Crashed =>
              ((Demo.model_small_stored !! u_name u = None
                \/ gm_identify Demo.collaborators (imageMagick Demo.settings)
                     (u_outputFile u) = IdAttributes None)
               /\ p_model st !! u_name u
                  = Demo.model_small_stored !! u_name u)
              \/ exists r r' a stats mimeType url,
                   Demo.model_small_stored !! u_name u = Some r
                   /\ stages_succeeded Demo.collaborators
                        (imageMagick Demo.settings) Demo.cat u
                        a stats mimeType url
                   /\ attr_size a = None
                   /\ p_model st !! u_name u = Some r'
                   /\ holds_format_and_depth r r' a
          | _ => p_model st !! u_name u = Demo.model_small_stored !! u_name u
          end.
Proof.
  split; [reflexivity|]. split; [simpl; tauto|].
  split; [exact demo_formats_usable|]. split; [exact demo_config_wf|].
  exact (process_model_frame Demo.collaborators Demo.platform Demo.settings
           Demo.cat Demo.model_small_stored Demo.entropy Demo.png
           [1; 1; 0; 1; 1; 1] eq_refl (or_intror (or_introl eq_refl))
           demo_formats_usable demo_config_wf).
Defined.

(** In the run of the witness the unit of [small] commits over the stored
    sub-record, whose url is replaced, while the others are under way and
    their sub-records untouched. *)
Example committed_over_stored :
  let st := run_schedule Demo.collaborators Demo.settings Demo.cat
              [1; 1; 0; 1; 1; 1]
              (process Demo.collaborators Demo.platform Demo.settings
                 Demo.cat Demo.model_small_stored Demo.entropy) in
  map u_state (p_units st) = [Inspecting; Committed; Converting]
  /\ (p_model st !! "small" ≫= (.!! "url"))
     = Some (AStr "s3://tmp/7da2c7ec11365b80a5ca.jpg")
  /\ p_model st !! "original" = Some ∅
  /\ p_model st !! "medium" = Some ∅.
Proof. repeat split; vm_compute; reflexivity. Qed.

(** With an [identify] that finds no geometry every final callback
    throws, and every sub-record is left with [format] and [depth]
    only. *)
Example half_written_records :
  let st := run_schedule Scenario.no_geometry Demo.settings Demo.cat
              [0; 1; 2; 0; 1; 2; 0; 1; 2; 0; 1; 2; 0; 1; 2]
              (process Scenario.no_geometry Demo.platform Demo.settings
                 Demo.cat Demo.model Demo.entropy) in
  map u_state (p_units st) = [Crashed; Crashed; Crashed]
  /\ p_report st = None
  /\ p_model st !! "medium"
     = Some {[ "format" := AStr "PNG"; "depth" := ANum 8 ]}.
Proof. repeat split; vm_compute; reflexivity. Qed.

(** ** Calls of the collaborators *)







(** In the worked run the three files are distinct, and each is converted
    into once and stored once. *)
Example distinct_files_stored_once :
  let st := run_schedule Demo.collaborators Demo.settings Demo.cat
              [0; 1; 2; 0; 1; 2; 0; 1; 2; 0; 1; 2; 0; 1; 2]
              (process Demo.collaborators Demo.platform Demo.settings
                 Demo.cat Demo.model Demo.entropy) in
  map u_outputFile (p_units st)
  = ["/tmp/0b30557a9fc4e90e3358.png"; "/tmp/7da2c7ec11365b80a5ca.jpg";
     "/tmp/ef14395e83a8cdf2173c.png"]
  /\ map (fun out => length (List.filter (converts_to out) (p_trace st)))
       (map u_outputFile (p_units st)) = [1; 1; 1]
  /\ map (fun out => length (List.filter (saves_of out) (p_trace st)))
       (map u_outputFile (p_units st)) = [1; 1; 1].
Proof. repeat split. Qed.

(** ** When nothing fails *)

Lemma unit_step_no_failure (env : Collaborators) (imageMagick : option bool)
    (attachment : Attachment) (u : TransformUnit) (m : Model) :
  never_fails env imageMagick ->
  is_failed u = false ->
  is_failed (set_state u (eff_state (unit_step env imageMagick attachment
                                       u m))) = false.
Proof.
  intros (Hc & Hi & Hs & Hd & Hsv). unfold unit_step, is_failed.
  destruct (u_state u) as [| | |a|a stats|a stats mimeType| | |] eqn:Hstate;
    simpl; rewrite ?Hstate; try done.
  - by rewrite Hc.
  - by destruct (Hi (u_outputFile u)) as [a ->].
  - by destruct (Hs (u_outputFile u)) as [stats ->].
  - by destruct (Hd (u_outputFile u)) as [mimeType ->].
  - destruct (Hsv {| blob_path := u_outputFile u;
                     blob_size := stats_size stats;
                     blob_type := mimeType |}) as [url ->].
    by destruct (final_callback_cases attachment u m a stats mimeType url)
      as [(? & ? & ? & _ & _ & _ & ->) | [(? & ? & _ & _ & _ & ->) | [_ ->]]].
Qed.

Lemma run_schedule_no_failure (env : Collaborators) (cfg : Settings)
    (attachment : Attachment) (schedule : list nat) (st : ProcState) :
  never_fails env (imageMagick cfg) ->
  Forall (fun u => is_failed u = false) (p_units st) ->
  Forall (fun u => is_failed u = false)
    (p_units (run_schedule env cfg attachment schedule st)).
Proof.
  intros Hnever. unfold run_schedule. revert st.
  induction schedule as [|j schedule IH]; intros st Hst; [done|].
  cbn [fold_left]. apply IH. unfold proc_step.
  destruct (p_units st !! j) as [uj|] eqn:Huj; [|done].
  destruct (match eff_done _ with Some _ => _ | None => _ end).
  cbn [p_units]. apply Forall_insert; [done|].
  apply unit_step_no_failure; [done|].
  rewrite Forall_forall in Hst. apply Hst. by eapply list_elem_of_lookup_2.
Qed.

(** X12. When no collaborator reports an error, [identify] describes
    every image in full (attributes, and a size among them), the source
    is supported, the formats are usable and the model has a sub-record
    per transform, then once every task has had its five callbacks, in
    any order, [process] has called back without error, there is one
    unit per transform, every unit is committed, and the sub-record of
    each is what it was with the eight results of the unit's own stages
    in place. *)
Theorem process_succeeds_when_nothing_fails (env : Collaborators)
    (pf : Platform) (cfg : Settings) (attachment : Attachment)
    (model : Model) (g : Entropy) (a : Attributes) (schedule : list nat) :
  never_fails env (imageMagick cfg) ->
  identify_complete env (imageMagick cfg) ->
  gm_identify env (imageMagick cfg) (att_path attachment)
  = IdAttributes (Some a) ->
  In (attr_format a) (formats cfg) ->
  Forall (fun kv => well_typed_format kv.2 = true) (transforms cfg) ->
  obj_wf (transforms cfg) ->
  (forall name, name ∈ obj_keys (transforms cfg) -> is_Some (model !! name)) ->
  (forall i, i < length (transforms cfg) -> 5 <= turns i schedule) ->
  let st := run_schedule env cfg attachment schedule
              (process env pf cfg attachment model g) in
  p_report st = Some None
  /\ map u_name (p_units st) = obj_keys (transforms cfg)
  /\ forall u, u ∈ p_units st ->
       u_state u = Committed
       /\ exists r r' a size stats mimeType url,
            model !! u_name u = Some r
            /\ stages_succeeded env (imageMagick cfg) attachment u
                 a stats mimeType url
            /\ attr_size a = Some size
            /\ p_model st !! u_name u = Some r'
            /\ holds_results attachment r r' a size stats mimeType url.
Proof.
  intros Hnever Hcontract Hid Hin Hwt Hwf Hrecords Hfair st.
  destruct (process_started env pf cfg attachment model g a Hid Hin Hwt)
    as (Hinv0 & Hnames0 & _ & _ & Hstart0).
  pose proof (fair_schedule_settles env pf cfg attachment model g a schedule
                Hid Hin Hwt Hcontract Hrecords Hfair) as Hsettled.
  fold st in Hsettled.
  assert (Hnofail : Forall (fun u => is_failed u = false) (p_units st)).
  { apply run_schedule_no_failure; [done|].
    eapply Forall_impl; [exact Hstart0|].
    intros u Hu. unfold is_failed. by rewrite Hu. }
  assert (Hcommitted : Forall (fun u => is_committed u = true) (p_units st)).
  { rewrite Forall_forall in Hsettled, Hnofail |- *. intros u Hu.
    specialize (Hsettled u Hu). specialize (Hnofail u Hu).
    unfold is_settled in Hsettled. rewrite Hnofail in Hsettled.
    by rewrite orb_false_r in Hsettled. }
  pose proof (run_schedule_inv env cfg attachment schedule _ Hinv0)
    as [Hcompleted Hfailed Hreport].
  fold st in Hcompleted, Hfailed, Hreport.
  split; [|split].
  - rewrite Hreport, Hcompleted.
    assert (Hnone : first_error (p_trace st) = None).
    { apply Hfailed. unfold count_failed. by apply count_none. }
    rewrite Hnone. unfold expected_report, count_committed.
    apply count_all in Hcommitted. by rewrite Hcommitted, Nat.eqb_refl.
  - subst st. by rewrite run_schedule_names.
  - intros u Hu.
    pose proof (process_model_start env pf cfg attachment model g a
                  Hid Hin Hwt Hwf) as Hm0.
    pose proof (run_schedule_model env cfg attachment model schedule _ Hm0)
      as [_ _ Hunits].
    fold st in Hunits.
    destruct (Hunits u Hu) as [_ Hrec]. unfold record_of_unit in Hrec.
    rewrite Forall_forall in Hcommitted. specialize (Hcommitted u Hu).
    unfold is_committed in Hcommitted.
    destruct (u_state u); try discriminate. done.
Qed.

Lemma scenario_reliable : never_fails Scenario.reliable None.
Proof. repeat split; intros; by eexists. Qed.

Lemma scenario_reliable_complete : identify_complete Scenario.reliable None.
Proof. intros p attributes [= <-]. by eexists _, _. Qed.

Lemma demo_model_records (name : string) :
  name ∈ obj_keys (transforms Demo.settings) -> is_Some (Demo.model !! name).
Proof.
  intros Hname. apply list_elem_of_In in Hname.
  destruct Hname as [<-|[<-|[<-|[]]]]; by eexists.
Qed.

Lemma round_robin_fair (i : nat) :
  i < length (transforms Demo.settings) ->
  5 <= turns i [0; 1; 2; 2; 1; 0; 0; 1; 2; 2; 1; 0; 0; 1; 2].
Proof.
  intros Hi. simpl in Hi.
  destruct i as [|[|[|i]]]; [vm_compute; lia..|lia].
Qed.

Lemma process_succeeds_when_nothing_fails_witness :
  never_fails Scenario.reliable (imageMagick Demo.settings)
  /\ identify_complete Scenario.reliable (imageMagick Demo.settings)
  /\ gm_identify Scenario.reliable (imageMagick Demo.settings)
       (att_path Demo.cat) = IdAttributes (Some Demo.png)
  /\ In (attr_format Demo.png) (formats Demo.settings)
  /\ Forall (fun kv => well_typed_format kv.2 = true)
       (transforms Demo.settings)
  /\ obj_wf (transforms Demo.settings)
  /\ (forall name, name ∈ obj_keys (transforms Demo.settings) ->
                   is_Some (Demo.model !! name))
  /\ (forall i, i < length (transforms Demo.settings) ->
                5 <= turns i [0; 1; 2; 2; 1; 0; 0; 1; 2; 2; 1; 0; 0; 1; 2])
  /\ let st := run_schedule Scenario.reliable Demo.settings Demo.cat
                 [0; 1; 2; 2; 1; 0; 0; 1; 2; 2; 1; 0; 0; 1; 2]
                 (process Scenario.reliable Demo.platform Demo.settings
                    Demo.cat Demo.model Demo.entropy) in
     p_report st = Some None
     /\ map u_name (p_units st) = obj_keys (transforms Demo.settings)
     /\ forall u, u ∈ p_units st ->
          u_state u = Committed
          /\ exists r r' a size stats mimeType url,
               Demo.model !! u_name u = Some r
               /\ stages_succeeded Scenario.reliable
                    (imageMagick Demo.settings) Demo.cat u
                    a stats mimeType url
               /\ attr_size a = Some size
               /\ p_model st !! u_name u = Some r'
               /\ holds_results Demo.cat r r' a size stats mimeType url.
Proof.
  split; [exact scenario_reliable|].
  split; [exact scenario_reliable_complete|]. split; [reflexivity|].
  split; [simpl; tauto|]. split; [exact demo_formats_usable|].
  split; [exact demo_config_wf|]. split; [exact demo_model_records|].
  split; [exact round_robin_fair|].
  exact (process_succeeds_when_nothing_fails Scenario.reliable Demo.platform
           Demo.settings Demo.cat Demo.model Demo.entropy Demo.png
           [0; 1; 2; 2; 1; 0; 0; 1; 2; 2; 1; 0; 0; 1; 2]
           scenario_reliable scenario_reliable_complete eq_refl
           (or_intror (or_introl eq_refl))
           demo_formats_usable demo_config_wf demo_model_records
           round_robin_fair).
Defined.

(** ** The aggregation of remove *)

Lemma tally_insert {A} (P : A -> bool) (l : list A) (i : nat) (x x' : A) :
  l !! i = Some x ->
  length (List.filter P (<[i := x']> l)) + (if P x then 1 else 0)
  = length (List.filter P l) + (if P x' then 1 else 0).
Proof.
  intros Hx.
  rewrite <- (take_drop_middle l i x Hx) at 2.
  rewrite insert_take_drop by (by eapply lookup_lt_Some).
  rewrite !List.filter_app, !length_app. simpl.
  destruct (P x), (P x'); simpl; lia.
Qed.

Lemma tally_below {A} (P : A -> bool) (l : list A) (i : nat) (x : A) :
  l !! i = Some x -> P x = false -> length (List.filter P l) < length l.
Proof.
  intros Hx HP.
  rewrite <- (take_drop_middle l i x Hx).
  rewrite !List.filter_app, !length_app. simpl. rewrite HP. simpl.
  pose proof (List.filter_length_le P (take i l)).
  pose proof (List.filter_length_le P (drop (S i) l)). lia.
Qed.

Lemma tally_all {A} (P : A -> bool) (l : list A) :
  length (List.filter P l) = length l <-> Forall (fun x => P x = true) l.
Proof.
  induction l as [|x l IH]; simpl; [by split|].
  pose proof (List.filter_length_le P l).
  destruct (P x) eqn:HP; simpl; split.
  - intros Hlen. apply Forall_cons_2; [done|]. apply IH. lia.
  - intros Hall. apply Forall_cons_1 in Hall as [_ Hall]. apply IH in Hall. lia.
  - lia.
  - intros Hall. apply Forall_cons_1 in Hall as [Hx _]. congruence.
Qed.

Lemma tally_none {A} (P : A -> bool) (l : list A) :
  length (List.filter P l) = 0 <-> Forall (fun x => P x = false) l.
Proof.
  induction l as [|x l IH]; simpl; [by split|].
  destruct (P x) eqn:HP; simpl; split.
  - lia.
  - intros Hall. apply Forall_cons_1 in Hall as [Hx _]. congruence.
  - intros Hlen. apply Forall_cons_2; [done|]. by apply IH.
  - intros Hall. apply Forall_cons_1 in Hall as [_ Hall]. by apply IH.
Qed.

Lemma remove_step_inv (env : Collaborators) (i : nat) (st : RemoveState) :
  remove_inv st -> remove_inv (remove_step env i st).
Proof.
  intros [Hstarted Hcompleted Hfailed Hreport]. unfold remove_step.
  rewrite Hstarted.
  destruct (r_tasks st !! i) as [t|] eqn:Ht; [|by constructor].
  destruct (rm_state t) eqn:Hstate; try by constructor.
  pose proof (tally_below is_removed _ _ _ Ht) as Hbelow.
  unfold is_removed at 1 in Hbelow. rewrite Hstate in Hbelow.
  specialize (Hbelow eq_refl).
  destruct (storage_remove env (rm_record t)) as [e|] eqn:Herr; simpl.
  - pose proof (tally_insert is_removed (r_tasks st) i t
                  {| rm_name := rm_name t; rm_record := rm_record t;
                     rm_state := RemoveFailed e |} Ht) as Hr.
    pose proof (tally_insert is_remove_failed (r_tasks st) i t
                  {| rm_name := rm_name t; rm_record := rm_record t;
                     rm_state := RemoveFailed e |} Ht) as Hf.
    assert (Hrt : is_removed t = false)
      by (unfold is_removed; by rewrite Hstate).
    assert (Hft : is_remove_failed t = false)
      by (unfold is_remove_failed; by rewrite Hstate).
    change (is_removed {| rm_name := rm_name t; rm_record := rm_record t;
                          rm_state := RemoveFailed e |}) with false in Hr.
    change (is_remove_failed
              {| rm_name := rm_name t; rm_record := rm_record t;
                 rm_state := RemoveFailed e |}) with true in Hf.
    rewrite Hrt in Hr. rewrite Hft in Hf.
    constructor; cbn [r_thrown r_completed r_tasks r_trace r_report];
      rewrite ?length_insert, ?first_error_app; cbn [first_error].
    + done.
    + lia.
    + destruct (first_error (r_trace st)); split; intros; (done || lia).
    + rewrite Hreport. unfold expected_report.
      destruct (first_error (r_trace st)); [done|].
      destruct (Nat.eqb_spec (r_completed st) (length (r_tasks st)));
        [lia|done].
  - pose proof (tally_insert is_removed (r_tasks st) i t
                  {| rm_name := rm_name t; rm_record := rm_record t;
                     rm_state := Removed |} Ht) as Hr.
    pose proof (tally_insert is_remove_failed (r_tasks st) i t
                  {| rm_name := rm_name t; rm_record := rm_record t;
                     rm_state := Removed |} Ht) as Hf.
    assert (Hrt : is_removed t = false)
      by (unfold is_removed; by rewrite Hstate).
    assert (Hft : is_remove_failed t = false)
      by (unfold is_remove_failed; by rewrite Hstate).
    change (is_removed {| rm_name := rm_name t; rm_record := rm_record t;
                          rm_state := Removed |}) with true in Hr.
    change (is_remove_failed
              {| rm_name := rm_name t; rm_record := rm_record t;
                 rm_state := Removed |}) with false in Hf.
    rewrite Hrt in Hr. rewrite Hft in Hf.
    constructor; cbn [r_thrown r_completed r_tasks r_trace r_report];
      rewrite ?length_insert, ?first_error_app; cbn [first_error].
    + done.
    + lia.
    + assert (Hsame : length (List.filter is_remove_failed
                        (<[i := {| rm_name := rm_name t;
                                   rm_record := rm_record t;
                                   rm_state := Removed |}]> (r_tasks st)))
                      = length (List.filter is_remove_failed (r_tasks st)))
        by lia.
      rewrite Hsame. revert Hfailed. by destruct (first_error (r_trace st)).
    + rewrite Hreport. unfold expected_report.
      destruct (first_error (r_trace st)); [by repeat case_match|].
      destruct (Nat.eqb_spec (r_completed st) (length (r_tasks st)));
        [lia|reflexivity].
Qed.

Lemma run_removals_inv (env : Collaborators) (schedule : list nat)
    (st : RemoveState) :
  remove_inv st -> remove_inv (run_removals env schedule st).
Proof.
  unfold run_removals. revert st.
  induction schedule as [|i schedule IH]; intros st Hinv; [done|].
  cbn [fold_left]. by apply IH, remove_step_inv.
Qed.

Lemma remove_started (cfg : Settings) (model : Model) :
  (forall name, name ∈ obj_keys (transforms cfg) -> is_Some (model !! name)) ->
  remove_inv (remove cfg model)
  /\ Forall (fun t => is_removing t = true) (r_tasks (remove cfg model)).
Proof.
  intros Hall. unfold remove. rewrite push_removals_complete by done.
  simpl.
  assert (Hremoving : Forall (fun t => is_removing t = true)
                        (omap (removal_of model) (obj_keys (transforms cfg)))).
  { apply Forall_forall. intros t Ht.
    apply list_elem_of_omap in Ht as (name & _ & Hname).
    unfold removal_of in Hname.
    destruct (model !! name) as [r|]; [|done].
    destruct (url_truthy r); [|done]. by injection Hname as <-. }
  split; [|done].
  assert (Hnone : forall P : RemovalTask -> bool,
            (forall t, is_removing t = true -> P t = false) ->
            length (List.filter P
                      (omap (removal_of model) (obj_keys (transforms cfg))))
            = 0).
  { intros P HP. apply tally_none. eapply Forall_impl; [exact Hremoving|].
    exact HP. }
  assert (Hfirst : first_error
                     (map (fun t => EvRemove (rm_name t) (rm_record t))
                        (omap (removal_of model)
                           (obj_keys (transforms cfg)))) = None).
  { generalize (omap (removal_of model) (obj_keys (transforms cfg))).
    by induction l. }
  constructor; simpl.
  - done.
  - rewrite Hnone; [done|]. intros t. unfold is_removing, is_removed.
    by destruct (rm_state t).
  - rewrite Hfirst, Hnone; [done|]. intros t.
    unfold is_removing, is_remove_failed. by destruct (rm_state t).
  - rewrite Hfirst. unfold expected_report. by rewrite Nat.eqb_sym.
Qed.

(** A removal that has had a callback, or had ended before, has ended. *)
Lemma run_removals_progress (env : Collaborators) (schedule : list nat)
    (st : RemoveState) (i : nat) (t : RemovalTask) :
  r_thrown st = None ->
  r_tasks st !! i = Some t ->
  exists t',
    r_tasks (run_removals env schedule st) !! i = Some t'
    /\ (is_removing t = false \/ 1 <= turns i schedule ->
        is_removing t' = false).
Proof.
  unfold run_removals. revert st t.
  induction schedule as [|j schedule IH]; intros st t Hstarted Ht.
  - exists t. split; [done|]. intros [H|H]; [done|].
    change (turns i []) with 0 in H. lia.
  - cbn [fold_left].
    assert (Hstep : exists t1,
              r_tasks (remove_step env j st) !! i = Some t1
              /\ r_thrown (remove_step env j st) = None
              /\ (is_removing t = false \/ i = j -> is_removing t1 = false)).
    { unfold remove_step. rewrite Hstarted.
      destruct (r_tasks st !! j) as [tj|] eqn:Htj.
      2:{ exists t. split; [done|]. split; [done|].
          intros [H| ->]; [done | congruence]. }
      destruct (rm_state tj) eqn:Hstate.
      - destruct (parallel_callback _ _ _ _) as [c r]. simpl.
        destruct (decide (i = j)) as [->|Hne].
        + rewrite list_lookup_insert_eq by (by eapply lookup_lt_Some).
          eexists. split; [done|]. split; [done|]. intros _.
          unfold is_removing. simpl.
          by destruct (storage_remove env (rm_record tj)).
        + rewrite list_lookup_insert_ne by done. exists t.
          split; [done|]. split; [done|]. intros [H|H]; done.
      - exists t. split; [done|]. split; [done|].
        intros [H| ->]; [done|]. unfold is_removing.
        assert (t = tj) as -> by congruence. by rewrite Hstate.
      - exists t. split; [done|]. split; [done|].
        intros [H| ->]; [done|]. unfold is_removing.
        assert (t = tj) as -> by congruence. by rewrite Hstate. }
    destruct Hstep as (t1 & Ht1 & Hstarted1 & Hended1).
    destruct (IH _ t1 Hstarted1 Ht1) as (t' & Ht' & Hended').
    exists t'. split; [done|]. intros Hcase. apply Hended'.
    rewrite turns_cons in Hcase.
    destruct (Nat.eqb_spec i j) as [->|Hne].
    + left. apply Hended1. by right.
    + destruct Hcase as [H|H]; [left; apply Hended1; by left | right; lia].
Qed.

Lemma run_removals_length (env : Collaborators) (schedule : list nat)
    (st : RemoveState) :
  length (r_tasks (run_removals env schedule st)) = length (r_tasks st).
Proof.
  unfold run_removals. revert st.
  induction schedule as [|j schedule IH]; intros st; [done|].
  cbn [fold_left]. rewrite IH. unfold remove_step.
  destruct (r_thrown st); [done|].
  destruct (r_tasks st !! j) as [tj|]; [|done].
  destruct (rm_state tj); try done.
  destruct (parallel_callback _ _ _ _). simpl. by rewrite length_insert.
Qed.

(** X13. On a model with a sub-record per transform, in every order in
    which the removals call back: [remove] has called back without error
    exactly when every removal it started has succeeded, and with an
    error exactly when that error is the first one a removal ended with;
    and once every removal has called back, [remove] has. *)
Theorem remove_reports_first_error (env : Collaborators) (cfg : Settings)
    (model : Model) (schedule : list nat) :
  (forall name, name ∈ obj_keys (transforms cfg) -> is_Some (model !! name)) ->
  let st := run_removals env schedule (remove cfg model) in
  (r_report st = Some None
   <-> Forall (fun t => is_removed t = true) (r_tasks st))
  /\ (forall e, r_report st = Some (Some e)
                <-> first_error (r_trace st) = Some e)
  /\ ((forall i, i < length (r_tasks st) -> 1 <= turns i schedule) ->
      Forall (fun t => is_removing t = false) (r_tasks st)
      /\ r_report st <> None).
Proof.
  intros Hall st.
  destruct (remove_started cfg model Hall) as [Hinv0 Hremoving0].
  pose proof (run_removals_inv env schedule _ Hinv0)
    as [Hstarted Hcompleted Hfailed Hreport].
  fold st in Hstarted, Hcompleted, Hfailed, Hreport.
  assert (Hsuccess : r_report st = Some None
                     <-> Forall (fun t => is_removed t = true) (r_tasks st)).
  { rewrite Hreport, Hcompleted. unfold expected_report.
    rewrite <- tally_all. split.
    - destruct (first_error (r_trace st)); [done|].
      by destruct (Nat.eqb_spec (length (List.filter is_removed (r_tasks st)))
                     (length (r_tasks st))).
    - intros Hlen.
      assert (Hnone : first_error (r_trace st) = None).
      { apply Hfailed, tally_none. apply tally_all in Hlen.
        eapply Forall_impl; [exact Hlen|].
        intros t. unfold is_removed, is_remove_failed.
        by destruct (rm_state t). }
      by rewrite Hnone, Hlen, Nat.eqb_refl. }
  split; [exact Hsuccess|]. split.
  - intros e. rewrite Hreport. unfold expected_report.
    destruct (first_error (r_trace st)) as [e'|].
    + split; congruence.
    + by destruct (Nat.eqb (r_completed st) (length (r_tasks st))).
  - intros Hfair.
    assert (Hended : Forall (fun t => is_removing t = false) (r_tasks st)).
    { apply Forall_forall. intros t' Ht'.
      apply list_elem_of_lookup in Ht' as [i Ht'].
      assert (Hi : i < length (r_tasks st)) by (by eapply lookup_lt_Some).
      assert (Hi0 : i < length (r_tasks (remove cfg model))).
      { subst st. by rewrite run_removals_length in Hi. }
      destruct (lookup_lt_is_Some_2 _ _ Hi0) as [t Ht].
      destruct (run_removals_progress env schedule (remove cfg model) i t)
        as (t1 & Ht1 & Hend); [by destruct Hinv0 | done |].
      fold st in Ht1. assert (t1 = t') as -> by congruence.
      apply Hend. right. by apply Hfair. }
    split; [exact Hended|].
    destruct (first_error (r_trace st)) as [e|] eqn:Hfirst.
    + by rewrite Hreport.
    + assert (Hok : r_report st = Some None); [|by rewrite Hok].
      apply Hsuccess. pose proof (proj1 Hfailed eq_refl) as Hzero.
      apply tally_none in Hzero.
      rewrite Forall_forall in Hended, Hzero |- *.
      intros t Ht. specialize (Hended t Ht). specialize (Hzero t Ht).
      unfold is_removing, is_remove_failed, is_removed in *.
      by destruct (rm_state t).
Qed.

Lemma remove_reports_first_error_witness :
  (forall name, name ∈ obj_keys (transforms Demo.settings) ->
                is_Some (Demo.model_small_stored !! name))
  /\ let st := run_removals Scenario.read_only [0]
                 (remove Demo.settings Demo.model_small_stored) in
     (r_report st = Some None
      <-> Forall (fun t => is_removed t = true) (r_tasks st))
     /\ (forall e, r_report st = Some (Some e)
                   <-> first_error (r_trace st) = Some e)
     /\ ((forall i, i < length (r_tasks st) -> 1 <= turns i [0]) ->
         Forall (fun t => is_removing t = false) (r_tasks st)
         /\ r_report st <> None).
Proof.
  split; [exact demo_model_complete|].
  exact (remove_reports_first_error Scenario.read_only Demo.settings
           Demo.model_small_stored [0] demo_model_complete).
Defined.

(** ** Missing sub-records *)

Lemma push_removals_thrown (model : Model) (names : list string)
    (tasks : list RemovalTask) :
  (push_removals model names tasks).2 <> None
  <-> exists name, In name names /\ model !! name = None.
Proof.
  revert tasks. induction names as [|name names IH]; intros tasks; simpl.
  - split; [done | by intros (? & [] & _)].
  - destruct (model !! name) as [record|] eqn:Hrec.
    + assert (Hrest : forall tasks',
                (push_removals model names tasks').2 <> None
                <-> exists n, (name = n \/ In n names) /\ model !! n = None).
      { intros tasks'. rewrite IH. split.
        - intros (n & Hn & Hnone). exists n. auto.
        - intros (n & [<-|Hn] & Hnone); [congruence|]. by exists n. }
      destruct (negb (url_truthy record)); apply Hrest.
    + simpl. split; [|done]. intros _. exists name. auto.
Qed.

Lemma run_removals_thrown (env : Collaborators) (schedule : list nat)
    (st : RemoveState) :
  r_thrown st <> None -> run_removals env schedule st = st.
Proof.
  intros Hthrown. unfold run_removals.
  induction schedule as [|i schedule IH]; simpl; [done|].
  unfold remove_step at 2. by destruct (r_thrown st).
Qed.

Lemma run_removals_not_thrown (env : Collaborators) (schedule : list nat)
    (st : RemoveState) :
  r_thrown st = None -> r_thrown (run_removals env schedule st) = None.
Proof.
  unfold run_removals. revert st.
  induction schedule as [|i schedule IH]; intros st Hr; [done|].
  cbn [fold_left]. apply IH.
  unfold remove_step. rewrite Hr.
  destruct (r_tasks st !! i) as [t|]; [|done].
  destruct (rm_state t); try done.
  by destruct (parallel_callback _ _ _ _).
Qed.

(** X14. [remove] throws exactly when the model lacks the sub-record of
    some configured transform, and then it has called the provider for no
    sub-record at all, not even for the stored ones that come before the
    missing one, and never calls back. *)
Theorem remove_throws_iff_record_missing (env : Collaborators)
    (cfg : Settings) (model : Model) (schedule : list nat) :
  let st := run_removals env schedule (remove cfg model) in
  (r_thrown st <> None
   <-> exists name, In name (obj_keys (transforms cfg))
                    /\ model !! name = None)
  /\ (r_thrown st <> None -> r_trace st = [] /\ r_report st = None).
Proof.
  intros st.
  pose proof (push_removals_thrown model (obj_keys (transforms cfg)) [])
    as Hthrown.
  assert (Hstart : r_thrown (remove cfg model)
                   = (push_removals model (obj_keys (transforms cfg)) []).2
                   /\ (r_thrown (remove cfg model) <> None ->
                       r_trace (remove cfg model) = []
                       /\ r_report (remove cfg model) = None)).
  { unfold remove.
    by destruct (push_removals model (obj_keys (transforms cfg)) [])
      as [tasks [msg|]]. }
  destruct Hstart as [Hsame Hquiet].
  destruct (r_thrown (remove cfg model)) as [msg|] eqn:Hr.
  - assert (Hst : st = remove cfg model).
    { subst st. apply run_removals_thrown. by rewrite Hr. }
    rewrite Hst, Hr. split; [|by intros _; apply Hquiet].
    rewrite <- Hthrown, <- Hsame. done.
  - assert (Hnone : r_thrown st = None).
    { subst st. by apply run_removals_not_thrown. }
    rewrite Hnone. split; [|done].
    rewrite <- Hthrown, <- Hsame. done.
Qed.

Lemma willOverwrite_thrown (model : Model) (names : list string)
    (msg : string) :
  fold_left
    (fun result name =>
       match result with
       | Threw msg => Threw msg
       | Returned _ =>
           match model !! name with
           | None => Threw "Cannot read properties of undefined"
           | Some record => Returned (url_truthy record)
           end
       end)
    names (Threw msg)
  = @Threw bool msg.
Proof. induction names as [|name names IH]; simpl; [done | exact IH]. Qed.

(** X15. [willOverwrite] returns a boolean exactly when the model has a
    sub-record for every configured transform; a missing one, wherever it
    stands, makes it throw. *)
Theorem willOverwrite_returns_iff_records (cfg : Settings) (model : Model) :
  (exists b, willOverwrite cfg model = Returned b)
  <-> forall name, In name (obj_keys (transforms cfg)) ->
                   is_Some (model !! name).
Proof.
  unfold willOverwrite.
  remember (Returned false) as start eqn:Hstart.
  assert (Hreturned : exists b, start = Returned b) by (subst; by eexists).
  clear Hstart. revert start Hreturned.
  induction (obj_keys (transforms cfg)) as [|name names IH];
    intros start [b ->]; cbn [fold_left].
  - split; [by intros _ ? [] | by exists b].
  - destruct (model !! name) as [record|] eqn:Hrec.
    + rewrite IH by (by eexists). split.
      * intros Hall n [<-|Hn]; [by eexists | by apply Hall].
      * intros Hall n Hn. apply Hall. by right.
    + rewrite willOverwrite_thrown. split.
      * by intros [b' Hb'].
      * intros Hall. destruct (Hall name) as [r Hr]; [by left|]. congruence.
Qed.

(** ** A transform without sub-record *)

Lemma unit_step_stored (env : Collaborators) (imageMagick : option bool)
    (attachment : Attachment) (u : TransformUnit) (m : Model) :
  let eff := unit_step env imageMagick attachment u m in
  stored_out (set_state u (eff_state eff)) = true ->
  stored_out u = true
  \/ exists blob, blob_path blob = u_outputFile u
                  /\ In (EvSave blob) (eff_events eff).
Proof.
  unfold unit_step, stored_out.
  destruct (u_state u) as [| | |a|a stats|a stats mimeType| | |] eqn:Hstate;
    simpl; rewrite ?Hstate; auto.
  - by destruct (gm_convert _ _ _ _ _).
  - by destruct (gm_identify _ _ _).
  - by destruct (fs_stat _ _).
  - destruct (magic_detectFile _ _) as [e|mimeType]; simpl; [done|].
    intros _. right. eexists. split; [|left; reflexivity]. done.
Qed.

Lemma run_schedule_stored (env : Collaborators) (cfg : Settings)
    (attachment : Attachment) (schedule : list nat) (st : ProcState) :
  (forall u, u ∈ p_units st -> stored_out u = true ->
     exists blob, blob_path blob = u_outputFile u
                  /\ In (EvSave blob) (p_trace st)) ->
  forall u, u ∈ p_units (run_schedule env cfg attachment schedule st) ->
    stored_out u = true ->
    exists blob,
      blob_path blob = u_outputFile u
      /\ In (EvSave blob)
           (p_trace (run_schedule env cfg attachment schedule st)).
Proof.
  unfold run_schedule. revert st.
  induction schedule as [|j schedule IH]; intros st Hst; [done|].
  cbn [fold_left]. apply IH. clear IH. unfold proc_step.
  destruct (p_units st !! j) as [uj|] eqn:Huj; [|done].
  destruct (match eff_done _ with Some _ => _ | None => _ end).
  cbn [p_units p_trace]. intros u Hu Hstored.
  apply list_elem_of_lookup in Hu as [i Hu].
  destruct (decide (i = j)) as [->|Hne].
  - rewrite list_lookup_insert_eq in Hu by (by eapply lookup_lt_Some).
    injection Hu as <-.
    destruct (unit_step_stored env (imageMagick cfg) attachment uj
                (p_model st) Hstored) as [Hbefore | (blob & Hpath & Hblob)].
    + destruct (Hst uj) as (blob & Hpath & Hblob);
        [by eapply list_elem_of_lookup_2 | done |].
      exists blob. split; [done|]. apply in_or_app. by left.
    + exists blob. split; [done|]. apply in_or_app. by right.
  - rewrite list_lookup_insert_ne in Hu by done.
    destruct (Hst u) as (blob & Hpath & Hblob);
      [by eapply list_elem_of_lookup_2 | done |].
    exists blob. split; [done|]. apply in_or_app. by left.
Qed.

Lemma unit_step_advances (env : Collaborators) (imageMagick : option bool)
    (attachment : Attachment) (u : TransformUnit) (m : Model) :
  never_fails env imageMagick ->
  is_started u = true ->
  Nat.min 6 (S (stage_rank (u_state u)))
  <= stage_rank (eff_state (unit_step env imageMagick attachment u m)).
Proof.
  intros (Hc & Hi & Hs & Hd & Hsv). unfold unit_step, is_started.
  destruct (u_state u) as [| | |a|a stats|a stats mimeType| | |] eqn:Hstate;
    simpl; rewrite ?Hstate; simpl; try done; try lia.
  - rewrite Hc. simpl. lia.
  - destruct (Hi (u_outputFile u)) as [a ->]. simpl. lia.
  - destruct (Hs (u_outputFile u)) as [stats ->]. simpl. lia.
  - destruct (Hd (u_outputFile u)) as [mimeType ->]. simpl. lia.
  - destruct (Hsv {| blob_path := u_outputFile u;
                     blob_size := stats_size stats;
                     blob_type := mimeType |}) as [url ->].
    destruct (final_callback_cases attachment u m a stats mimeType url)
      as [(? & ? & ? & _ & _ & _ & ->) | [(? & ? & _ & _ & _ & ->) | [_ ->]]];
      simpl; lia.
Qed.

Lemma run_schedule_advances (env : Collaborators) (cfg : Settings)
    (attachment : Attachment) (schedule : list nat) (st : ProcState)
    (i : nat) (u : TransformUnit) :
  never_fails env (imageMagick cfg) ->
  p_units st !! i = Some u ->
  is_started u = true ->
  exists u',
    p_units (run_schedule env cfg attachment schedule st) !! i = Some u'
    /\ Nat.min 6 (stage_rank (u_state u) + turns i schedule)
       <= stage_rank (u_state u').
Proof.
  intros Hnever. unfold run_schedule. revert st u.
  induction schedule as [|j schedule IH]; intros st u Hu Hstarted.
  - exists u. split; [done|]. change (turns i []) with 0. lia.
  - cbn [fold_left]. rewrite turns_cons.
    assert (Hstep : exists u1,
              p_units (proc_step env cfg attachment j st) !! i = Some u1
              /\ is_started u1 = true
              /\ Nat.min 6 (stage_rank (u_state u)
                            + (if Nat.eqb i j then 1 else 0))
                 <= stage_rank (u_state u1)).
    { unfold proc_step.
      destruct (p_units st !! j) as [uj|] eqn:Huj.
      2:{ exists u. split; [done|]. split; [done|].
          destruct (Nat.eqb_spec i j) as [->|_]; [congruence | lia]. }
      destruct (match eff_done _ with Some _ => _ | None => _ end).
      cbn [p_units].
      destruct (Nat.eqb_spec i j) as [->|Hne].
      - rewrite list_lookup_insert_eq by (by eapply lookup_lt_Some).
        assert (uj = u) as -> by congruence.
        pose proof (unit_step_advances env (imageMagick cfg) attachment u
                      (p_model st) Hnever Hstarted) as Hrank.
        eexists. split; [done|]. cbn [set_state u_state].
        split; [|lia].
        unfold is_started in *. cbn [u_state].
        destruct (eff_state _); try done.
        simpl in Hrank. destruct (u_state u); simpl in Hrank; done || lia.
      - rewrite list_lookup_insert_ne by done.
        exists u. split; [done|]. split; [done|]. lia. }
    destruct Hstep as (u1 & Hu1 & Hstarted1 & Hrank1).
    destruct (IH _ u1 Hu1 Hstarted1) as (u' & Hu' & Hrank').
    exists u'. split; [done|].
    destruct (Nat.eqb i j); lia.
Qed.

(** X16. A configured transform whose sub-record is missing from the model
    keeps [process] from ever reporting success, whatever the order of the
    callbacks, and no sub-record appears for it.  When moreover no
    collaborator fails, the callback of [process] is never called at all,
    although the unit, once it has had its five callbacks, has handed its
    output file to the storage provider: the final callback has thrown
    after the save. *)
Theorem process_missing_record (env : Collaborators) (pf : Platform)
    (cfg : Settings) (attachment : Attachment) (model : Model) (g : Entropy)
    (a : Attributes) (name : string) (schedule : list nat) :
  gm_identify env (imageMagick cfg) (att_path attachment)
  = IdAttributes (Some a) ->
  In (attr_format a) (formats cfg) ->
  Forall (fun kv => well_typed_format kv.2 = true) (transforms cfg) ->
  obj_wf (transforms cfg) ->
  In name (obj_keys (transforms cfg)) ->
  model !! name = None ->
  let st := run_schedule env cfg attachment schedule
              (process env pf cfg attachment model g) in
  p_report st <> Some None
  /\ p_model st !! name = None
  /\ (never_fails env (imageMagick cfg) ->
      p_report st = None
      /\ forall i u,
           p_units st !! i = Some u -> u_name u = name ->
           5 <= turns i schedule ->
           u_state u = Crashed
           /\ exists blob, blob_path blob = u_outputFile u
                           /\ In (EvSave blob) (p_trace st)).
Proof.
  intros Hid Hin Hwt Hwf Hname Hmissing st.
  destruct (process_started env pf cfg attachment model g a Hid Hin Hwt)
    as (Hinv0 & Hnames0 & _ & _ & Hstart0).
  pose proof (process_model_start env pf cfg attachment model g a
                Hid Hin Hwt Hwf) as Hminv0.
  pose proof (run_schedule_model env cfg attachment model schedule _ Hminv0)
    as [_ _ Hunits].
  pose proof (run_schedule_inv env cfg attachment schedule _ Hinv0)
    as [Hcompleted Hfailed Hreport].
  pose proof (run_schedule_names env cfg attachment schedule
                (process env pf cfg attachment model g)) as Hnames.
  rewrite Hnames0 in Hnames.
  fold st in Hunits, Hcompleted, Hfailed, Hreport, Hnames.
  assert (Hnot : forall u, u ∈ p_units st -> u_name u = name ->
                   is_committed u = false
                   /\ p_model st !! name = None).
  { intros u Hu Hn. destruct (Hunits u Hu) as [_ Hrec].
    unfold record_of_unit in Hrec. rewrite Hn in Hrec.
    unfold is_committed. destruct (u_state u); try by rewrite Hrec.
    - destruct Hrec as (r & ? & ? & ? & ? & ? & ? & Hr & _). congruence.
    - destruct Hrec as [[_ Hrec] | (r & ? & ? & ? & ? & ? & Hr & _)];
        [by rewrite Hrec | congruence]. }
  assert (Hunit : exists i u, p_units st !! i = Some u /\ u_name u = name).
  { rewrite <- Hnames in Hname. apply in_map_iff in Hname as (u & Hn & Hu).
    apply list_elem_of_In, list_elem_of_lookup in Hu as [i Hu]. by exists i, u. }
  destruct Hunit as (i0 & u0 & Hu0 & Hn0).
  destruct (Hnot u0) as [Hc0 Hm0]; [by eapply list_elem_of_lookup_2 | done |].
  assert (Hbelow : p_completed st <> length (p_units st)).
  { rewrite Hcompleted. unfold count_committed.
    pose proof (count_below is_committed (p_units st) i0 u0 Hu0 Hc0). lia. }
  apply Nat.eqb_neq in Hbelow.
  split; [|split; [done|]].
  - rewrite Hreport. unfold expected_report.
    destruct (first_error (p_trace st)); [done|]. by rewrite Hbelow.
  - intros Hnever.
    assert (Hstarted0 : Forall (fun u => is_failed u = false)
                          (p_units (process env pf cfg attachment model g))).
    { eapply Forall_impl; [exact Hstart0|].
      intros u Hu. unfold is_failed. by rewrite Hu. }
    pose proof (run_schedule_no_failure env cfg attachment schedule _
                  Hnever Hstarted0) as Hnofail.
    fold st in Hnofail.
    split.
    { rewrite Hreport. unfold expected_report.
      assert (first_error (p_trace st) = None) as ->.
      { apply Hfailed. unfold count_failed. by apply count_none. }
      by rewrite Hbelow. }
    intros i u Hu Hn Hturns.
    assert (Hi : i < length (p_units (process env pf cfg attachment model g))).
    { apply lookup_lt_Some in Hu.
      assert (Hlen : length (p_units st)
                     = length (p_units (process env pf cfg attachment
                                          model g))).
      { rewrite <- (length_map u_name (p_units st)), Hnames, <- Hnames0.
        by rewrite length_map. }
      lia. }
    apply lookup_lt_is_Some in Hi as [u1 Hu1].
    assert (Hconv : u_state u1 = Converting).
    { rewrite Forall_forall in Hstart0. apply Hstart0.
      by eapply list_elem_of_lookup_2. }
    destruct (run_schedule_advances env cfg attachment schedule _ i u1
                Hnever Hu1) as (u' & Hu' & Hrank).
    { unfold is_started. by rewrite Hconv. }
    fold st in Hu'. assert (u' = u) as -> by congruence.
    assert (Hsix : 6 <= stage_rank (u_state u)).
    { rewrite Hconv in Hrank. cbn [stage_rank] in Hrank. lia. }
    assert (Hu_in : u ∈ p_units st) by (by eapply list_elem_of_lookup_2).
    destruct (Hnot u Hu_in Hn) as [Hcu _].
    rewrite Forall_forall in Hnofail. specialize (Hnofail u Hu_in).
    assert (Hcrashed : u_state u = Crashed).
    { unfold is_committed in Hcu. unfold is_failed in Hnofail.
      destruct (u_state u); cbn [stage_rank] in Hsix; try done; lia. }
    split; [done|].
    apply (run_schedule_stored env cfg attachment schedule
             (process env pf cfg attachment model g)); [|done|].
    + intros v Hv Hstored. rewrite Forall_forall in Hstart0.
      unfold stored_out in Hstored. rewrite (Hstart0 v Hv) in Hstored.
      discriminate.
    + unfold stored_out. by rewrite Hcrashed.
Qed.

Lemma process_missing_record_witness :
  gm_identify Scenario.reliable (imageMagick Demo.settings)
    (att_path Demo.cat) = IdAttributes (Some Demo.png)
  /\ In (attr_format Demo.png) (formats Demo.settings)
  /\ Forall (fun kv => well_typed_format kv.2 = true)
       (transforms Demo.settings)
  /\ obj_wf (transforms Demo.settings)
  /\ In "medium" (obj_keys (transforms Demo.settings))
  /\ Scenario.model_without_medium !! "medium" = None
  /\ let st := run_schedule Scenario.reliable Demo.settings Demo.cat
                 [0; 1; 2; 2; 1; 0; 0; 1; 2; 2; 1; 0; 0; 1; 2]
                 (process Scenario.reliable Demo.platform Demo.settings
                    Demo.cat Scenario.model_without_medium Demo.entropy) in
     p_report st <> Some None
     /\ p_model st !! "medium" = None
     /\ (never_fails Scenario.reliable (imageMagick Demo.settings) ->
         p_report st = None
         /\ forall i u,
              p_units st !! i = Some u -> u_name u = "medium" ->
              5 <= turns i [0; 1; 2; 2; 1; 0; 0; 1; 2; 2; 1; 0; 0; 1; 2] ->
              u_state u = Crashed
              /\ exists blob, blob_path blob = u_outputFile u
                              /\ In (EvSave blob) (p_trace st)).
Proof.
  split; [reflexivity|]. split; [simpl; tauto|].
  split; [exact demo_formats_usable|]. split; [exact demo_config_wf|].
  split; [simpl; tauto|]. split; [reflexivity|].
  exact (process_missing_record Scenario.reliable Demo.platform
           Demo.settings Demo.cat Scenario.model_without_medium Demo.entropy
           Demo.png "medium"
           [0; 1; 2; 2; 1; 0; 0; 1; 2; 2; 1; 0; 0; 1; 2]
           eq_refl (or_intror (or_introl eq_refl))
           demo_formats_usable demo_config_wf
           (or_intror (or_intror (or_introl eq_refl))) eq_refl).
Defined.

(** ** The schema *)

Lemma createFieldSchema_from (base : FieldSchema) (names : list string)
    (output : gmap string FieldSchema) (name : string) :
  fold_left (fun output name => <[name := image_fields base]> output)
    names output !! name
  = if bool_decide (name ∈ names) then Some (image_fields base)
    else output !! name.
Proof.
  revert output. induction names as [|n names IH]; intros output;
    cbn [fold_left].
  - by rewrite bool_decide_eq_false_2 by apply not_elem_of_nil.
  - rewrite IH. destruct (decide (name ∈ names)) as [Hin|Hout].
    + rewrite !bool_decide_eq_true_2; [done | by apply list_elem_of_further | done].
    + rewrite (bool_decide_eq_false_2 _ Hout).
      destruct (decide (n = name)) as [->|Hne].
      * rewrite lookup_insert_eq.
        by rewrite bool_decide_eq_true_2 by apply list_elem_of_here.
      * rewrite lookup_insert_ne by done.
        rewrite bool_decide_eq_false_2; [done|].
        rewrite elem_of_cons. by intros [?|?].
Qed.

(** X17. The schema of [createFieldSchema] has an entry for a name exactly
    when the name is a configured transform.  Each entry declares [format]
    as String and [depth], [width] and [height] as Number, whatever the
    schema of the file processor says of them, and every other field as
    the file processor does. *)
Theorem createFieldSchema_declares (base : FieldSchema) (cfg : Settings)
    (name : string) :
  (createFieldSchema base cfg !! name = None
   <-> ~ In name (obj_keys (transforms cfg)))
  /\ forall entry, createFieldSchema base cfg !! name = Some entry ->
       entry !! "format" = Some TString
       /\ entry !! "depth" = Some TNumber
       /\ entry !! "width" = Some TNumber
       /\ entry !! "height" = Some TNumber
       /\ forall field, ~ In field image_field_names ->
                        entry !! field = base !! field.
Proof.
  unfold createFieldSchema. rewrite createFieldSchema_from.
  destruct (decide (name ∈ obj_keys (transforms cfg))) as [Hin|Hout].
  - rewrite (bool_decide_eq_true_2 _ Hin). apply list_elem_of_In in Hin.
    split; [by split|].
    intros entry [= <-]. unfold image_fields, image_field_names.
    do 4 (split; [by simplify_map_eq|]).
    intros field Hfield.
    rewrite !lookup_insert_ne; [done|intros <-; apply Hfield; simpl; tauto..].
  - rewrite (bool_decide_eq_false_2 _ Hout), lookup_empty.
    rewrite list_elem_of_In in Hout.
    split; [by split|]. by intros entry.
Qed.

(** The schema of the worked configuration over a file processor that
    declares [size] and [url], and [format] as something else. *)
Example schema_of_the_demo :
  let base : FieldSchema :=
    {[ "size" := TNumber; "url" := TString; "format" := TOther "Mixed" ]} in
  createFieldSchema base Demo.settings !! "medium"
  = Some {[ "size" := TNumber; "url" := TString; "format" := TString;
            "depth" := TNumber; "width" := TNumber; "height" := TNumber ]}
  /\ createFieldSchema base Demo.settings !! "large" = None.
Proof. split; vm_compute; reflexivity. Qed.
